(** * Tennis ranking algorithms: bracket reconstruction and ranking engine

    A shallow embedding of [prep_data.py] and [analyse_data.py].

    Conventions of the embedding.
    - A row of data is a Python list of 15 cells; it is a record whose
      fields carry the names of [col_dict].
    - Python floats are read as exact rationals ([Qc]); dates are day
      numbers ([Z]), so [timedelta(weeks = 52)] is 364.
    - A Python dict is an association list in insertion order.
    - [list(set(l))] enumerates the distinct elements of [l] in an order
      the language does not fix: it is a parameter ([PySet]).
    - Exceptions are the constructors of [exn]; a function that can raise
      returns a [result]. *)

From Stdlib Require Import List String Ascii ZArith QArith Qcanon Bool Lia.
From Stdlib Require Import Permutation DecimalString Sorted.
Import ListNotations.

Open Scope string_scope.
Open Scope list_scope.
Open Scope Z_scope.

(** ** Exceptions *)

Inductive exn : Type := KeyError | ValueError | ZeroDivisionError.

Inductive result (A : Type) : Type :=
| Ok (a : A)
| Raise (e : exn).

Arguments Ok {A} a.
Arguments Raise {A} e.

Definition bind {A B : Type} (c : result A) (k : A -> result B) : result B :=
  match c with
  | Ok a => k a
  | Raise e => Raise e
  end.

Notation "x <- c ;; k" := (bind c (fun x => k))
  (at level 61, c at next level, right associativity).

(** The computation [c] does not raise [e]. *)
Definition never {A : Type} (e : exn) (c : result A) : Prop := c <> Raise e.

(** The value a computation returns, seen through [f]. *)
Definition rmap {A B : Type} (f : A -> B) (c : result A) : result B :=
  match c with
  | Ok a => Ok (f a)
  | Raise e => Raise e
  end.

(** [for x in l: st = body(st, x)], where the body may raise. *)
Fixpoint for_each {A S : Type} (body : S -> A -> result S) (l : list A) (st : S)
  : result S :=
  match l with
  | [] => Ok st
  | x :: l' => st' <- body st x ;; for_each body l' st'
  end.

(** ** Dictionaries *)

Definition dict (V : Type) : Type := list (string * V).

Fixpoint dict_get {V : Type} (d : dict V) (k : string) : option V :=
  match d with
  | [] => None
  | (k', v) :: d' => if String.eqb k k' then Some v else dict_get d' k
  end.

(** [d[k]] *)
Definition getitem {V : Type} (d : dict V) (k : string) : result V :=
  match dict_get d k with
  | Some v => Ok v
  | None => Raise KeyError
  end.

(** [d[k] = v]: an existing key keeps its position, a new one goes last. *)
Fixpoint setitem {V : Type} (d : dict V) (k : string) (v : V) : dict V :=
  match d with
  | [] => [(k, v)]
  | (k', v') :: d' =>
      if String.eqb k k' then (k', v) :: d' else (k', v') :: setitem d' k v
  end.

Definition keys {V : Type} (d : dict V) : list string := map fst d.
Definition values {V : Type} (d : dict V) : list V := map snd d.

(** [{x : f(x) for x in ks}], for a list [ks] without repetition. *)
Definition dict_comp {V : Type} (ks : list string) (f : string -> V) : dict V :=
  map (fun x => (x, f x)) ks.

Definition inb (x : string) (l : list string) : bool :=
  existsb (String.eqb x) l.

(** [{k : f(v) for k, v in d.items()}], where [f] may raise. *)
Fixpoint dict_comp_items {V W : Type} (d : dict V) (f : V -> result W)
  : result (dict W) :=
  match d with
  | [] => Ok []
  | (k, v) :: d' =>
      w <- f v ;; rest <- dict_comp_items d' f ;; Ok ((k, w) :: rest)
  end.

(** [{x : f(x) for x in ks}], where [f] may raise. *)
Fixpoint dict_comp_r {V : Type} (ks : list string) (f : string -> result V)
  : result (dict V) :=
  match ks with
  | [] => Ok []
  | x :: ks' => v <- f x ;; rest <- dict_comp_r ks' f ;; Ok ((x, v) :: rest)
  end.

(** [try: ... except KeyError: pass], around a statement that updates [st]. *)
Definition except_KeyError_pass {S : Type} (c : result S) (st : S) : result S :=
  match c with
  | Raise KeyError => Ok st
  | other => other
  end.

(** ** Numbers *)

Definition Z2Qc (z : Z) : Qc := Q2Qc (inject_Z z).

Definition Qc_ltb (a b : Qc) : bool :=
  match (a ?= b)%Qc with
  | Lt => true
  | _ => false
  end.

Definition Qc_abs (a : Qc) : Qc := if Qc_ltb a 0%Qc then (- a)%Qc else a.

(** [a / b] on floats. *)
Definition true_div (a b : Qc) : result Qc :=
  if Qc_eq_dec b 0%Qc then Raise ZeroDivisionError else Ok (a / b)%Qc.

Definition q_0_85 : Qc := Q2Qc (85 # 100).
Definition q_0_15 : Qc := Q2Qc (15 # 100).

(** The default of [stopping_threshold], 0.00000000001. *)
Definition default_threshold : Qc := Q2Qc (1 # 100000000000).

(** [max(l)] and [min(l)]: the first extremal element; an empty argument
    raises [ValueError]. *)
Definition py_max {V : Type} (ltb : V -> V -> bool) (l : list V) : result V :=
  match l with
  | [] => Raise ValueError
  | x :: l' => Ok (fold_left (fun m y => if ltb m y then y else m) l' x)
  end.

Definition py_min {V : Type} (ltb : V -> V -> bool) (l : list V) : result V :=
  match l with
  | [] => Raise ValueError
  | x :: l' => Ok (fold_left (fun m y => if ltb y m then y else m) l' x)
  end.

(** ** Iteration order of sets *)

Class PySet : Type := {
  set_list : list string -> list string;
  set_list_NoDup : forall l, NoDup (set_list l);
  set_list_In : forall l x, In x (set_list l) <-> In x l
}.

(** One possible order: first occurrences, left to right. *)
Fixpoint first_seen (l : list string) : list string :=
  match l with
  | [] => []
  | x :: l' => x :: filter (fun y => negb (String.eqb y x)) (first_seen l')
  end.

(** The order of first occurrences is an iteration order of sets. *)
#[export] Instance first_seen_set : PySet.
Proof.
  refine {| set_list := first_seen; set_list_NoDup := _; set_list_In := _ |}.
  - induction l as [|y l IH]; simpl; constructor.
    + rewrite filter_In. intros [_ H].
      rewrite String.eqb_refl in H. discriminate.
    + now apply NoDup_filter.
  - induction l as [|y l IH]; intros x; simpl; [tauto|].
    rewrite filter_In, IH. split.
    + intros [H|[H _]]; auto.
    + intros [H|H]; auto.
      destruct (String.eqb_spec x y) as [->|Hxy]; auto.
Defined.

(** ** [sorted(d.items(), reverse = True, key = lambda item: item[1])]

    Python's sort is stable, also with [reverse = True]: items with equal
    values keep their order. *)

Section Sorted.
Context {V : Type} (ltb : V -> V -> bool).

Fixpoint insert_desc (x : string * V) (l : list (string * V))
  : list (string * V) :=
  match l with
  | [] => [x]
  | y :: l' => if ltb (snd x) (snd y) then y :: insert_desc x l' else x :: l
  end.

Definition sorted_desc (l : list (string * V)) : list (string * V) :=
  fold_right insert_desc [] l.
End Sorted.

(** ** Rows *)

(** The cell [row[13]] holds the integer 0 until a round name is written. *)
Inductive round_value : Type :=
| Rzero
| Rname (s : string).

Definition round_is_zero (v : round_value) : bool :=
  match v with
  | Rzero => true
  | Rname _ => false
  end.

(** The 3 x 2 array of set results: one (player 1, player 2) pair per set. *)
Definition set_results : Type := ((Z * Z) * (Z * Z) * (Z * Z))%type.

(** A line as [process_line] returns it: cells 0 to 10. *)
Record clean_line : Type := mkLine {
  l_Tournament : string;
  l_Start_Date : Z;
  l_End_Date : Z;
  l_Best_Of : Z;
  l_Player_1 : string;
  l_Player_2 : string;
  l_Rank_1 : Z;
  l_Rank_2 : Z;
  l_Results : set_results;
  l_Comment : string;
  l_Tournament_Start : string
}.

(** A row as [read_data] returns it: cells 0 to 14. *)
Record row : Type := mkRow {
  Tournament : string;
  Start_Date : Z;
  End_Date : Z;
  Best_Of : Z;
  Player_1 : string;
  Player_2 : string;
  Rank_1 : Z;
  Rank_2 : Z;
  Results : set_results;
  Comment : string;
  Tournament_Start : string;
  Winner : string;
  Loser : string;
  Round : round_value;
  Round_number : Z
}.

Definition set_round (x : row) (name : round_value) (n : Z) : row :=
  mkRow (Tournament x) (Start_Date x) (End_Date x) (Best_Of x)
        (Player_1 x) (Player_2 x) (Rank_1 x) (Rank_2 x) (Results x)
        (Comment x) (Tournament_Start x) (Winner x) (Loser x) name n.

(** ** [prep_data.find_winner_loser] and [read_data] *)

(** [s.replace(pat, "")]: [skip] counts the characters of a match still to
    drop. *)
Fixpoint remove_all_from (pat s : string) (skip : nat) : string :=
  match s with
  | EmptyString => EmptyString
  | String c s' =>
      match skip with
      | S k => remove_all_from pat s' k
      | O =>
          if String.prefix pat s
          then remove_all_from pat s' (String.length pat - 1)%nat
          else String c (remove_all_from pat s' O)
      end
  end.

Definition str_remove (s pat : string) : string := remove_all_from pat s O.

(** The pair (winner, loser) that [find_winner_loser] appends to the line. *)
Definition find_winner_loser (cl : clean_line) : string * string :=
  let '(set1, set2, set3) := l_Results cl in
  if negb (String.eqb (l_Comment cl) "Completed") then
    let retiree := str_remove (l_Comment cl) " Retired" in
    if String.eqb (l_Player_1 cl) retiree
    then (l_Player_2 cl, l_Player_1 cl)
    else (l_Player_1 cl, l_Player_2 cl)
  else if (fst set3 =? 0) && (snd set3 =? 0) then
    if fst set1 >? snd set1
    then (l_Player_1 cl, l_Player_2 cl)
    else (l_Player_2 cl, l_Player_1 cl)
  else
    let won (s : Z * Z) : Z := if fst s - snd s >? 0 then 1 else 0 in
    if won set1 + won set2 + won set3 >? 1
    then (l_Player_1 cl, l_Player_2 cl)
    else (l_Player_2 cl, l_Player_1 cl).

(** The body of the loop of [read_data], after [process_line]: winner and
    loser are appended, then 0 twice. *)
Definition read_data_line (cl : clean_line) : row :=
  let '(w, l) := find_winner_loser cl in
  mkRow (l_Tournament cl) (l_Start_Date cl) (l_End_Date cl) (l_Best_Of cl)
        (l_Player_1 cl) (l_Player_2 cl) (l_Rank_1 cl) (l_Rank_2 cl)
        (l_Results cl) (l_Comment cl) (l_Tournament_Start cl) w l Rzero 0.

Definition read_data (lines : list clean_line) : list row :=
  map read_data_line lines.

(** A match is complete when its comment says so; any other comment names
    a retiree. *)
Definition is_completed (x : row) : bool := String.eqb (Comment x) "Completed".

(** The data model's invariant on the outcome. *)
Definition winner_is_participant (x : row) : Prop :=
  Winner x = Player_1 x \/ Winner x = Player_2 x.

Definition loser_is_participant (x : row) : Prop :=
  Loser x = Player_1 x \/ Loser x = Player_2 x.

(** [try: match_counter[k] += 1 except KeyError: pass] *)
Definition count_match (match_counter : dict Z) (k : string) : dict Z :=
  match dict_get match_counter k with
  | Some v => setitem match_counter k (v + 1)
  | None => match_counter
  end.

(** ** [analyse_data.get_unique_players] *)

Section Ranking.
Context {PS : PySet}.

Definition get_unique_players (data : list row) : list string :=
  let players := map Player_1 data in
  let players2 := map Player_2 data in
  set_list (players ++ players2).

(** ** [analyse_data.calc_ww] *)

Definition calc_ww (data : list row) : list (string * Z) :=
  let unique_players := get_unique_players data in
  let match_counter := dict_comp unique_players (fun _ => 0) in
  let match_counter :=
    fold_left (fun mc x => count_match mc (Winner x)) data match_counter in
  sorted_desc Z.ltb match_counter.

(** ** [analyse_data.calc_wdl] *)

(** The body of [for row in data] in [calc_wdl]. *)
Definition wdl_update (wdl_dict : dict Qc) (x : row) : result (dict Qc) :=
  (* wdl_dict[row[11]] += row[14] *)
  d1 <- except_KeyError_pass
          (v <- getitem wdl_dict (Winner x) ;;
           Ok (setitem wdl_dict (Winner x) (v + Z2Qc (Round_number x))%Qc))
          wdl_dict ;;
  (* wdl_dict[row[12]] -= (1 / row[14]) *)
  except_KeyError_pass
    (v <- getitem d1 (Loser x) ;;
     q <- true_div 1%Qc (Z2Qc (Round_number x)) ;;
     Ok (setitem d1 (Loser x) (v - q)%Qc))
    d1.

Definition calc_wdl (data : list row) : result (list (string * Qc)) :=
  let unique_players := get_unique_players data in
  let wdl_dict := dict_comp unique_players (fun _ => 0%Qc) in
  wdl_dict <- for_each wdl_update data wdl_dict ;;
  Ok (sorted_desc Qc_ltb wdl_dict).

(** ** [analyse_data.calc_wbw] *)

(** The players who beat [k], once per defeat. *)
Definition beaten_by (data : list row) (k : string) : list string :=
  map Winner (filter (fun x => String.eqb (Loser x) k) data).

(** [shares_dict[victor] += share_of_score] *)
Definition credit_share (share_of_score : Qc) (shares_dict : dict Qc)
           (victor : string) : result (dict Qc) :=
  v <- getitem shares_dict victor ;;
  Ok (setitem shares_dict victor (v + share_of_score)%Qc).

(** The loop over [beaten_by_dict.items()].  With [self_increment] the
    branch of a player who never lost is the source's; without it the
    branch does nothing. *)
Definition wbw_distribute (self_increment : bool)
           (st : dict Qc * dict Qc) (item : string * list string)
  : result (dict Qc * dict Qc) :=
  let '(wbw_dict, shares_dict) := st in
  let '(k, victors) := item in
  if negb (Nat.eqb (List.length victors) 0) then
    score <- getitem wbw_dict k ;;
    share_of_score <- true_div score (Z2Qc (Z.of_nat (List.length victors))) ;;
    shares_dict <- for_each (credit_share share_of_score) victors shares_dict ;;
    Ok (wbw_dict, shares_dict)
  else if self_increment then
    score <- getitem wbw_dict k ;;
    score' <- getitem wbw_dict k ;;
    Ok (setitem wbw_dict k (score + score')%Qc, shares_dict)
  else Ok (wbw_dict, shares_dict).

(** One turn of the loop [for i in range(1000)]: the new scores, and
    whether the stopping criterion holds. *)
Definition wbw_pass (self_increment : bool) (n : Z)
           (beaten_by_dict : dict (list string)) (stopping_threshold : Qc)
           (wbw_dict : dict Qc) : result (dict Qc * bool) :=
  let shares_dict := dict_comp (keys beaten_by_dict) (fun _ => 0%Qc) in
  max_score_pre <- py_max Qc_ltb (values wbw_dict) ;;
  min_score_pre <- py_min Qc_ltb (values wbw_dict) ;;
  st <- for_each (wbw_distribute self_increment) beaten_by_dict
          (wbw_dict, shares_dict) ;;
  let shares_dict := snd st in
  wbw_dict <-
    dict_comp_items shares_dict
      (fun v => q <- true_div q_0_15 (Z2Qc n) ;; Ok (v * q_0_85 + q)%Qc) ;;
  max_score_post <- py_max Qc_ltb (values wbw_dict) ;;
  min_score_post <- py_min Qc_ltb (values wbw_dict) ;;
  Ok (wbw_dict,
      Qc_ltb (Qc_abs (max_score_post - max_score_pre)) stopping_threshold
      && Qc_ltb (Qc_abs (min_score_post - min_score_pre)) stopping_threshold).

Fixpoint wbw_loop (self_increment : bool) (fuel : nat) (n : Z)
         (beaten_by_dict : dict (list string)) (stopping_threshold : Qc)
         (wbw_dict : dict Qc) : result (dict Qc) :=
  match fuel with
  | O => Ok wbw_dict
  | S fuel' =>
      pass <- wbw_pass self_increment n beaten_by_dict stopping_threshold
                wbw_dict ;;
      if snd pass then Ok (fst pass)  (* break *)
      else wbw_loop self_increment fuel' n beaten_by_dict
             stopping_threshold (fst pass)
  end.

Definition wbw_init (data : list row) : result (dict Qc) :=
  let unique_players := get_unique_players data in
  let n := Z.of_nat (List.length unique_players) in
  dict_comp_r unique_players (fun _ => true_div 1%Qc (Z2Qc n)).

Definition beaten_by_dict_of (data : list row) : dict (list string) :=
  dict_comp (get_unique_players data) (beaten_by data).

Definition calc_wbw_with (self_increment : bool) (data : list row)
           (stopping_threshold : Qc) : result (list (string * Qc)) :=
  let unique_players := get_unique_players data in
  let n := Z.of_nat (List.length unique_players) in
  wbw_dict <- wbw_init data ;;
  let beaten_by_dict := beaten_by_dict_of data in
  wbw_dict <- wbw_loop self_increment 1000 n beaten_by_dict
                stopping_threshold wbw_dict ;;
  Ok (sorted_desc Qc_ltb wbw_dict).

(** The function of the source. *)
Definition calc_wbw (data : list row) (stopping_threshold : Qc)
  : result (list (string * Qc)) :=
  calc_wbw_with true data stopping_threshold.

(** The same function with the branch of undefeated players removed. *)
Definition calc_wbw_without_self_increment (data : list row)
           (stopping_threshold : Qc) : result (list (string * Qc)) :=
  calc_wbw_with false data stopping_threshold.

(** The scores after [i] completed turns of the loop, the stopping
    criterion left aside. *)
Fixpoint wbw_scores_after (i : nat) (n : Z)
         (beaten_by_dict : dict (list string)) (wbw_dict : dict Qc)
  : result (dict Qc) :=
  match i with
  | O => Ok wbw_dict
  | S i' =>
      pass <- wbw_pass true n beaten_by_dict default_threshold wbw_dict ;;
      wbw_scores_after i' n beaten_by_dict (fst pass)
  end.

Definition calc_wbw_scores_after (data : list row) (i : nat)
  : result (dict Qc) :=
  wbw_dict <- wbw_init data ;;
  wbw_scores_after i (Z.of_nat (List.length (get_unique_players data)))
    (beaten_by_dict_of data) wbw_dict.

End Ranking.

(** ** [analyse_data.compare_wbw_wta] *)

(** Comparison of Python lists of numbers: the sort key [ranks_data.get]
    returns the list held for a player. *)
Fixpoint list_ltb (a b : list Qc) : bool :=
  match a, b with
  | [], [] => false
  | [], _ :: _ => true
  | _ :: _, [] => false
  | x :: a', y :: b' =>
      if Qc_ltb x y then true
      else if Qc_ltb y x then false
      else list_ltb a' b'
  end.

(** [enumerate(l, 1)] *)
Definition enumerate1 {A : Type} (l : list A) : list (Z * A) :=
  combine (map Z.of_nat (seq 1 (List.length l))) l.

Section Compare.
Context {PS : PySet}.

(** [datetime.strptime(tourn.split()[-1], "%Y-%m-%d")]: the start date
    that the key of a tournament ends with, as a day number. *)
Variable start_date_of_key : string -> result Z.

(** The two statements guarded by
    [len(ranks_data[player]) == 1 and rank != 0]. *)
Definition append_rank (st : dict (list Qc) * dict (list Qc))
           (player : string) (rank : Z)
  : result (dict (list Qc) * dict (list Qc)) :=
  let '(ranks_data, ranks_data_alt) := st in
  v <- getitem ranks_data player ;;
  if Nat.eqb (List.length v) 1 && negb (rank =? 0) then
    let ranks_data := setitem ranks_data player (v ++ [Z2Qc rank]) in
    va <- getitem ranks_data_alt player ;;
    Ok (ranks_data, setitem ranks_data_alt player (va ++ [Z2Qc rank]))
  else Ok st.

(** The body of [for tourn in tourn_list] up to the end of the loop over
    [tourn_data]: the two dicts [ranks_data] and [ranks_data_alt]. *)
Definition tourn_ranks_data (data all_data : list row)
           (stopping_threshold : Qc) (tourn : string)
  : result (dict (list Qc) * dict (list Qc)) :=
  let tourn_data :=
    filter (fun x => String.eqb (Tournament_Start x) tourn) data in
  start_date <- start_date_of_key tourn ;;
  let weeks_52_prior := start_date - 364 in
  let tourn_wbw_data :=
    filter (fun x => (weeks_52_prior <=? Start_Date x)
                     && (Start_Date x <=? start_date)) all_data in
  tourn_wbw_scores <- calc_wbw tourn_wbw_data stopping_threshold ;;
  let ranks_data : dict (list Qc) :=
    map (fun kv => (fst kv, [snd kv])) tourn_wbw_scores in
  let ranks_data_alt : dict (list Qc) :=
    map (fun rk => (snd rk, [Z2Qc (fst rk)]))
        (enumerate1 (keys (sorted_desc list_ltb ranks_data))) in
  for_each
    (fun st x =>
       st1 <- append_rank st (Player_1 x) (Rank_1 x) ;;
       append_rank st1 (Player_2 x) (Rank_2 x))
    tourn_data (ranks_data, ranks_data_alt).

(** [[v for v in d.values() if len(v) == 2]], each with its key. *)
Definition with_two {V : Type} (d : dict (list V)) : dict (list V) :=
  filter (fun kv => Nat.eqb (List.length (snd kv)) 2) d.

(** The rows of the array returned: WBW score, WTA rank, WBW rank. *)
Definition compare_wbw_wta (data all_data : list row)
           (stopping_threshold : Qc) : result (list (list Qc)) :=
  let tourn_list := set_list (map Tournament_Start data) in
  ranks <-
    for_each
      (fun acc tourn =>
         let '(all_ranks, all_ranks_alt) := acc in
         rd <- tourn_ranks_data data all_data stopping_threshold tourn ;;
         let tourn_ranks := values (with_two (fst rd)) in
         let tourn_ranks_alt := values (with_two (snd rd)) in
         Ok (all_ranks ++ tourn_ranks, all_ranks_alt ++ tourn_ranks_alt))
      tourn_list (@nil (list Qc), @nil (list Qc)) ;;
  let '(all_ranks, all_ranks_alt) := ranks in
  Ok (map (fun p => fst p ++ [snd p])
          (combine all_ranks (map (hd 0%Qc) all_ranks_alt))).

End Compare.

(** ** [prep_data.tournament_dict] *)

Inductive dict_key : Type :=
| KInt (z : Z)
| KStr (s : string).

Definition tournament_dict (k : dict_key) : option string :=
  match k with
  | KInt 1 => Some "Final"
  | KInt 2 => Some "Semi-final"
  | KInt 3 => Some "Quarter-final"
  | KStr "x" => Some "Third-place Playoff"
  | KStr "group" => Some "Group Stage"
  | _ => None
  end.

(** [tournament_dict[k]], for the keys the source reads this way: 1, 2,
    ["x"] and ["group"], all present. *)
Definition tournament_dict_at (k : dict_key) : string :=
  match tournament_dict k with
  | Some name => name
  | None => ""
  end.

(** ** [prep_data.reconstruct_brackets] *)

(** [round(math.log(n, 2))] for an integer [n >= 1]: the integer [k] with
    [2^(2k-1) <= n^2 < 2^(2k+1)] (a tie would need [n^2 = 2^(2k+1)]). *)
Definition round_log2 (n : Z) : Z := (Z.log2 (n * n) + 1) / 2.

(** [list(range(k, 0, -1))] *)
Definition range_down (k : Z) : list Z :=
  map Z.of_nat (rev (seq 1 (Z.to_nat k))).

(** [l.index(x)]; the source asks it only for an element of [l], so the
    [ValueError] of an absent element is not modelled. *)
Fixpoint list_index (x : Z) (l : list Z) : Z :=
  match l with
  | [] => 0
  | y :: l' => if x =? y then 0 else 1 + list_index x l'
  end.

(** [str(n)] inside an f-string. *)
Definition str_of_Z (n : Z) : string := NilZero.string_of_int (Z.to_int n).

(** The cells 11 or 12 of the rows whose cell 13 is still 0. *)
Definition unresolved (tourn_data : list row) : list row :=
  filter (fun x => round_is_zero (Round x)) tourn_data.

(** [set(losers) - set(winners)]; the source only tests membership in it. *)
Definition set_difference (a b : list string) : list string :=
  filter (fun x => negb (inb x b)) a.

(** The body of [for row in tourn_data], on one row; what it writes into
    the row depends on that row and on values fixed before the loop. *)
Definition update_row (stage_iterable : list Z) (stage : Z)
           (round_name : string) (current_stage_losers : list string)
           (x : row) : row :=
  if negb (round_is_zero (Round x)) then x  (* continue *)
  else
    let x1 :=
      if inb (Loser x) current_stage_losers
      then set_round x (Rname round_name) (list_index stage stage_iterable + 1)
      else x in
    if (stage =? 2) && inb (Winner x1) current_stage_losers
       && inb (Loser x1) current_stage_losers
    then set_round x1 (Rname (tournament_dict_at (KStr "x")))
                   (list_index stage stage_iterable + 2)
    else x1.

(** The body of [for stage in stage_iterable]. *)
Definition stage_pass (stage_iterable : list Z) (tourn_data : list row)
           (stage : Z) : list row :=
  let round_name :=
    match tournament_dict (KInt stage) with
    | Some name => name
    | None => ("Round " ++ str_of_Z (list_index stage stage_iterable + 1))%string
    end in
  let losers := map Loser (unresolved tourn_data) in
  let winners := map Winner (unresolved tourn_data) in
  let current_stage_losers := set_difference losers winners in
  map (update_row stage_iterable stage round_name current_stage_losers)
      tourn_data.

(** The body of [for tourn in tourn_list], on the rows of one tournament. *)
Definition reconstruct_tourn (tourn_data : list row) : list row :=
  let num_stages := round_log2 (Z.of_nat (List.length tourn_data) + 1) in
  let stage_iterable := range_down num_stages in
  fold_left (stage_pass stage_iterable) stage_iterable tourn_data.

Definition of_tourn (tourn : string) (x : row) : bool :=
  String.eqb (Tournament_Start x) tourn.

(** The rows of [tourn_data] are the very objects held by [data]: what the
    loops write into them shows in [data], at the places of the rows of the
    tournament, in order. *)
Fixpoint write_back (tourn : string) (tourn_data data : list row) : list row :=
  match data with
  | [] => []
  | x :: data' =>
      if of_tourn tourn x then
        match tourn_data with
        | y :: tourn_data' => y :: write_back tourn tourn_data' data'
        | [] => x :: write_back tourn [] data'
        end
      else x :: write_back tourn tourn_data data'
  end.

Section Brackets.
Context {PS : PySet}.

Definition reconstruct_brackets (data : list row) : list row :=
  let tourn_list := set_list (map Tournament_Start data) in
  fold_left
    (fun data tourn =>
       let tourn_data := filter (of_tourn tourn) data in
       write_back tourn (reconstruct_tourn tourn_data) data)
    tourn_list data.

(** ** [prep_data.reconstruct_brackets_rr] *)

(** The state of the loop that classifies the rows of a round robin: the
    rows visited so far, the two counters, and the two names bound to an
    earlier row, as the place of that row. *)
Record rr_state : Type := mkRR {
  rr_rows : list row;
  final_counter : Z;
  semi_final_counter : Z;
  final_lineup_repeated : option nat;
  semi_final_lineup_repeated : option nat
}.

Fixpoint update_at {A : Type} (i : nat) (f : A -> A) (l : list A) : list A :=
  match l, i with
  | [], _ => []
  | x :: l', O => f x :: l'
  | x :: l', S i' => x :: update_at i' f l'
  end.

Definition group_stage : round_value :=
  Rname (tournament_dict_at (KStr "group")).

(** [earlier[13] = tournament_dict["group"]; earlier[14] = 1].  The name
    is bound whenever the source reaches these statements: its counter
    has left its first value. *)
Definition reupdate (earlier : option nat) (rows : list row) : list row :=
  match earlier with
  | Some i => update_at i (fun y => set_round y group_stage 1) rows
  | None => rows
  end.

Definition classify_row (group_stage_losers finalists : list string)
           (st : rr_state) (x : row) : rr_state :=
  let here := List.length (rr_rows st) in
  let final := Rname (tournament_dict_at (KInt 1)) in
  let semi := Rname (tournament_dict_at (KInt 2)) in
  if inb (Player_1 x) group_stage_losers
     || inb (Player_2 x) group_stage_losers then
    mkRR (rr_rows st ++ [set_round x group_stage 1])
         (final_counter st) (semi_final_counter st)
         (final_lineup_repeated st) (semi_final_lineup_repeated st)
  else if inb (Player_1 x) finalists && inb (Player_2 x) finalists then
    if final_counter st =? 1 then
      mkRR (rr_rows st ++ [set_round x final 3])
           (final_counter st - 1) (semi_final_counter st)
           (Some here) (semi_final_lineup_repeated st)
    else
      mkRR (reupdate (final_lineup_repeated st) (rr_rows st)
              ++ [set_round x final 3])
           (final_counter st) (semi_final_counter st)
           (final_lineup_repeated st) (semi_final_lineup_repeated st)
  else if (inb (Player_1 x) finalists || inb (Player_2 x) finalists)
          && round_is_zero (Round x) then
    if semi_final_counter st =? 2 then
      mkRR (rr_rows st ++ [set_round x semi 2])
           (final_counter st) (semi_final_counter st - 1)
           (final_lineup_repeated st) (Some here)
    else if semi_final_counter st =? 1 then
      mkRR (rr_rows st ++ [set_round x semi 2])
           (final_counter st) (semi_final_counter st - 1)
           (final_lineup_repeated st) (semi_final_lineup_repeated st)
    else
      mkRR (reupdate (semi_final_lineup_repeated st) (rr_rows st)
              ++ [set_round x semi 2])
           (final_counter st) (semi_final_counter st)
           (final_lineup_repeated st) (semi_final_lineup_repeated st)
  else
    mkRR (rr_rows st ++ [set_round x group_stage 1])
         (final_counter st) (semi_final_counter st)
         (final_lineup_repeated st) (semi_final_lineup_repeated st).

Definition match_counter_of (tourn_data : list row) : dict Z :=
  let all_players :=
    set_list (map Player_1 tourn_data ++ map Player_2 tourn_data) in
  let match_counter := dict_comp all_players (fun _ => 0) in
  fold_left
    (fun mc x => count_match (count_match mc (Player_1 x)) (Player_2 x))
    tourn_data match_counter.

(** The body of [for tourn in tourn_list], on the rows of one tournament. *)
Definition reconstruct_tourn_rr (tourn_data : list row) : result (list row) :=
  let match_counter := match_counter_of tourn_data in
  min_matches <-
    py_min Z.ltb (filter (fun v => v >? 2) (values match_counter)) ;;
  max_matches <- py_max Z.ltb (values match_counter) ;;
  let group_stage_losers :=
    keys (filter (fun kv => snd kv <=? min_matches) match_counter) in
  let finalists :=
    keys (filter (fun kv => snd kv =? max_matches) match_counter) in
  Ok (rr_rows
        (fold_left (classify_row group_stage_losers finalists) tourn_data
                   (mkRR [] 1 2 None None))).

Definition reconstruct_brackets_rr (rr_data : list row) : result (list row) :=
  let tourn_list := set_list (map Tournament_Start rr_data) in
  for_each
    (fun rr_data tourn =>
       let tourn_data := filter (of_tourn tourn) rr_data in
       tourn_data' <- reconstruct_tourn_rr tourn_data ;;
       Ok (write_back tourn tourn_data' rr_data))
    tourn_list rr_data.

End Brackets.

(** ** Example inputs *)

(** A completed two-set match of tournament [t], won by player 1. *)
Definition match_row (t : string) (day : Z) (p1 p2 : string) (rank1 rank2 : Z)
  : clean_line :=
  mkLine t day day 3 p1 p2 rank1 rank2 ((6, 3), (6, 4), (0, 0)) "Completed" t.

(** A match that player 2 gave up. *)
Definition retired_line : clean_line :=
  mkLine "Open" 10 16 3 "A" "B" 1 2 ((6, 3), (1, 0), (0, 0))
         "B Retired" "Open 2020-01-10".

(** A match of tournament [t] as [read_data] returns it, its round still
    to be reconstructed. *)
Definition fresh_row (t : string) (day : Z) (p1 p2 : string) (rank1 rank2 : Z)
  : row :=
  read_data_line (match_row t day p1 p2 rank1 rank2).

(** One match, which A wins against B. *)
Definition a_beats_b : list row := [fresh_row "Open 2020-01-10" 10 "A" "B" 1 2].

(** ** Vocabulary of the statements and of their proofs *)

(** Sums of scores. *)
Definition sumZ (l : list Z) : Z := fold_right Z.add 0 l.

Definition sumQc (l : list Qc) : Qc := fold_right Qcplus 0%Qc l.

(** No score of the dict is negative. *)
Definition nonneg (d : dict Qc) : Prop :=
  Forall (fun v => (0 <= v)%Qc) (values d).

(** What damping hands to each of [n] players: 0.15 / n. *)
Definition lower_bound (n : Z) : Qc := (q_0_15 / Z2Qc n)%Qc.

(** Every score of the dict is at least [c], and positive. *)
Definition at_least (c : Qc) (d : dict Qc) : Prop :=
  Forall (fun v => (c <= v)%Qc /\ (0 < v)%Qc) (values d).

(** The players that the loop credits are players of the dictionary. *)
Definition victors_known (bb : dict (list string)) : Prop :=
  forall k vs, In (k, vs) bb -> forall v, In v vs -> In v (keys bb).

(** The scores that a turn of the loop passes on: those of the players of
    [items] who lost a match. *)
Fixpoint passed_on (w : dict Qc) (items : dict (list string)) : Qc :=
  match items with
  | [] => 0%Qc
  | (k, vs) :: items' =>
      (match vs, dict_get w k with
       | _ :: _, Some v => v
       | _, _ => 0%Qc
       end + passed_on w items')%Qc
  end.

(** The number of elements of [l] that satisfy [p]. *)
Fixpoint count {A : Type} (p : A -> bool) (l : list A) : nat :=
  match l with
  | [] => O
  | x :: l' => if p x then S (count p l') else count p l'
  end.

(** The cell [row[13]] holds the name [name]. *)
Definition has_round (name : string) (x : row) : bool :=
  match Round x with
  | Rname s => String.eqb s name
  | Rzero => false
  end.

(** The cell [row[14]] holds [n]. *)
Definition has_round_number (n : Z) (x : row) : bool := Round_number x =? n.

(** A reconstruction that writes into the rows without touching their
    tournament. *)
Definition keeps_tournaments (F : list row -> list row) : Prop :=
  forall td, map Tournament_Start (F td) = map Tournament_Start td.

(** [current_stage_losers], as a stage computes it from the rows. *)
Definition current_stage_losers (tourn_data : list row) : list string :=
  set_difference (map Loser (unresolved tourn_data))
                 (map Winner (unresolved tourn_data)).

(** What a stage writes, the test for a third-place playoff left out. *)
Definition resolve (round_name : string) (n : Z) (losers : list string)
           (x : row) : row :=
  if round_is_zero (Round x) && inb (Loser x) losers
  then set_round x (Rname round_name) n
  else x.

(** [round_name], as a stage computes it. *)
Definition round_name_of (stage_iterable : list Z) (stage : Z) : string :=
  match tournament_dict (KInt stage) with
  | Some name => name
  | None => ("Round " ++ str_of_Z (list_index stage stage_iterable + 1))%string
  end.

(** A row whose round is written, and a row whose round is still 0. *)
Definition is_resolved (x : row) : Prop := round_is_zero (Round x) = false.

Definition is_unresolved (x : row) : Prop := round_is_zero (Round x) = true.

(** The row [x], not yet resolved, records that [w] beat [l]. *)
Definition beats (x : row) (w l : string) : Prop :=
  Winner x = w /\ Loser x = l /\ Round x = Rzero.

(** The names of a list without repetition differ two by two. *)
Ltac split_NoDup :=
  repeat match goal with
         | H : NoDup (_ :: _) |- _ =>
             let H1 := fresh "Hn" in
             let H2 := fresh "Hd" in
             inversion H as [|? ? H1 H2]; subst; clear H; simpl in H1
         end.

(** The rows of an explicit list, one by one. *)
Ltac each_row H :=
  simpl in H;
  repeat match type of H with
         | _ \/ _ => destruct H as [<-|H]
         | False => contradiction
         end.

(** The seven records of a single-elimination bracket of eight players, in
    any order and none resolved.  The players are named after their results:
    [w1] wins the tournament, [w3] loses the final, [w2] and [w4] lose the
    semifinals, [l1] to [l4] lose in the first round.  Every bracket of
    eight players reads this way. *)
Definition bracket_of_seven (tourn_data : list row) : Prop :=
  exists w1 l1 w2 l2 w3 l3 w4 l4 q1 q2 q3 q4 s1 s2 fin,
    NoDup [w1; l1; w2; l2; w3; l3; w4; l4]
    /\ Permutation tourn_data [q1; q2; q3; q4; s1; s2; fin]
    /\ beats q1 w1 l1 /\ beats q2 w2 l2 /\ beats q3 w3 l3 /\ beats q4 w4 l4
    /\ beats s1 w1 w2 /\ beats s2 w3 w4
    /\ beats fin w1 w3.

(** A bracket of eight players, the final listed first, and a match of
    another tournament. *)
Definition eight_players : list row :=
  [fresh_row "Cup 2020-02-03" 34 "A" "E" 1 5;
   fresh_row "Cup 2020-02-03" 34 "A" "B" 1 2;
   fresh_row "Open 2020-01-10" 10 "A" "B" 1 2;
   fresh_row "Cup 2020-02-03" 34 "C" "D" 3 4;
   fresh_row "Cup 2020-02-03" 34 "E" "F" 5 6;
   fresh_row "Cup 2020-02-03" 34 "G" "H" 7 8;
   fresh_row "Cup 2020-02-03" 34 "A" "C" 1 3;
   fresh_row "Cup 2020-02-03" 34 "E" "G" 5 7].

(** Two semifinals, the final, and the playoff between the two players who
    lost the semifinals. *)
Definition with_playoff : list row :=
  [fresh_row "Cup 2020-02-03" 34 "A" "B" 1 2;
   fresh_row "Cup 2020-02-03" 34 "C" "D" 3 4;
   fresh_row "Cup 2020-02-03" 34 "A" "C" 1 3;
   fresh_row "Cup 2020-02-03" 34 "B" "D" 2 4].

(** [tournament_dict["x"]] *)
Definition third_place : string := "Third-place Playoff".

(** [tournament_dict[1]] *)
Definition final_name : string := tournament_dict_at (KInt 1).

(** The rows for which the loop takes the branch of the final. *)
Definition in_final_branch (group_stage_losers finalists : list string)
           (x : row) : bool :=
  negb (inb (Player_1 x) group_stage_losers || inb (Player_2 x) group_stage_losers)
  && (inb (Player_1 x) finalists && inb (Player_2 x) finalists).

(** A row with one of the three pairs of round name and round number that
    the loop writes. *)
Definition named_round (x : row) : Prop :=
  (Round x = Rname "Group Stage" /\ Round_number x = 1)
  \/ (Round x = Rname "Semi-final" /\ Round_number x = 2)
  \/ (Round x = Rname "Final" /\ Round_number x = 3).

(** The number of rows named "Final" once [n] rows took the branch of the
    final: the first of them is renamed when a second one comes, and only
    the first. *)
Definition finals_left (n : nat) : nat :=
  match n with
  | O => O
  | S O => 1
  | S (S m) => S m
  end.

(** The row is named "Final". *)
Definition is_final (x : row) : bool := has_round final_name x.

(** Whether the row at place [i] satisfies [p]; no row, no. *)
Definition holds_at (p : row -> bool) (i : nat) (l : list row) : bool :=
  existsb p (firstn 1 (skipn i l)).

(** The earlier row, renamed "Group Stage". *)
Definition regroup (y : row) : row := set_round y group_stage 1.

(** What holds of the loop once the rows [visited] have been visited. *)
Definition rr_inv (group_stage_losers finalists : list string)
           (visited : list row) (st : rr_state) : Prop :=
  let n := count (in_final_branch group_stage_losers finalists) visited in
  map Tournament_Start (rr_rows st) = map Tournament_Start visited
  /\ Forall named_round (rr_rows st)
  /\ count is_final (rr_rows st) = finals_left n
  /\ (n = O -> final_counter st = 1)
  /\ (n <> O ->
      final_counter st = 0
      /\ exists i, final_lineup_repeated st = Some i
                   /\ (i < List.length (rr_rows st))%nat
                   /\ holds_at is_final i (rr_rows st) = Nat.eqb n 1)
  /\ (forall j, semi_final_lineup_repeated st = Some j ->
                (j < List.length (rr_rows st))%nat
                /\ holds_at is_final j (rr_rows st) = false).

(** The players of the rows, with repetitions. *)
Definition players_of (tourn_data : list row) : list string :=
  map Player_1 tourn_data ++ map Player_2 tourn_data.

(** The number of matches of the tournament that [p] played. *)
Definition matches_played (tourn_data : list row) (p : string) : Z :=
  Z.of_nat (count (fun x => String.eqb (Player_1 x) p) tourn_data
            + count (fun x => String.eqb (Player_2 x) p) tourn_data).

(** [p] is one of the two finalists. *)
Definition is_one_of (f1 f2 p : string) : bool :=
  String.eqb p f1 || String.eqb p f2.

(** A match between the two finalists. *)
Definition between_finalists (f1 f2 : string) (x : row) : bool :=
  is_one_of f1 f2 (Player_1 x) && is_one_of f1 f2 (Player_2 x).

(** The count of [p] once a match of [k] is counted. *)
Definition bump (k p : string) (v : Z) : Z :=
  if String.eqb k p then v + 1 else v.

(** The records of a tournament with a round-robin stage and a final: the
    two finalists [f1] and [f2] played the same number of matches, more
    than anyone else; somebody played more than two matches and fewer than
    the finalists; and the finalists met once (the final) or twice (in
    their group too). *)
Definition round_robin_instance (tourn_data : list row) : Prop :=
  exists f1 f2 p0,
    f1 <> f2
    /\ 2 < matches_played tourn_data p0 < matches_played tourn_data f1
    /\ matches_played tourn_data f2 = matches_played tourn_data f1
    /\ (forall p, In p (players_of tourn_data) -> p <> f1 -> p <> f2 ->
                  matches_played tourn_data p < matches_played tourn_data f1)
    /\ (1 <= count (between_finalists f1 f2) tourn_data <= 2)%nat.

(** A group of four players, each of whom plays the three others, and the
    final between A and B, who also met in the group. *)
Definition group_and_final : list row :=
  [fresh_row "Masters 2020-11-02" 100 "A" "B" 1 2;
   fresh_row "Masters 2020-11-02" 100 "C" "D" 3 4;
   fresh_row "Masters 2020-11-02" 100 "A" "C" 1 3;
   fresh_row "Masters 2020-11-02" 100 "B" "D" 2 4;
   fresh_row "Masters 2020-11-02" 100 "A" "D" 1 4;
   fresh_row "Masters 2020-11-02" 100 "B" "C" 2 3;
   fresh_row "Masters 2020-11-02" 100 "B" "A" 2 1].

(** The list held for [p], if any, has one element: no rank was appended. *)
Definition no_rank (p : string) (d : dict (list Qc)) : Prop :=
  forall v, In (p, v) d -> List.length v = 1%nat.

(** Two matches of one tournament; B has no official rank. *)
Definition with_unranked : list row :=
  [fresh_row "Open 2020-01-10" 10 "A" "B" 4 0;
   fresh_row "Open 2020-01-10" 10 "C" "B" 7 0].

(** The two dicts that the comparator builds for this tournament, its
    start date being day 10. *)
Definition with_unranked_ranks : dict (list Qc) * dict (list Qc) :=
  match tourn_ranks_data (fun _ => Ok 10) with_unranked with_unranked
          default_threshold "Open 2020-01-10" with
  | Ok ranks => ranks
  | Raise _ => ([], [])
  end.

(** The rank is read from the first record that has one: B is not ranked in
    the first match, and the row of B carries the rank 9 of the second. *)
Definition ranked_later : list row :=
  [fresh_row "Open 2020-01-10" 10 "A" "B" 4 0;
   fresh_row "Open 2020-01-10" 10 "C" "B" 7 9].

(** ** Vocabulary of the further properties *)

(** What holds of the value that a computation returns, if it returns. *)
Definition returns {A : Type} (P : A -> Prop) (c : result A) : Prop :=
  match c with
  | Ok a => P a
  | Raise _ => True
  end.

(** No item comes before an item of a strictly greater score. *)
Definition descending {V : Type} (ltb : V -> V -> bool)
           (l : list (string * V)) : Prop :=
  StronglySorted (fun a b => ltb (snd a) (snd b) = false) l.

(** A ranking of the players of [data]: each of them once, best first. *)
Definition ranking_of {V : Type} {PS : PySet} (ltb : V -> V -> bool)
           (data : list row) (l : list (string * V)) : Prop :=
  Permutation (keys l) (get_unique_players data) /\ descending ltb l.

(** The number of records that [p] won. *)
Definition wins (data : list row) (p : string) : Z :=
  Z.of_nat (count (fun x => String.eqb (Winner x) p) data).

(** What a record adds to the WinnersDontLose score of [p]: its round number
    when [p] won it, minus the inverse of its round number when [p] lost it. *)
Definition wdl_gain (x : row) (p : string) : Qc :=
  ((if String.eqb (Winner x) p then Z2Qc (Round_number x) else 0)
   - (if String.eqb (Loser x) p then 1 / Z2Qc (Round_number x) else 0))%Qc.

Definition wdl_score (data : list row) (p : string) : Qc :=
  fold_left (fun acc x => (acc + wdl_gain x p)%Qc) data 0%Qc.

(** Every player of the data lost at least one match. *)
Definition everybody_lost {PS : PySet} (data : list row) : Prop :=
  forall p, In p (get_unique_players data) ->
            exists x, In x data /\ Loser x = p.

(** A record of players [p1] and [p2] whose cell 11 holds [winner] and whose
    cell 12 holds [p1]. *)
Definition row_won_by (winner p1 p2 : string) : row :=
  mkRow "Open" 10 12 3 p1 p2 1 2 ((6, 0), (6, 0), (0, 0)) "Completed"
        "Open 2020-01-10" winner p1 (Rname "Final") 1.

(** What a turn of the loop keeps: the names, scores that are not negative
    and whose sum is at most 1, and exactly 1 when every player lost. *)
Definition sum_inv (bb : dict (list string)) (w : dict Qc) : Prop :=
  keys w = keys bb /\ nonneg w /\ (sumQc (values w) <= 1)%Qc
  /\ (Forall (fun item => snd item <> []) bb -> sumQc (values w) = 1%Qc).

(** ** [prep_data.reconstruct_all_brackets] *)

(** The two lists hold different rows (those of [filter_round_robin] do), so
    what one reconstruction writes does not show in the other list. *)
Definition reconstruct_all_brackets {PS : PySet} (normal_data rr_data : list row)
  : result (list row) :=
  let normal_data := reconstruct_brackets normal_data in
  rr_data <- reconstruct_brackets_rr rr_data ;;
  Ok (normal_data ++ rr_data).

(** ** Vocabulary of the reconstructed brackets *)

(** The number of stages of a tournament of these rows. *)
Definition stages_of (tourn_data : list row) : Z :=
  round_log2 (Z.of_nat (List.length tourn_data) + 1).

(** The name of the round of number [n] in a tournament of [k] stages: the
    last rounds are named after [tournament_dict], the others by their
    number. *)
Definition round_label (k n : Z) : string :=
  match tournament_dict (KInt (k - n + 1)) with
  | Some name => name
  | None => ("Round " ++ str_of_Z n)%string
  end.

(** [y] is the row [x], or [x] had no round and [y] is [x] with one of the
    rounds 1 to [k] written into it. *)
Definition labelled (k : Z) (x y : row) : Prop :=
  y = x
  \/ (Round x = Rzero
      /\ exists n, 1 <= n <= k
                   /\ y = set_round x (Rname (round_label k n)) n).

(** The rows of the tournament of [x] in [data]. *)
Definition tournament_of (data : list row) (x : row) : list row :=
  filter (of_tourn (Tournament_Start x)) data.

(** [y] is the row [x] with one of the three rounds of a round robin
    written into cells 13 and 14. *)
Definition rr_labelled (x y : row) : Prop :=
  y = set_round x (Rname "Group Stage") 1
  \/ y = set_round x (Rname "Semi-final") 2
  \/ y = set_round x (Rname "Final") 3.

(** Nobody played more than two matches of these rows. *)
Definition at_most_two_matches_each (tourn_data : list row) : Prop :=
  forall p, matches_played tourn_data p <= 2.

(** The loser of the row won none of the matches of [tourn_data] that have
    no round yet. *)
Definition only_lost (tourn_data : list row) (x : row) : Prop :=
  ~ In (Loser x) (map Winner (unresolved tourn_data)).

(** [y] is [y1], or [y1] had no round and [y] has one, of number 2 at
    least. *)
Definition later_round (y1 y : row) : Prop :=
  y = y1
  \/ (Round y1 = Rzero /\ round_is_zero (Round y) = false
      /\ 2 <= Round_number y).

(** [p] played no more matches of [tourn_data] than anyone who played more
    than two. *)
Definition fewest_matches (tourn_data : list row) (p : string) : Prop :=
  forall q, 2 < matches_played tourn_data q ->
            matches_played tourn_data p <= matches_played tourn_data q.

(** ** [prep_data.handle_dodgy_dates] *)

(** A [datetime] as [strptime] with ["%Y-%m-%d"] returns it: a day of the
    calendar at midnight. *)
Record date : Type := mkDate {
  year : Z;
  month : Z;
  day : Z
}.

(** [datetime(y, m, d)] for a day of January: the year has to be between
    [MINYEAR] and [MAXYEAR]. *)
Definition january (y d : Z) : result date :=
  if (1 <=? y) && (y <=? 9999) then Ok (mkDate y 1 d) else Raise ValueError.

(** The function replaces cell 1 of the line; here it returns the cell. *)
Definition handle_dodgy_dates (start : date) : result date :=
  if (month start =? 12) && existsb (Z.eqb (day start)) [29; 30; 31]
  then january (year start + 1) 1
  else Ok start.

(** One of the three last days of a year. *)
Definition is_dodgy (d : date) : bool :=
  (month d =? 12) && (29 <=? day d) && (day d <=? 31).

(** ** [prep_data.find_exceptions] and [prep_data.filter_round_robin] *)

(** [s in k] on strings: [s] occurs in [k]. *)
Fixpoint is_substring (s k : string) : bool :=
  if String.prefix s k then true
  else match k with
       | EmptyString => false
       | String _ k' => is_substring s k'
       end.

(** [enumerate(l)] *)
Definition enumerate0 {A : Type} (l : list A) : list (nat * A) :=
  combine (seq 0 (List.length l)) l.

(** [{j : years[i] for i, j in enumerate(tournaments)}], from place [i] on;
    [None] stands for the [IndexError] of [years[i]]. *)
Fixpoint rr_dict_from (i : nat) (tournaments : list string)
         (years : list (list Z)) (rr_dict : dict (list Z))
  : option (dict (list Z)) :=
  match tournaments with
  | [] => Some rr_dict
  | j :: tournaments' =>
      match nth_error years i with
      | Some v => rr_dict_from (S i) tournaments' years (setitem rr_dict j v)
      | None => None
      end
  end.

(** [[data[i] for i in range(len(data)) if keep(i)]] *)
Definition rows_at (data : list row) (keep : nat -> bool) : list row :=
  flat_map (fun i => match nth_error data i with
                     | Some x => [x]
                     | None => []
                     end)
           (filter keep (seq 0 (List.length data))).

Section RoundRobinYears.

(** [d.year], for a start date given as a day number. *)
Variable year_of : Z -> Z.

(** The test of the comprehension of [find_exceptions]. *)
Definition rr_match (k : string) (v : list Z) (val : row) : bool :=
  is_substring (Tournament val) k
  && existsb (Z.eqb (year_of (Start_Date val))) v.

(** Each entry of [years] is a list or a range of years. *)
Definition find_exceptions (tournaments : list string) (years : list (list Z))
           (data : list row) : option (dict (list Z) * list nat) :=
  match rr_dict_from 0 tournaments years [] with
  | Some rr_dict =>
      let rr_indices :=
        flat_map (fun kv =>
                    map fst (filter (fun iv => rr_match (fst kv) (snd kv) (snd iv))
                                    (enumerate0 data)))
                 rr_dict in
      Some (rr_dict, rr_indices)
  | None => None
  end.

Definition filter_round_robin (tournaments : list string)
           (years : list (list Z)) (data : list row)
  : option (dict (list Z) * list row * list row) :=
  match find_exceptions tournaments years data with
  | Some (rr_dict, rr_indices) =>
      let normal_data :=
        rows_at data (fun i => negb (existsb (Nat.eqb i) rr_indices)) in
      let rr_data := rows_at data (fun i => existsb (Nat.eqb i) rr_indices) in
      Some (rr_dict, normal_data, rr_data)
  | None => None
  end.

(** The row is of a tournament and of a year of [rr_dict]. *)
Definition is_round_robin (rr_dict : dict (list Z)) (x : row) : bool :=
  existsb (fun kv => rr_match (fst kv) (snd kv) x) rr_dict.

End RoundRobinYears.

(** ** Vocabulary of the prepared data *)




(** The row without its round: cells 13 and 14 as [read_data] leaves them. *)
Definition unrounded (x : row) : row := set_round x Rzero 0.

(** ** Vocabulary of the comparison with the official ranks *)

(** What the comparator holds for a player of a ranking: the place in the
    ranking, counted from 1, the name, the score, and the official rank
    once it has been appended. *)
Record entry : Type := mkEntry {
  e_place : Z;
  e_player : string;
  e_score : Qc;
  e_rank : list Qc
}.

(** The item of [ranks_data] and the item of [ranks_data_alt] of an entry. *)
Definition score_item (e : entry) : string * list Qc :=
  (e_player e, e_score e :: e_rank e).

Definition place_item (e : entry) : string * list Qc :=
  (e_player e, Z2Qc (e_place e) :: e_rank e).

(** The entries of a ranking before any rank is appended. *)
Definition first_entries (scores : list (string * Qc)) : list entry :=
  map (fun rk => mkEntry (fst rk) (fst (snd rk)) (snd (snd rk)) [])
      (enumerate1 scores).

(** The entries once [rank] has been read for [player]. *)
Fixpoint add_rank (player : string) (rank : Z) (es : list entry) : list entry :=
  match es with
  | [] => []
  | e :: es' =>
      if String.eqb player (e_player e) then
        (if Nat.eqb (List.length (e_rank e)) 0 && negb (rank =? 0)
         then mkEntry (e_place e) (e_player e) (e_score e)
                      (e_rank e ++ [Z2Qc rank])
         else e) :: es'
      else e :: add_rank player rank es'
  end.

(** The records of the 52 weeks up to [start_date]. *)
Definition window (all_data : list row) (start_date : Z) : list row :=
  filter (fun x => (start_date - 364 <=? Start_Date x)
                   && (Start_Date x <=? start_date)) all_data.

(** The row [x] records the official rank [w] of [p]. *)
Definition rank_in (x : row) (p : string) (w : Z) : Prop :=
  (Player_1 x = p /\ Rank_1 x = w) \/ (Player_2 x = p /\ Rank_2 x = w).

(** The entry belongs to the ranking [scores], and its rank, if any, is a
    rank of its player in a row of [tourn_data], other than 0. *)
Definition entry_of (scores : list (string * Qc)) (tourn_data : list row)
           (e : entry) : Prop :=
  In (e_place e, (e_player e, e_score e)) (enumerate1 scores)
  /\ (e_rank e = []
      \/ exists w x, e_rank e = [Z2Qc w] /\ w <> 0
                     /\ In x tourn_data /\ rank_in x (e_player e) w).

(** A row of the array returned, read as the three numbers of one player
    of one tournament of the data: the score in the ranking of the 52 weeks
    before the tournament, an official rank recorded at the tournament, and
    the place in that ranking. *)
Definition compared_row {PS : PySet} (start_date_of_key : string -> result Z)
           (data all_data : list row) (stopping_threshold : Qc)
           (r : list Qc) : Prop :=
  exists tourn start_date scores i p s x w,
    r = [s; Z2Qc w; Z2Qc i]
    /\ start_date_of_key tourn = Ok start_date
    /\ calc_wbw (window all_data start_date) stopping_threshold = Ok scores
    /\ In (i, (p, s)) (enumerate1 scores)
    /\ In x data /\ Tournament_Start x = tourn
    /\ w <> 0 /\ rank_in x p w.

(** ** [prep_data.col_dict] and [analyse_data.filter_condition] *)

(** The values that a condition is given as, and that a cell other than the
    array of results holds: [None], an integer, a string or a date. *)
Inductive pyval : Type :=
| PNone
| PInt (z : Z)
| PStr (s : string)
| PDate (d : Z).

(** A cell of a row: a value, or the array of the set results. *)
Inductive cell : Type :=
| Cval (v : pyval)
| Carray (r : set_results).

(** The truth value of a condition: [None], 0 and the empty string are
    false. *)
Definition truthy (v : pyval) : bool :=
  match v with
  | PNone => false
  | PInt z => negb (z =? 0)
  | PStr s => negb (String.eqb s "")
  | PDate _ => true
  end.

(** [a == b] on these values: values of different types are not equal. *)
Definition pyval_eqb (a b : pyval) : bool :=
  match a, b with
  | PNone, PNone => true
  | PInt x, PInt y => x =? y
  | PStr x, PStr y => String.eqb x y
  | PDate x, PDate y => x =? y
  | _, _ => false
  end.

(** [col_dict[col]] *)
Definition col_dict (col : string) : result nat :=
  match col with
  | "Tournament" => Ok 0%nat
  | "Start Date" => Ok 1%nat
  | "End Date" => Ok 2%nat
  | "Best Of" => Ok 3%nat
  | "Player 1" => Ok 4%nat
  | "Player 2" => Ok 5%nat
  | "Rank 1" => Ok 6%nat
  | "Rank 2" => Ok 7%nat
  | "Results" => Ok 8%nat
  | "Comment" => Ok 9%nat
  | "Tournament-Start" => Ok 10%nat
  | "Winner" => Ok 11%nat
  | "Loser" => Ok 12%nat
  | "Round" => Ok 13%nat
  | "r" => Ok 14%nat
  | _ => Raise KeyError
  end.

(** [row[i]], for a place [i] of [col_dict]. *)
Definition row_at (x : row) (i : nat) : cell :=
  match i with
  | 0%nat => Cval (PStr (Tournament x))
  | 1%nat => Cval (PDate (Start_Date x))
  | 2%nat => Cval (PDate (End_Date x))
  | 3%nat => Cval (PInt (Best_Of x))
  | 4%nat => Cval (PStr (Player_1 x))
  | 5%nat => Cval (PStr (Player_2 x))
  | 6%nat => Cval (PInt (Rank_1 x))
  | 7%nat => Cval (PInt (Rank_2 x))
  | 8%nat => Carray (Results x)
  | 9%nat => Cval (PStr (Comment x))
  | 10%nat => Cval (PStr (Tournament_Start x))
  | 11%nat => Cval (PStr (Winner x))
  | 12%nat => Cval (PStr (Loser x))
  | 13%nat => Cval (match Round x with
                    | Rzero => PInt 0
                    | Rname s => PStr s
                    end)
  | _ => Cval (PInt (Round_number x))
  end.

(** [[x for x in data if test(x)]], where the test may raise. *)
Fixpoint filter_r (test : row -> result bool) (data : list row)
  : result (list row) :=
  match data with
  | [] => Ok []
  | x :: data' =>
      b <- test x ;;
      rest <- filter_r test data' ;;
      Ok (if b then x :: rest else rest)
  end.

Section FilterCondition.

(** The truth value of [array == condition] for the array of results; it is
    numpy's, and is left open. *)
Variable array_is : set_results -> pyval -> result bool.

(** [row[col_dict[col]] == condition], as a truth value; the default of
    [col2] is [None], which is no key of [col_dict]. *)
Definition cell_is (col : option string) (condition : pyval) (x : row)
  : result bool :=
  match col with
  | None => Raise KeyError
  | Some col =>
      i <- col_dict col ;;
      match row_at x i with
      | Cval v => Ok (pyval_eqb v condition)
      | Carray r => array_is r condition
      end
  end.

(** [None] is returned after the message of the last branch. *)
Definition filter_condition (data : list row) (col1 : string)
           (condition1 : pyval) (col2 : option string) (condition2 : pyval)
           (logical_and logical_or : bool) : result (option (list row)) :=
  if logical_and && truthy condition1 && truthy condition2 then
    rmap Some
         (filter_r (fun x =>
                      a <- cell_is (Some col1) condition1 x ;;
                      if a then cell_is col2 condition2 x else Ok false)
                   data)
  else if logical_or && truthy condition1 && truthy condition2 then
    rmap Some
         (filter_r (fun x =>
                      a <- cell_is (Some col1) condition1 x ;;
                      if a then Ok true else cell_is col2 condition2 x)
                   data)
  else if truthy condition1 then
    rmap Some (filter_r (cell_is (Some col1) condition1) data)
  else Ok None.

End FilterCondition.

(** * Properties *)

(** ** Dictionaries *)

Lemma dict_get_In_keys {V} (d : dict V) k :
  In k (keys d) <-> exists v, dict_get d k = Some v.
Proof.
  induction d as [|[k' v'] d IH]; simpl.
  - split; [tauto | intros [v H]; discriminate].
  - destruct (String.eqb_spec k k') as [->|Hk].
    + split; eauto.
    + rewrite <- IH. split; [intros [H|H]; congruence || auto | auto].
Qed.

Lemma dict_get_None {V} (d : dict V) k :
  ~ In k (keys d) -> dict_get d k = None.
Proof.
  intros H. destruct (dict_get d k) eqn:E; auto.
  exfalso. apply H, dict_get_In_keys. eauto.
Qed.

Lemma keys_setitem {V} (d : dict V) k v :
  In k (keys d) -> keys (setitem d k v) = keys d.
Proof.
  induction d as [|[k' v'] d IH]; simpl; [tauto|].
  intros H. destruct (String.eqb_spec k k') as [->|Hk]; simpl; auto.
  f_equal. apply IH. destruct H; congruence.
Qed.

Lemma keys_dict_comp {V} ks (f : string -> V) : keys (dict_comp ks f) = ks.
Proof.
  unfold keys, dict_comp. rewrite map_map. simpl. apply map_id.
Qed.

Lemma values_dict_comp {V} ks (f : string -> V) :
  values (dict_comp ks f) = map f ks.
Proof.
  unfold values, dict_comp. now rewrite map_map.
Qed.

Lemma getitem_Ok {V} (d : dict V) k :
  In k (keys d) -> exists v, getitem d k = Ok v /\ dict_get d k = Some v.
Proof.
  intros H. apply dict_get_In_keys in H as [v Hv].
  exists v. unfold getitem. now rewrite Hv.
Qed.

(** ** Sorting keeps the items *)

Lemma insert_desc_perm {V} (ltb : V -> V -> bool) x l :
  Permutation (insert_desc ltb x l) (x :: l).
Proof.
  induction l as [|y l IH]; simpl; auto.
  destruct (ltb (snd x) (snd y)); auto.
  rewrite IH. apply perm_swap.
Qed.

Lemma sorted_desc_perm {V} (ltb : V -> V -> bool) l :
  Permutation (sorted_desc ltb l) l.
Proof.
  induction l as [|x l IH]; simpl; auto.
  rewrite insert_desc_perm. now constructor.
Qed.

Lemma sumZ_perm l l' : Permutation l l' -> sumZ l = sumZ l'.
Proof.
  induction 1; simpl; lia.
Qed.

(** ** WinnersWin *)

Lemma sumZ_setitem (d : dict Z) k v w :
  dict_get d k = Some v ->
  sumZ (values (setitem d k w)) = sumZ (values d) - v + w.
Proof.
  induction d as [|[k' v'] d IH]; simpl; [discriminate|].
  destruct (String.eqb_spec k k') as [->|Hk]; simpl.
  - intros [= ->]. lia.
  - intros H. rewrite (IH H). lia.
Qed.

Lemma nonneg_setitem (d : dict Z) k w :
  Forall (fun v => 0 <= v) (values d) -> 0 <= w ->
  Forall (fun v => 0 <= v) (values (setitem d k w)).
Proof.
  induction d as [|[k' v'] d IH]; simpl; intros Hd Hw.
  - constructor; auto.
  - inversion Hd; subst.
    destruct (String.eqb k k'); simpl; constructor; auto.
Qed.

Lemma dict_get_Forall {V} (P : V -> Prop) (d : dict V) k v :
  Forall P (values d) -> dict_get d k = Some v -> P v.
Proof.
  induction d as [|[k' v'] d IH]; simpl; [discriminate|].
  intros Hd. inversion Hd; subst.
  destruct (String.eqb k k'); [intros [= <-]; auto | auto].
Qed.

Lemma sumZ_zeros {A} (l : list A) : sumZ (map (fun _ => 0) l) = 0.
Proof.
  induction l as [|x l IH]; simpl; auto.
Qed.

Section WinnersWin.
Context {PS : PySet}.

Lemma count_wins_spec data : forall mc,
  Forall (fun v => 0 <= v) (values mc) ->
  Forall (fun x => In (Winner x) (keys mc)) data ->
  let mc' := fold_left (fun mc x => count_match mc (Winner x)) data mc in
  keys mc' = keys mc
  /\ Forall (fun v => 0 <= v) (values mc')
  /\ sumZ (values mc') = sumZ (values mc) + Z.of_nat (List.length data).
Proof.
  induction data as [|x data IH]; intros mc Hpos Hin; simpl.
  - repeat split; auto. lia.
  - inversion Hin as [|? ? Hx Hrest]; subst.
    destruct (getitem_Ok mc (Winner x) Hx) as [v [_ Hv]].
    assert (Hstep : count_match mc (Winner x) = setitem mc (Winner x) (v + 1))
      by (unfold count_match; now rewrite Hv).
    assert (Hv0 : 0 <= v) by (eapply dict_get_Forall; eauto).
    rewrite Hstep.
    destruct (IH (setitem mc (Winner x) (v + 1))) as [Hk [Hp Hs]].
    + apply nonneg_setitem; auto. lia.
    + rewrite keys_setitem; auto.
    + rewrite keys_setitem in Hk by auto.
      rewrite (sumZ_setitem _ _ v) in Hs by auto.
      repeat split; auto. lia.
Qed.

Lemma winner_in_players data x :
  In x data -> winner_is_participant x ->
  In (Winner x) (get_unique_players data).
Proof.
  intros Hx Hw. unfold get_unique_players.
  apply set_list_In, in_app_iff.
  destruct Hw as [-> | ->]; [left | right]; now apply in_map.
Qed.

Lemma loser_in_players data x :
  In x data -> loser_is_participant x ->
  In (Loser x) (get_unique_players data).
Proof.
  intros Hx Hw. unfold get_unique_players.
  apply set_list_In, in_app_iff.
  destruct Hw as [-> | ->]; [left | right]; now apply in_map.
Qed.

End WinnersWin.

(** What [find_winner_loser] appends is the two players, in one order. *)
Lemma find_winner_loser_participants cl :
  let x := read_data_line cl in
  (Winner x = Player_1 x /\ Loser x = Player_2 x)
  \/ (Winner x = Player_2 x /\ Loser x = Player_1 x).
Proof.
  unfold read_data_line, find_winner_loser.
  destruct (l_Results cl) as [[set1 set2] set3].
  repeat match goal with
         | |- context [if ?b then _ else _] => destruct b
         end; simpl; auto.
Qed.

Lemma read_data_winner_is_participant lines :
  Forall winner_is_participant (read_data lines).
Proof.
  unfold read_data. apply Forall_forall. intros x Hx.
  apply in_map_iff in Hx as [cl [<- _]].
  destruct (find_winner_loser_participants cl) as [[H _]|[H _]];
    [left | right]; exact H.
Qed.

(** C2, as the code has it: every WinnersWin score is a non-negative
    integer, and on records whose winner is one of the two players the
    scores add up to the number of records of the input, retirements
    included. *)
Theorem calc_ww_sum_is_number_of_rows {PS : PySet} (data : list row) :
  Forall winner_is_participant data ->
  Forall (fun v => 0 <= v) (values (calc_ww data))
  /\ sumZ (values (calc_ww data)) = Z.of_nat (List.length data).
Proof.
  intros Hwf. unfold calc_ww.
  set (mc0 := dict_comp (get_unique_players data) (fun _ => 0)).
  assert (H0 : Forall (fun v => 0 <= v) (values mc0)).
  { unfold mc0. rewrite values_dict_comp. apply Forall_forall.
    intros v Hv. apply in_map_iff in Hv as [? [<- _]]. lia. }
  assert (Hs0 : sumZ (values mc0) = 0).
  { unfold mc0. rewrite values_dict_comp. apply sumZ_zeros. }
  assert (Hin : Forall (fun x => In (Winner x) (keys mc0)) data).
  { unfold mc0. rewrite keys_dict_comp. apply Forall_forall. intros x Hx.
    apply winner_in_players; auto.
    rewrite Forall_forall in Hwf. auto. }
  destruct (count_wins_spec data mc0 H0 Hin) as [_ [Hp Hs]].
  set (mc1 := fold_left (fun mc x => count_match mc (Winner x)) data mc0) in *.
  assert (Hperm := sorted_desc_perm Z.ltb mc1).
  split.
  - apply Forall_forall. intros v Hv.
    rewrite Forall_forall in Hp. apply Hp.
    unfold values in *. eapply Permutation_in; [|exact Hv].
    now apply Permutation_map.
  - unfold values in *.
    rewrite (sumZ_perm _ _ (Permutation_map snd Hperm)). lia.
Qed.

Lemma calc_ww_sum_is_number_of_rows_witness :
  Forall (fun v => 0 <= v)
         (values (calc_ww (read_data [retired_line; match_row "T" 1 "A" "C" 1 3])))
  /\ sumZ (values (calc_ww (read_data [retired_line; match_row "T" 1 "A" "C" 1 3])))
     = 2.
Proof.
  apply (calc_ww_sum_is_number_of_rows
           (read_data [retired_line; match_row "T" 1 "A" "C" 1 3])).
  apply read_data_winner_is_participant.
Defined.

(** C2, as stated, fails: a match ended by a retirement is not a completed
    match, yet its winner scores. *)
Lemma calc_ww_counts_retirements :
  sumZ (values (calc_ww (read_data [retired_line]))) = 1
  /\ Z.of_nat (List.length (filter is_completed (read_data [retired_line]))) = 0
  /\ sumZ (values (calc_ww (read_data [retired_line])))
     <> Z.of_nat (List.length (filter is_completed (read_data [retired_line]))).
Proof.
  vm_compute. repeat split; congruence.
Qed.

(** ** Rationals *)

Lemma Z2Qc_eq_0 z : Z2Qc z = 0%Qc -> z = 0.
Proof.
  unfold Z2Qc. intros H. apply Q2Qc_eq_iff in H.
  unfold Qeq in H. simpl in H. lia.
Qed.

Lemma Z2Qc_pos z : 0 < z -> (0 < Z2Qc z)%Qc.
Proof.
  intros H. unfold Qclt, Z2Qc, Q2Qc. cbn [this]. rewrite !Qred_correct.
  unfold Qlt. simpl. lia.
Qed.

Lemma Qc_div_nonneg a b : (0 <= a)%Qc -> (0 < b)%Qc -> (0 <= a / b)%Qc.
Proof.
  unfold Qcle, Qclt, Qcdiv, Qcmult, Qcinv, Q2Qc. cbn [this].
  rewrite !Qred_correct. intros Ha Hb.
  apply Qmult_le_0_compat; auto.
  apply Qinv_le_0_compat. now apply Qlt_le_weak.
Qed.

Lemma Qc_plus_nonneg a b : (0 <= a)%Qc -> (0 <= b)%Qc -> (0 <= a + b)%Qc.
Proof.
  intros Ha Hb. rewrite <- (Qcplus_0_l 0). now apply Qcplus_le_compat.
Qed.

Lemma q_0_85_nonneg : (0 <= q_0_85)%Qc.
Proof. unfold Qcle. simpl. unfold Qle. simpl. lia. Qed.

Lemma q_0_15_nonneg : (0 <= q_0_15)%Qc.
Proof. unfold Qcle. simpl. unfold Qle. simpl. lia. Qed.

(** The new score is at least the share that damping hands to everyone. *)
Lemma damped_lower_bound s c : (0 <= s)%Qc -> (c <= s * q_0_85 + c)%Qc.
Proof.
  intros Hs. rewrite <- (Qcplus_0_l c) at 1.
  apply Qcplus_le_compat; [|apply Qcle_refl].
  rewrite <- (Qcmult_0_l q_0_85).
  apply Qcmult_le_compat_r; auto. apply q_0_85_nonneg.
Qed.

(** ** Exceptions that a computation cannot raise *)

Lemma never_bind {A B} e (c : result A) (k : A -> result B) :
  never e c -> (forall a, c = Ok a -> never e (k a)) -> never e (bind c k).
Proof.
  unfold never. destruct c as [a|e']; simpl; intros Hc Hk; auto.
  congruence.
Qed.

Lemma never_for_each {A S} e (body : S -> A -> result S) l :
  (forall st x, In x l -> never e (body st x)) ->
  forall st, never e (for_each body l st).
Proof.
  induction l as [|x l IH]; intros Hb st; simpl.
  - discriminate.
  - apply never_bind; [apply Hb; now left|].
    intros st' _. apply IH. intros; apply Hb; now right.
Qed.

Lemma never_getitem {V} (d : dict V) k : never ZeroDivisionError (getitem d k).
Proof.
  unfold never, getitem. destruct (dict_get d k); discriminate.
Qed.

Lemma never_true_div a b : b <> 0%Qc -> never ZeroDivisionError (true_div a b).
Proof.
  unfold never, true_div. intros Hb. destruct (Qc_eq_dec b 0); [tauto|discriminate].
Qed.

Lemma never_py_max {V} (ltb : V -> V -> bool) l :
  never ZeroDivisionError (py_max ltb l).
Proof. destruct l; discriminate. Qed.

Lemma never_py_min {V} (ltb : V -> V -> bool) l :
  never ZeroDivisionError (py_min ltb l).
Proof. destruct l; discriminate. Qed.

Lemma never_dict_comp_items {V W} e (d : dict V) (f : V -> result W) :
  (d <> [] -> forall v, never e (f v)) -> never e (dict_comp_items d f).
Proof.
  intros Hf. induction d as [|[k v] d IH]; simpl; [discriminate|].
  assert (Hf' : forall v, never e (f v)) by (apply Hf; discriminate).
  apply never_bind; auto. intros w _.
  apply never_bind; [|discriminate].
  destruct d; [discriminate|]. apply IH. auto.
Qed.

Lemma never_dict_comp_r {V} e ks (f : string -> result V) :
  (ks <> [] -> forall x, never e (f x)) -> never e (dict_comp_r ks f).
Proof.
  intros Hf. induction ks as [|k ks IH]; simpl; [discriminate|].
  assert (Hf' : forall v, never e (f v)) by (apply Hf; discriminate).
  apply never_bind; auto. intros w _.
  apply never_bind; [|discriminate].
  destruct ks; [discriminate|]. apply IH. auto.
Qed.

Lemma length_pos_Z2Qc {A} (l : list A) :
  l <> [] -> Z2Qc (Z.of_nat (List.length l)) <> 0%Qc.
Proof.
  intros Hl H. apply Z2Qc_eq_0 in H. destruct l; simpl in *; [tauto|lia].
Qed.

(** ** WinnersBeatWinners: the loop over the players *)

Lemma dict_get_setitem_other {V} (d : dict V) k k' v :
  k' <> k -> dict_get (setitem d k v) k' = dict_get d k'.
Proof.
  intros Hk. induction d as [|[k0 v0] d IH]; simpl.
  - destruct (String.eqb_spec k' k); congruence.
  - destruct (String.eqb_spec k k0) as [->|H0]; simpl.
    + destruct (String.eqb_spec k' k0); congruence.
    + now rewrite IH.
Qed.

Lemma getitem_ext {V} (d d' : dict V) k :
  dict_get d k = dict_get d' k -> getitem d k = getitem d' k.
Proof. unfold getitem. now intros ->. Qed.

Lemma credit_share_keys share sh victor sh' :
  credit_share share sh victor = Ok sh' -> keys sh' = keys sh.
Proof.
  unfold credit_share, getitem.
  destruct (dict_get sh victor) as [v|] eqn:E; simpl; [|discriminate].
  intros [= <-]. apply keys_setitem, dict_get_In_keys. eauto.
Qed.

Lemma credit_shares_keys share victors : forall sh sh',
  for_each (credit_share share) victors sh = Ok sh' -> keys sh' = keys sh.
Proof.
  induction victors as [|v victors IH]; simpl; intros sh sh'.
  - now intros [= ->].
  - destruct (credit_share share sh v) as [sh1|] eqn:E; simpl; [|discriminate].
    intros H. rewrite (IH _ _ H). eapply credit_share_keys; eauto.
Qed.

Lemma nonneg_setitem_Qc (d : dict Qc) k w :
  nonneg d -> (0 <= w)%Qc -> nonneg (setitem d k w).
Proof.
  unfold nonneg.
  induction d as [|[k' v'] d IH]; simpl; intros Hd Hw.
  - constructor; auto.
  - inversion Hd; subst.
    destruct (String.eqb k k'); simpl; constructor; auto.
Qed.

(** Crediting a non-negative share to players of the dict succeeds. *)
Lemma credit_shares_spec share victors : forall sh,
  (0 <= share)%Qc -> nonneg sh ->
  (forall v, In v victors -> In v (keys sh)) ->
  exists sh', for_each (credit_share share) victors sh = Ok sh'
              /\ keys sh' = keys sh /\ nonneg sh'.
Proof.
  induction victors as [|v victors IH]; simpl; intros sh Hs Hsh Hin.
  - eauto.
  - destruct (getitem_Ok sh v) as [x [Hx Hget]]; [auto|].
    unfold credit_share at 1. rewrite Hx. simpl.
    destruct (IH (setitem sh v (x + share)%Qc)) as [sh' [H1 [H2 H3]]]; auto.
    + apply nonneg_setitem_Qc; auto.
      apply Qc_plus_nonneg; auto.
      exact (dict_get_Forall (fun v => (0 <= v)%Qc) sh v x Hsh Hget).
    + intros v' Hv'. rewrite keys_setitem; auto.
    + exists sh'. rewrite keys_setitem in H2 by auto. auto.
Qed.

Lemma true_div_Ok a b : b <> 0%Qc -> true_div a b = Ok (a / b)%Qc.
Proof.
  intros Hb. unfold true_div. destruct (Qc_eq_dec b 0); [tauto|reflexivity].
Qed.

Lemma length_eqb_0 {A} (l : list A) :
  Nat.eqb (List.length l) 0 = false -> (0 < Z.of_nat (List.length l)).
Proof.
  destruct l; simpl; [discriminate|lia].
Qed.

(** Without the branch of undefeated players the scores are only read. *)
Lemma distribute_false_spec (w : dict Qc) items : forall s,
  nonneg w -> nonneg s ->
  (forall k vs, In (k, vs) items ->
                In k (keys w) /\ forall v, In v vs -> In v (keys s)) ->
  exists s', for_each (wbw_distribute false) items (w, s) = Ok (w, s')
             /\ keys s' = keys s /\ nonneg s'.
Proof.
  induction items as [|[k vs] items IH]; intros s Hw Hs Hin.
  - simpl. eauto.
  - destruct (Hin k vs (or_introl eq_refl)) as [Hk Hvs].
    cbn [for_each]. unfold wbw_distribute at 1.
    destruct (Nat.eqb (List.length vs) 0) eqn:El; cbn [negb bind].
    + apply IH; auto; intros; apply Hin; right; auto.
    + destruct (getitem_Ok w k Hk) as [x [Hx Hget]]. rewrite Hx. cbn [bind].
      apply length_eqb_0 in El.
      rewrite true_div_Ok
        by (intros H; apply Z2Qc_eq_0 in H; lia).
      cbn [bind].
      set (share := (x / Z2Qc (Z.of_nat (List.length vs)))%Qc).
      assert (Hshare : (0 <= share)%Qc).
      { apply Qc_div_nonneg; [|now apply Z2Qc_pos].
        exact (dict_get_Forall (fun v => (0 <= v)%Qc) w k x Hw Hget). }
      destruct (credit_shares_spec share vs s Hshare Hs Hvs)
        as [s1 [H1 [H2 H3]]].
      rewrite H1. cbn [bind].
      destruct (IH s1 Hw H3) as [s' [H4 [H5 H6]]].
      * intros k' vs' Hin'. destruct (Hin k' vs' (or_intror Hin')) as [? ?].
        split; auto. intros. rewrite H2. auto.
      * exists s'. rewrite H4. repeat split; auto. congruence.
Qed.

(** The branch of undefeated players changes nothing in the shares: it
    writes the score of a player whose turn is over. *)
Lemma distribute_self_increment_shares items : forall w0 w1 s,
  NoDup (keys items) ->
  (forall k, In k (keys items) -> In k (keys w0)) ->
  keys w1 = keys w0 ->
  (forall k, In k (keys items) -> dict_get w1 k = dict_get w0 k) ->
  rmap snd (for_each (wbw_distribute true) items (w1, s))
  = rmap snd (for_each (wbw_distribute false) items (w0, s)).
Proof.
  induction items as [|[k vs] items IH]; intros w0 w1 s Hnd Hin Hk Hget.
  - reflexivity.
  - inversion Hnd as [|? ? Hnotin Hnd']; subst.
    assert (Hin' : forall k', In k' (keys items) -> In k' (keys w0))
      by (intros; apply Hin; right; auto).
    assert (Hget' : forall k', In k' (keys items) ->
                               dict_get w1 k' = dict_get w0 k')
      by (intros; apply Hget; right; auto).
    assert (Hgk : getitem w1 k = getitem w0 k)
      by (apply getitem_ext, Hget; now left).
    cbn [for_each]. unfold wbw_distribute at 1 3.
    destruct (Nat.eqb (List.length vs) 0) eqn:El; cbn [negb].
    + destruct (getitem_Ok w0 k) as [x [Hx _]]; [apply Hin; now left|].
      rewrite Hgk, Hx. cbn [bind].
      assert (Hkw1 : In k (keys w1)) by (rewrite Hk; apply Hin; now left).
      apply IH; auto.
      * rewrite keys_setitem; auto.
      * intros k' Hk'. rewrite dict_get_setitem_other; auto.
        intros ->. auto.
    + rewrite Hgk. destruct (getitem w0 k) as [x|e]; cbn [bind rmap];
        [|reflexivity].
      destruct (true_div x _) as [share|e]; cbn [bind rmap]; [|reflexivity].
      destruct (for_each (credit_share share) vs s) as [s1|e];
        cbn [bind rmap]; [|reflexivity].
      apply IH; auto.
Qed.

Lemma wbw_pass_self_increment n bb t w :
  NoDup (keys bb) -> (forall k, In k (keys bb) -> In k (keys w)) ->
  wbw_pass true n bb t w = wbw_pass false n bb t w.
Proof.
  intros Hnd Hin. unfold wbw_pass.
  destruct (py_max Qc_ltb (values w)); cbn [bind]; [|reflexivity].
  destruct (py_min Qc_ltb (values w)); cbn [bind]; [|reflexivity].
  pose proof (distribute_self_increment_shares bb w w
                (dict_comp (keys bb) (fun _ => 0%Qc)) Hnd Hin eq_refl
                (fun _ _ => eq_refl)) as H.
  destruct (for_each (wbw_distribute true) bb _) as [[w1 s1]|e1];
    destruct (for_each (wbw_distribute false) bb _) as [[w0 s0]|e0];
    cbn [rmap snd] in H; inversion H; subst; reflexivity.
Qed.

Lemma dict_comp_items_keys {V W} (f : V -> result W) (d : dict V) : forall d',
  dict_comp_items d f = Ok d' -> keys d' = keys d.
Proof.
  induction d as [|[k v] d IH]; simpl; intros d'.
  - now intros [= <-].
  - destruct (f v); simpl; [|discriminate].
    destruct (dict_comp_items d f) as [r|]; simpl; [|discriminate].
    intros [= <-]. simpl. f_equal. now apply IH.
Qed.

Lemma distribute_shares_keys flag items : forall st st',
  for_each (wbw_distribute flag) items st = Ok st' ->
  keys (snd st') = keys (snd st).
Proof.
  induction items as [|[k vs] items IH]; simpl; intros st st'.
  - now intros [= ->].
  - destruct (wbw_distribute flag st (k, vs)) as [st1|] eqn:E; simpl;
      [|discriminate].
    intros H. rewrite (IH _ _ H). clear H IH.
    unfold wbw_distribute in E. destruct st as [w s].
    destruct (negb (List.length vs =? 0)%nat).
    + destruct (getitem w k); simpl in E; [|discriminate].
      destruct (true_div _ _); simpl in E; [|discriminate].
      destruct (for_each _ vs s) as [s1|] eqn:Es; simpl in E; [|discriminate].
      injection E as <-. simpl. eapply credit_shares_keys; eauto.
    + destruct flag.
      * destruct (getitem w k); simpl in E; [|discriminate].
        now injection E as <-.
      * now injection E as <-.
Qed.

Lemma wbw_pass_keys flag n bb t w w' b :
  wbw_pass flag n bb t w = Ok (w', b) -> keys w' = keys bb.
Proof.
  unfold wbw_pass.
  destruct (py_max Qc_ltb (values w)); simpl; [|discriminate].
  destruct (py_min Qc_ltb (values w)); simpl; [|discriminate].
  destruct (for_each _ bb _) as [st|] eqn:E; simpl; [|discriminate].
  destruct (dict_comp_items _ _) as [d|] eqn:Ed; simpl; [|discriminate].
  destruct (py_max Qc_ltb (values d)); simpl; [|discriminate].
  destruct (py_min Qc_ltb (values d)); simpl; [|discriminate].
  intros [= <- _].
  rewrite (dict_comp_items_keys _ _ _ Ed).
  rewrite (distribute_shares_keys _ _ _ _ E). simpl.
  apply keys_dict_comp.
Qed.

Lemma wbw_loop_self_increment n bb t fuel : forall w,
  NoDup (keys bb) -> keys w = keys bb ->
  wbw_loop true fuel n bb t w = wbw_loop false fuel n bb t w.
Proof.
  induction fuel as [|fuel IH]; simpl; intros w Hnd Hk; [reflexivity|].
  rewrite wbw_pass_self_increment by (auto; intros; rewrite Hk; auto).
  destruct (wbw_pass false n bb t w) as [[w' b]|] eqn:E; simpl; [|reflexivity].
  destruct b; [reflexivity|].
  apply IH; auto. eapply wbw_pass_keys; eauto.
Qed.

Lemma dict_comp_r_keys {V} (f : string -> result V) ks : forall d,
  dict_comp_r ks f = Ok d -> keys d = ks.
Proof.
  induction ks as [|k ks IH]; simpl; intros d.
  - now intros [= <-].
  - destruct (f k); simpl; [|discriminate].
    destruct (dict_comp_r ks f) as [r|]; simpl; [|discriminate].
    intros [= <-]. simpl. f_equal. now apply IH.
Qed.

(** C8: removing the branch taken for a player who never lost does not
    change what [calc_wbw] returns, on any input. *)
Theorem self_increment_is_a_no_op {PS : PySet} (data : list row)
        (stopping_threshold : Qc) :
  calc_wbw_without_self_increment data stopping_threshold
  = calc_wbw data stopping_threshold.
Proof.
  unfold calc_wbw_without_self_increment, calc_wbw, calc_wbw_with.
  destruct (wbw_init data) as [w|] eqn:E; cbn [bind]; [|reflexivity].
  rewrite wbw_loop_self_increment; auto.
  - unfold beaten_by_dict_of. rewrite keys_dict_comp. apply set_list_NoDup.
  - unfold wbw_init in E. apply dict_comp_r_keys in E.
    unfold beaten_by_dict_of. now rewrite keys_dict_comp.
Qed.

(** ** WinnersBeatWinners: one turn of the loop *)

Lemma lower_bound_pos n : 0 < n -> (0 < lower_bound n)%Qc.
Proof.
  intros Hn. pose proof (Z2Qc_pos n Hn) as Hp. revert Hp.
  unfold lower_bound, Qclt, Qcdiv, Qcmult, Qcinv, Q2Qc. cbn [this].
  rewrite !Qred_correct. intros Hp.
  apply Qmult_lt_0_compat; [reflexivity|].
  now apply Qinv_lt_0_compat.
Qed.

Lemma at_least_nonneg c d : at_least c d -> nonneg d.
Proof.
  unfold at_least, nonneg. apply Forall_impl.
  intros v [_ Hv]. now apply Qclt_le_weak.
Qed.

Lemma py_max_Ok {V} (ltb : V -> V -> bool) l :
  l <> [] -> exists m, py_max ltb l = Ok m.
Proof. destruct l; [tauto|simpl; eauto]. Qed.

Lemma py_min_Ok {V} (ltb : V -> V -> bool) l :
  l <> [] -> exists m, py_min ltb l = Ok m.
Proof. destruct l; [tauto|simpl; eauto]. Qed.

Lemma values_nil_keys {V} (d : dict V) : keys d <> [] -> values d <> [].
Proof. destruct d; simpl; [tauto|discriminate]. Qed.

Lemma dict_comp_items_cons {V W} k v (d : dict V) (f : V -> result W) :
  dict_comp_items ((k, v) :: d) f
  = (w <- f v ;; rest <- dict_comp_items d f ;; Ok ((k, w) :: rest)).
Proof. reflexivity. Qed.

Lemma dict_comp_r_cons {V} k ks (f : string -> result V) :
  dict_comp_r (k :: ks) f
  = (v <- f k ;; rest <- dict_comp_r ks f ;; Ok ((k, v) :: rest)).
Proof. reflexivity. Qed.

Lemma damped_scores_spec n (s : dict Qc) :
  0 < n -> nonneg s ->
  exists d,
    dict_comp_items s
      (fun v => q <- true_div q_0_15 (Z2Qc n) ;; Ok (v * q_0_85 + q)%Qc) = Ok d
    /\ keys d = keys s /\ at_least (lower_bound n) d.
Proof.
  intros Hn. induction s as [|[k v] s IH]; intros Hs.
  - exists []. repeat split. constructor.
  - inversion Hs as [|? ? Hv Hs']; subst.
    destruct (IH Hs') as [d [H1 [H2 H3]]].
    rewrite dict_comp_items_cons, H1.
    rewrite true_div_Ok by (intros H; apply Z2Qc_eq_0 in H; lia).
    cbn [bind].
    eexists. split; [reflexivity|]. split; [simpl; now f_equal|].
    constructor; auto. cbn [snd].
    assert (Hb : (lower_bound n <= v * q_0_85 + q_0_15 / Z2Qc n)%Qc)
      by (apply damped_lower_bound; exact Hv).
    split; auto.
    eapply Qclt_le_trans; [apply lower_bound_pos; eauto|exact Hb].
Qed.

Lemma wbw_pass_spec n bb t w :
  0 < n -> bb <> [] -> NoDup (keys bb) -> victors_known bb ->
  keys w = keys bb -> nonneg w ->
  exists w' b, wbw_pass true n bb t w = Ok (w', b)
               /\ keys w' = keys bb /\ at_least (lower_bound n) w'.
Proof.
  intros Hn Hbb Hnd Hv Hk Hw.
  rewrite wbw_pass_self_increment by (auto; intros; rewrite Hk; auto).
  unfold wbw_pass.
  assert (Hne : values w <> []).
  { apply values_nil_keys. rewrite Hk. destruct bb; [tauto|discriminate]. }
  destruct (py_max_Ok Qc_ltb _ Hne) as [mx ->].
  destruct (py_min_Ok Qc_ltb _ Hne) as [mn ->]. cbn [bind].
  destruct (distribute_false_spec w bb (dict_comp (keys bb) (fun _ => 0%Qc)))
    as [s [H1 [H2 H3]]]; auto.
  { unfold nonneg. rewrite values_dict_comp. apply Forall_forall.
    intros v Hin. apply in_map_iff in Hin as [? [<- _]]. apply Qcle_refl. }
  { intros k vs Hin. rewrite keys_dict_comp. split.
    - rewrite Hk. unfold keys. apply in_map_iff. exists (k, vs). auto.
    - eapply Hv; eauto. }
  rewrite H1. cbn [bind snd].
  destruct (damped_scores_spec n s Hn H3) as [d [H4 [H5 H6]]].
  rewrite H4. cbn [bind].
  assert (Hkd : keys d = keys bb)
    by (rewrite H5, H2; apply keys_dict_comp).
  assert (Hne' : values d <> []).
  { apply values_nil_keys. rewrite Hkd. destruct bb; [tauto|discriminate]. }
  destruct (py_max_Ok Qc_ltb _ Hne') as [mx' ->].
  destruct (py_min_Ok Qc_ltb _ Hne') as [mn' ->]. cbn [bind].
  eauto.
Qed.

Lemma wbw_scores_after_spec n bb i : forall w,
  0 < n -> bb <> [] -> NoDup (keys bb) -> victors_known bb ->
  keys w = keys bb -> nonneg w ->
  exists w', wbw_scores_after (S i) n bb w = Ok w'
             /\ keys w' = keys bb /\ at_least (lower_bound n) w'.
Proof.
  induction i as [|i IH]; intros w Hn Hbb Hnd Hv Hk Hw;
    destruct (wbw_pass_spec n bb default_threshold w) as [w1 [b [H1 [H2 H3]]]];
    auto.
  - simpl. rewrite H1. simpl. eauto.
  - change (wbw_scores_after (S (S i)) n bb w)
      with (bind (wbw_pass true n bb default_threshold w)
                 (fun pass => wbw_scores_after (S i) n bb (fst pass))).
    rewrite H1. cbn [bind fst].
    apply IH; auto. eapply at_least_nonneg; eauto.
Qed.

Lemma wbw_loop_spec n bb t fuel : forall w,
  0 < n -> bb <> [] -> NoDup (keys bb) -> victors_known bb ->
  keys w = keys bb -> nonneg w ->
  exists w', wbw_loop true (S fuel) n bb t w = Ok w'
             /\ keys w' = keys bb /\ at_least (lower_bound n) w'.
Proof.
  induction fuel as [|fuel IH]; intros w Hn Hbb Hnd Hv Hk Hw;
    destruct (wbw_pass_spec n bb t w) as [w1 [b [H1 [H2 H3]]]]; auto.
  - simpl. rewrite H1. simpl. destruct b; eauto.
  - change (wbw_loop true (S (S fuel)) n bb t w)
      with (bind (wbw_pass true n bb t w)
                 (fun pass => if snd pass then Ok (fst pass)
                              else wbw_loop true (S fuel) n bb t (fst pass))).
    rewrite H1. cbn [bind fst snd]. destruct b; eauto.
    apply IH; auto. eapply at_least_nonneg; eauto.
Qed.

Lemma uniform_scores_spec n ks :
  0 < n ->
  exists w, dict_comp_r ks (fun _ => true_div 1%Qc (Z2Qc n)) = Ok w
            /\ keys w = ks /\ nonneg w.
Proof.
  intros Hn. induction ks as [|k ks IH].
  - exists []. repeat split. constructor.
  - destruct IH as [w [H1 [H2 H3]]]. rewrite dict_comp_r_cons, H1.
    rewrite true_div_Ok by (intros H; apply Z2Qc_eq_0 in H; lia).
    cbn [bind].
    eexists. split; [reflexivity|]. split; [simpl; now f_equal|].
    constructor; auto. cbn [snd].
    apply Qc_div_nonneg; [|now apply Z2Qc_pos].
    unfold Qcle. simpl. unfold Qle. simpl. lia.
Qed.

Section WinnersBeatWinners.
Context {PS : PySet}.

Lemma set_list_nil : set_list [] = [].
Proof.
  destruct (set_list []) as [|x l] eqn:E; auto.
  exfalso. apply (proj1 (set_list_In [] x)). rewrite E. now left.
Qed.

Lemma players_nonempty data : data <> [] -> get_unique_players data <> [].
Proof.
  destruct data as [|x data]; [tauto|]. intros _ H.
  assert (Hx : In (Player_1 x) (get_unique_players (x :: data))).
  { unfold get_unique_players. apply set_list_In. simpl. auto. }
  rewrite H in Hx. inversion Hx.
Qed.

Lemma victors_known_data data :
  Forall winner_is_participant data -> victors_known (beaten_by_dict_of data).
Proof.
  intros Hwf k vs Hin v Hv. unfold beaten_by_dict_of in *.
  rewrite keys_dict_comp.
  unfold dict_comp in Hin. apply in_map_iff in Hin as [k' [[= -> <-] _]].
  unfold beaten_by in Hv. apply in_map_iff in Hv as [x [<- Hx]].
  apply filter_In in Hx as [Hx _].
  apply winner_in_players; auto.
  rewrite Forall_forall in Hwf. auto.
Qed.

Lemma wbw_init_spec data :
  data <> [] ->
  exists w, wbw_init data = Ok w
            /\ keys w = get_unique_players data /\ nonneg w.
Proof.
  intros Hd. apply players_nonempty in Hd. unfold wbw_init.
  apply uniform_scores_spec.
  destruct (get_unique_players data); [tauto|simpl; lia].
Qed.

End WinnersBeatWinners.

(** C9: on a non-empty set of records, with [N] distinct players, every
    completed turn of the loop of [calc_wbw] leaves every player a score of
    at least 0.15/N, hence positive; so does the list returned. *)
Theorem wbw_scores_at_least_damping_share {PS : PySet} (data : list row)
        (stopping_threshold : Qc) (i : nat) :
  data <> [] -> Forall winner_is_participant data -> (1 <= i)%nat ->
  let N := Z.of_nat (List.length (get_unique_players data)) in
  (exists d, calc_wbw_scores_after data i = Ok d
             /\ keys d = get_unique_players data
             /\ Forall (fun v => (q_0_15 / Z2Qc N <= v)%Qc /\ (0 < v)%Qc)
                       (values d))
  /\ (exists l, calc_wbw data stopping_threshold = Ok l
                /\ Forall (fun v => (q_0_15 / Z2Qc N <= v)%Qc /\ (0 < v)%Qc)
                          (values l)).
Proof.
  intros Hd Hwf Hi N.
  destruct (wbw_init_spec data Hd) as [w [Hw [Hk Hnn]]].
  assert (HN : 0 < N).
  { unfold N. pose proof (players_nonempty data Hd).
    destruct (get_unique_players data); [tauto|simpl; lia]. }
  assert (Hbb : beaten_by_dict_of data <> []).
  { unfold beaten_by_dict_of, dict_comp.
    pose proof (players_nonempty data Hd).
    destruct (get_unique_players data); [tauto|discriminate]. }
  assert (Hnd : NoDup (keys (beaten_by_dict_of data))).
  { unfold beaten_by_dict_of. rewrite keys_dict_comp. apply set_list_NoDup. }
  assert (Hkk : keys w = keys (beaten_by_dict_of data)).
  { unfold beaten_by_dict_of. now rewrite keys_dict_comp. }
  pose proof (victors_known_data data Hwf) as Hv.
  split.
  - destruct i as [|i]; [lia|].
    destruct (wbw_scores_after_spec N _ i w HN Hbb Hnd Hv Hkk Hnn)
      as [w' [H1 [H2 H3]]].
    exists w'. unfold calc_wbw_scores_after. rewrite Hw. cbn [bind].
    fold N. rewrite H1. repeat split; auto.
    rewrite H2. unfold beaten_by_dict_of. apply keys_dict_comp.
  - destruct (wbw_loop_spec N _ stopping_threshold 999 w HN Hbb Hnd Hv Hkk Hnn)
      as [w' [H1 [H2 H3]]].
    unfold calc_wbw, calc_wbw_with. rewrite Hw. cbn [bind]. fold N.
    rewrite H1. cbn [bind]. eexists. split; [reflexivity|].
    unfold at_least in H3. rewrite Forall_forall in *. intros v Hin.
    apply H3. unfold values in *.
    eapply Permutation_in; [|exact Hin].
    apply Permutation_map, sorted_desc_perm.
Qed.

Lemma wbw_scores_at_least_damping_share_witness :
  (exists d, calc_wbw_scores_after a_beats_b 2 = Ok d
             /\ keys d = get_unique_players a_beats_b
             /\ Forall (fun v => (q_0_15 / Z2Qc 2 <= v)%Qc /\ (0 < v)%Qc)
                       (values d))
  /\ (exists l, calc_wbw a_beats_b default_threshold = Ok l
                /\ Forall (fun v => (q_0_15 / Z2Qc 2 <= v)%Qc /\ (0 < v)%Qc)
                          (values l)).
Proof.
  refine (wbw_scores_at_least_damping_share a_beats_b default_threshold 2
            _ _ _).
  - discriminate.
  - repeat constructor.
  - lia.
Defined.

(** C10: on an empty list of records [calc_wbw] returns no ranking: the
    first [max] of the loop is asked for the largest of no score and raises
    [ValueError]. *)
Theorem calc_wbw_of_no_record_raises {PS : PySet} (stopping_threshold : Qc) :
  calc_wbw [] stopping_threshold = Raise ValueError.
Proof.
  unfold calc_wbw, calc_wbw_with, wbw_init, beaten_by_dict_of,
    get_unique_players.
  simpl map. simpl app. rewrite set_list_nil. reflexivity.
Qed.

(** C1 does not hold on the code: the score of a player who never lost is
    handed to nobody.  With one match, which A wins against B, the scores
    add up to 23/40 after the first turn of the loop and to 171/800 in the
    ranking returned. *)
Theorem wbw_mass_of_undefeated_player_is_lost :
  rmap (fun d => this (sumQc (values d))) (calc_wbw_scores_after a_beats_b 1)
  = Ok (23 # 40)%Q
  /\ rmap (fun d => this (sumQc (values d)))
          (calc_wbw a_beats_b default_threshold)
     = Ok (171 # 800)%Q.
Proof.
  split; vm_compute; reflexivity.
Qed.

(** ** WinnersBeatWinners: the sum of the scores *)

Lemma sumQc_zeros {A} (l : list A) : sumQc (map (fun _ => 0%Qc) l) = 0%Qc.
Proof.
  induction l as [|x l IH]; simpl; auto. rewrite IH. ring.
Qed.

Lemma sumQc_setitem (d : dict Qc) k v w :
  dict_get d k = Some v ->
  sumQc (values (setitem d k w)) = (sumQc (values d) - v + w)%Qc.
Proof.
  induction d as [|[k' v'] d IH]; simpl; [discriminate|].
  destruct (String.eqb_spec k k') as [->|Hk]; simpl.
  - intros [= ->]. ring.
  - intros H. rewrite (IH H). ring.
Qed.

Lemma Z2Qc_succ n : Z2Qc (Z.of_nat (S n)) = (Z2Qc (Z.of_nat n) + 1)%Qc.
Proof.
  unfold Z2Qc. apply Qc_is_canon.
  rewrite Nat2Z.inj_succ. unfold Qcplus, Q2Qc. cbn [this].
  rewrite !Qred_correct. unfold Z.succ. rewrite inject_Z_plus. reflexivity.
Qed.

Lemma credit_shares_sum share victors : forall sh sh',
  for_each (credit_share share) victors sh = Ok sh' ->
  sumQc (values sh')
  = (sumQc (values sh) + Z2Qc (Z.of_nat (List.length victors)) * share)%Qc.
Proof.
  induction victors as [|v victors IH]; intros sh sh'.
  - simpl. intros [= <-]. change (Z2Qc 0) with 0%Qc. ring.
  - cbn [for_each]. unfold credit_share at 1. unfold getitem.
    destruct (dict_get sh v) as [x|] eqn:E; cbn [bind]; [|discriminate].
    intros H. rewrite (IH _ _ H), (sumQc_setitem _ _ x) by auto.
    cbn [List.length]. rewrite Z2Qc_succ. ring.
Qed.

(** The shares handed out are the scores of the players who lost. *)
Lemma distribute_false_sum w items : forall s st,
  for_each (wbw_distribute false) items (w, s) = Ok st ->
  fst st = w
  /\ sumQc (values (snd st)) = (sumQc (values s) + passed_on w items)%Qc.
Proof.
  induction items as [|[k vs] items IH]; intros s st.
  - simpl. intros [= <-]. split; auto. simpl. ring.
  - cbn [for_each]. unfold wbw_distribute at 1.
    destruct (Nat.eqb (List.length vs) 0) eqn:El; cbn [negb bind].
    + intros H. destruct (IH _ _ H) as [H1 H2]. split; auto.
      rewrite H2. cbn [passed_on].
      destruct vs; [ring|discriminate].
    + unfold getitem.
      destruct (dict_get w k) as [x|] eqn:E; cbn [bind]; [|discriminate].
      apply length_eqb_0 in El.
      assert (Hn : Z2Qc (Z.of_nat (List.length vs)) <> 0%Qc)
        by (intros H; apply Z2Qc_eq_0 in H; lia).
      rewrite true_div_Ok by auto. cbn [bind].
      destruct (for_each _ vs s) as [s1|] eqn:Es; cbn [bind]; [|discriminate].
      intros H. destruct (IH _ _ H) as [H1 H2]. split; auto.
      rewrite H2, (credit_shares_sum _ _ _ _ Es). cbn [passed_on]. rewrite E.
      destruct vs as [|v0 vs]; [simpl in El; lia|].
      rewrite Qcmult_div_r by auto. ring.
Qed.

Lemma damped_scores_sum n (s : dict Qc) : forall d,
  dict_comp_items s
    (fun v => q <- true_div q_0_15 (Z2Qc n) ;; Ok (v * q_0_85 + q)%Qc) = Ok d ->
  sumQc (values d)
  = (q_0_85 * sumQc (values s)
     + Z2Qc (Z.of_nat (List.length s)) * (q_0_15 / Z2Qc n))%Qc.
Proof.
  induction s as [|[k v] s IH]; intros d.
  - simpl. intros [= <-]. simpl. change (Z2Qc 0) with 0%Qc. ring.
  - rewrite dict_comp_items_cons. unfold true_div at 1.
    destruct (Qc_eq_dec (Z2Qc n) 0); cbn [bind]; [discriminate|].
    destruct (dict_comp_items s _) as [r|] eqn:E; cbn [bind]; [|discriminate].
    intros [= <-]. cbn [values map snd sumQc fold_right].
    change (fold_right Qcplus 0%Qc (map snd r)) with (sumQc (values r)).
    change (fold_right Qcplus 0%Qc (map snd s)) with (sumQc (values s)).
    rewrite (IH _ eq_refl). cbn [List.length]. rewrite Z2Qc_succ. ring.
Qed.

(** When the players of the two dicts are the same, in the same order, the
    scores passed on are those of the players who lost a match. *)
Lemma passed_on_all w : forall bb,
  keys w = keys bb -> NoDup (keys bb) ->
  Forall (fun item => snd item <> []) bb ->
  passed_on w bb = sumQc (values w).
Proof.
  induction w as [|[k v] w IH]; intros [|[k' vs] bb] Hk Hnd Hall;
    try discriminate; [reflexivity|].
  simpl in Hk. injection Hk as <- Hk.
  inversion Hnd as [|? ? Hnotin Hnd']; subst.
  inversion Hall as [|? ? Hvs Hall']; subst. cbn [snd] in Hvs.
  cbn [passed_on dict_get]. rewrite String.eqb_refl.
  destruct vs as [|v0 vs]; [tauto|].
  simpl. f_equal. rewrite <- (IH bb Hk Hnd' Hall').
  clear IH Hall Hall' Hvs Hk Hnd Hnd'.
  induction bb as [|[k2 vs2] bb IHbb]; [reflexivity|].
  cbn [passed_on dict_get].
  destruct (String.eqb_spec k2 k) as [->|Hne].
  - exfalso. apply Hnotin. now left.
  - f_equal. apply IHbb. intros H. apply Hnotin. now right.
Qed.

(** One turn of the loop keeps 0.85 of the scores of the players who lost a
    match, and adds 0.15. *)
Lemma wbw_pass_sum n bb t w w' b :
  NoDup (keys bb) -> keys w = keys bb ->
  n = Z.of_nat (List.length bb) -> n <> 0 ->
  wbw_pass true n bb t w = Ok (w', b) ->
  sumQc (values w') = (q_0_85 * passed_on w bb + q_0_15)%Qc.
Proof.
  intros Hnd Hk Hn Hn0.
  rewrite wbw_pass_self_increment by (auto; intros; rewrite Hk; auto).
  unfold wbw_pass.
  destruct (py_max Qc_ltb (values w)); cbn [bind]; [|discriminate].
  destruct (py_min Qc_ltb (values w)); cbn [bind]; [|discriminate].
  destruct (for_each _ bb _) as [st|] eqn:E; cbn [bind]; [|discriminate].
  destruct (dict_comp_items _ _) as [d|] eqn:Ed; cbn [bind]; [|discriminate].
  destruct (py_max Qc_ltb (values d)); cbn [bind]; [|discriminate].
  destruct (py_min Qc_ltb (values d)); cbn [bind]; [|discriminate].
  intros [= <- _].
  pose proof (distribute_shares_keys _ _ _ _ E) as Hks.
  cbn [snd] in Hks. rewrite keys_dict_comp in Hks.
  apply distribute_false_sum in E as [_ Hsum].
  rewrite (damped_scores_sum _ _ _ Ed), Hsum.
  assert (Hlen : List.length (snd st) = List.length bb).
  { unfold keys in Hks. rewrite <- (length_map fst), Hks. apply length_map. }
  rewrite Hlen, <- Hn.
  assert (H0 : sumQc (values (dict_comp (keys bb) (fun _ => 0%Qc))) = 0%Qc).
  { rewrite values_dict_comp. apply sumQc_zeros. }
  rewrite H0.
  assert (Hz : Z2Qc n <> 0%Qc) by (intros H; now apply Z2Qc_eq_0 in H).
  rewrite Qcmult_div_r by auto. ring.
Qed.

(** When every player lost at least one match, a turn of the loop that
    starts from scores of sum 1 ends with scores of sum 1. *)
Lemma wbw_pass_sum_one n bb t w w' b :
  NoDup (keys bb) -> keys w = keys bb ->
  n = Z.of_nat (List.length bb) -> n <> 0 ->
  Forall (fun item => snd item <> []) bb ->
  sumQc (values w) = 1%Qc ->
  wbw_pass true n bb t w = Ok (w', b) ->
  sumQc (values w') = 1%Qc.
Proof.
  intros Hnd Hk Hn Hn0 Hall Hone Hpass.
  rewrite (wbw_pass_sum n bb t w w' b) by auto.
  rewrite passed_on_all, Hone by auto.
  apply Qc_is_canon. reflexivity.
Qed.

Lemma uniform_scores_sum n ks : forall w,
  n <> 0 ->
  dict_comp_r ks (fun _ => true_div 1%Qc (Z2Qc n)) = Ok w ->
  sumQc (values w) = (Z2Qc (Z.of_nat (List.length ks)) * (1 / Z2Qc n))%Qc.
Proof.
  intros w Hn. revert w. induction ks as [|k ks IH]; intros w.
  - simpl. intros [= <-]. simpl. change (Z2Qc 0) with 0%Qc. ring.
  - rewrite dict_comp_r_cons. unfold true_div at 1.
    destruct (Qc_eq_dec (Z2Qc n) 0); cbn [bind]; [discriminate|].
    destruct (dict_comp_r ks _) as [r|] eqn:E; cbn [bind]; [|discriminate].
    intros [= <-]. cbn [values map snd sumQc fold_right].
    change (fold_right Qcplus 0%Qc (map snd r)) with (sumQc (values r)).
    rewrite (IH _ eq_refl). cbn [List.length]. rewrite Z2Qc_succ. ring.
Qed.

Lemma wbw_scores_after_sum_one n bb i : forall w d,
  NoDup (keys bb) -> keys w = keys bb ->
  n = Z.of_nat (List.length bb) -> n <> 0 ->
  Forall (fun item => snd item <> []) bb ->
  sumQc (values w) = 1%Qc ->
  wbw_scores_after i n bb w = Ok d ->
  sumQc (values d) = 1%Qc.
Proof.
  induction i as [|i IH]; intros w d Hnd Hk Hn Hn0 Hall Hone.
  - simpl. now intros [= <-].
  - cbn [wbw_scores_after].
    destruct (wbw_pass true n bb default_threshold w) as [[w1 b]|] eqn:E;
      cbn [bind fst]; [|discriminate].
    apply IH; auto.
    + eapply wbw_pass_keys; eauto.
    + eapply wbw_pass_sum_one; eauto.
Qed.

(** The invariant of C1 holds where the slip cannot show: when every player
    lost at least one match, the scores add up to 1 after every turn of the
    loop. *)
Lemma wbw_scores_sum_to_one_when_everybody_lost {PS : PySet} data i d :
  data <> [] ->
  (forall p, In p (get_unique_players data) ->
             exists x, In x data /\ Loser x = p) ->
  calc_wbw_scores_after data i = Ok d ->
  sumQc (values d) = 1%Qc.
Proof.
  intros Hd Hlost. unfold calc_wbw_scores_after.
  destruct (wbw_init data) as [w|] eqn:Ew; cbn [bind]; [|discriminate].
  pose proof (players_nonempty data Hd) as Hne.
  set (n := Z.of_nat (List.length (get_unique_players data))) in *.
  assert (Hn0 : n <> 0)
    by (unfold n; destruct (get_unique_players data); [tauto|simpl; lia]).
  assert (Hlen : List.length (beaten_by_dict_of data)
                 = List.length (get_unique_players data))
    by (unfold beaten_by_dict_of, dict_comp; apply length_map).
  apply wbw_scores_after_sum_one; auto.
  - unfold beaten_by_dict_of. rewrite keys_dict_comp. apply set_list_NoDup.
  - unfold wbw_init in Ew. apply dict_comp_r_keys in Ew.
    unfold beaten_by_dict_of. now rewrite keys_dict_comp.
  - now rewrite Hlen.
  - apply Forall_forall. intros [k vs] Hin. cbn [snd].
    unfold beaten_by_dict_of, dict_comp in Hin.
    apply in_map_iff in Hin as [k' [[= -> <-] Hk]].
    destruct (Hlost k Hk) as [x [Hx Hl]]. unfold beaten_by. intros H.
    assert (Hw : In (Winner x)
                    (map Winner (filter (fun y => String.eqb (Loser y) k) data))).
    { apply in_map, filter_In. split; auto. now apply String.eqb_eq. }
    rewrite H in Hw. inversion Hw.
  - unfold wbw_init in Ew. fold n in Ew.
    rewrite (uniform_scores_sum n _ _ Hn0 Ew). fold n.
    assert (Hz : Z2Qc n <> 0%Qc) by (intros H; now apply Z2Qc_eq_0 in H).
    unfold Qcdiv. rewrite Qcmult_1_l. now apply Qcmult_inv_r.
Qed.

(** ** Division errors *)

Lemma never_zdiv_distribute flag st item :
  never ZeroDivisionError (wbw_distribute flag st item).
Proof.
  destruct st as [w s], item as [k vs]. unfold wbw_distribute.
  destruct (Nat.eqb (List.length vs) 0) eqn:El; cbn [negb].
  - destruct flag; [|discriminate].
    apply never_bind; [apply never_getitem|]. intros a _.
    apply never_bind; [apply never_getitem|]. discriminate.
  - apply never_bind; [apply never_getitem|]. intros x _.
    apply never_bind.
    + apply never_true_div. intros H. apply Z2Qc_eq_0 in H.
      apply length_eqb_0 in El. lia.
    + intros share _. apply never_bind; [|discriminate].
      apply never_for_each. intros sh v _. unfold credit_share.
      apply never_bind; [apply never_getitem|]. discriminate.
Qed.

Lemma never_zdiv_pass flag n bb t w :
  (bb <> [] -> n <> 0) ->
  never ZeroDivisionError (wbw_pass flag n bb t w).
Proof.
  intros Hn. unfold wbw_pass.
  apply never_bind; [apply never_py_max|]. intros mx _.
  apply never_bind; [apply never_py_min|]. intros mn _.
  apply never_bind.
  { apply never_for_each. intros. apply never_zdiv_distribute. }
  intros st Hst. apply distribute_shares_keys in Hst.
  cbn [snd] in Hst. rewrite keys_dict_comp in Hst.
  apply never_bind.
  - apply never_dict_comp_items. intros Hs v.
    apply never_bind; [|discriminate].
    apply never_true_div. intros H. apply Z2Qc_eq_0 in H. revert H.
    apply Hn. intros ->. simpl in Hst. destruct (snd st); [tauto|discriminate].
  - intros d _.
    apply never_bind; [apply never_py_max|]. intros mx' _.
    apply never_bind; [apply never_py_min|]. discriminate.
Qed.

Lemma never_zdiv_loop flag n bb t fuel : forall w,
  (bb <> [] -> n <> 0) ->
  never ZeroDivisionError (wbw_loop flag fuel n bb t w).
Proof.
  induction fuel as [|fuel IH]; intros w Hn; simpl; [discriminate|].
  apply never_bind; [now apply never_zdiv_pass|].
  intros [w' b] _. cbn [fst snd]. destruct b; [discriminate|now apply IH].
Qed.

Lemma calc_wbw_never_divides_by_zero {PS : PySet} data t :
  never ZeroDivisionError (calc_wbw data t).
Proof.
  unfold calc_wbw, calc_wbw_with.
  assert (Hn : get_unique_players data <> [] ->
               Z.of_nat (List.length (get_unique_players data)) <> 0)
    by (destruct (get_unique_players data); [tauto|simpl; lia]).
  apply never_bind.
  - unfold wbw_init. apply never_dict_comp_r. intros Hne _.
    apply never_true_div. intros H. apply Z2Qc_eq_0 in H. now apply Hn.
  - intros w _. apply never_bind; [|discriminate].
    apply never_zdiv_loop. intros Hbb. apply Hn. intros H.
    apply Hbb. unfold beaten_by_dict_of. now rewrite H.
Qed.

(** What one record does to the scores of WinnersDontLose: nothing guards
    the division by its round number. *)
Lemma wdl_update_cases d x :
  (wdl_update d x = Raise ZeroDivisionError
   /\ Round_number x = 0 /\ In (Loser x) (keys d))
  \/ (exists d', wdl_update d x = Ok d' /\ keys d' = keys d
                 /\ (Round_number x <> 0 \/ ~ In (Loser x) (keys d))).
Proof.
  unfold wdl_update.
  set (d1 := except_KeyError_pass _ d).
  assert (H1 : exists d1', d1 = Ok d1' /\ keys d1' = keys d).
  { unfold d1, getitem.
    destruct (dict_get d (Winner x)) as [v|] eqn:E; cbn; eauto.
    eexists. split; [reflexivity|].
    apply keys_setitem, dict_get_In_keys. eauto. }
  destruct H1 as [d1' [-> Hk]]. cbn [bind]. unfold getitem.
  destruct (dict_get d1' (Loser x)) as [v|] eqn:E; cbn [bind except_KeyError_pass].
  - assert (Hin : In (Loser x) (keys d))
      by (rewrite <- Hk; apply dict_get_In_keys; eauto).
    destruct (Z.eq_dec (Round_number x) 0) as [Hr|Hr].
    + left. rewrite Hr. auto.
    + right. rewrite true_div_Ok by (intros H; now apply Z2Qc_eq_0 in H).
      cbn. eexists. split; [reflexivity|]. split; auto.
      rewrite keys_setitem; auto. now rewrite Hk.
  - right. exists d1'. repeat split; auto. right.
    rewrite <- Hk. intros H. apply dict_get_In_keys in H as [v Hv]. congruence.
Qed.

Lemma wdl_loop_Ok data : forall d,
  Forall (fun x => Round_number x <> 0) data ->
  exists d', for_each wdl_update data d = Ok d'.
Proof.
  induction data as [|x data IH]; intros d Hr; simpl; eauto.
  inversion Hr as [|? ? Hx Hr']; subst.
  destruct (wdl_update_cases d x) as [[_ [H0 _]]|[d' [-> _]]]; [tauto|].
  simpl. now apply IH.
Qed.

Lemma wdl_loop_raises data : forall d,
  Exists (fun x => Round_number x = 0 /\ In (Loser x) (keys d)) data ->
  for_each wdl_update data d = Raise ZeroDivisionError.
Proof.
  induction data as [|x data IH]; intros d Hex; simpl.
  - inversion Hex.
  - destruct (wdl_update_cases d x) as [[-> _]|[d' [-> [Hk Hx]]]]; auto.
    simpl. apply IH. inversion Hex as [? ? [H0 Hin]|? ? Hex']; subst.
    + tauto.
    + now rewrite Hk.
Qed.

(** WinnersDontLose raises [ZeroDivisionError] as soon as a record whose
    loser is a player has the round number 0. *)
Lemma calc_wdl_zero_round_raises {PS : PySet} data :
  Exists (fun x => Round_number x = 0 /\ loser_is_participant x) data ->
  calc_wdl data = Raise ZeroDivisionError.
Proof.
  intros Hex. unfold calc_wdl. rewrite wdl_loop_raises; auto.
  rewrite keys_dict_comp. apply Exists_exists in Hex as [x [Hx [H0 Hl]]].
  apply Exists_exists. exists x. repeat split; auto.
  now apply loser_in_players.
Qed.

(** C6, as the code has it: [calc_wbw] never divides by the length of an
    empty beaten-by list (no input makes it raise a division error);
    [calc_wdl] has no guard, and returns when every record has a round number
    other than 0. *)
Theorem division_errors {PS : PySet} (data : list row)
        (stopping_threshold : Qc) :
  calc_wbw data stopping_threshold <> Raise ZeroDivisionError
  /\ (Forall (fun x => Round_number x <> 0) data ->
      exists ranking, calc_wdl data = Ok ranking).
Proof.
  split.
  - apply calc_wbw_never_divides_by_zero.
  - intros Hr. unfold calc_wdl.
    destruct (wdl_loop_Ok data
                (dict_comp (get_unique_players data) (fun _ => 0%Qc)) Hr)
      as [d ->].
    simpl. eauto.
Qed.

Lemma division_errors_witness :
  calc_wbw [set_round (fresh_row "T" 1 "A" "B" 1 2) (Rname "Final") 1]
           default_threshold <> Raise ZeroDivisionError
  /\ exists ranking,
       calc_wdl [set_round (fresh_row "T" 1 "A" "B" 1 2) (Rname "Final") 1]
       = Ok ranking.
Proof.
  destruct (division_errors
              [set_round (fresh_row "T" 1 "A" "B" 1 2) (Rname "Final") 1]
              default_threshold) as [H1 H2].
  split; [exact H1|].
  apply H2. repeat constructor. discriminate.
Defined.

(** C6, as stated, fails: on a record whose round number is still 0
    [calc_wdl] raises [ZeroDivisionError]. *)
Lemma calc_wdl_zero_round_number_raises :
  Round_number (fresh_row "T" 1 "A" "B" 1 2) = 0
  /\ calc_wdl [fresh_row "T" 1 "A" "B" 1 2] = Raise ZeroDivisionError.
Proof.
  split; vm_compute; reflexivity.
Qed.

(** ** Rows of one tournament inside the data *)

Lemma count_perm {A} (p : A -> bool) l l' :
  Permutation l l' -> count p l = count p l'.
Proof.
  induction 1 as [|x l l' _ IH|x y l|l l' l'' _ IH1 _ IH2]; simpl.
  - reflexivity.
  - now rewrite IH.
  - destruct (p x), (p y); reflexivity.
  - congruence.
Qed.

Lemma count_app {A} (p : A -> bool) l l' :
  count p (l ++ l') = (count p l + count p l')%nat.
Proof.
  induction l as [|x l IH]; simpl; auto. destruct (p x); simpl; auto.
Qed.

Lemma of_tourn_neq t t' x : t' <> t -> of_tourn t x = true -> of_tourn t' x = false.
Proof.
  unfold of_tourn. intros Hne H. apply String.eqb_eq in H.
  apply String.eqb_neq. congruence.
Qed.

Lemma write_back_same t data : forall new,
  List.length new = List.length (filter (of_tourn t) data) ->
  Forall (fun x => of_tourn t x = true) new ->
  filter (of_tourn t) (write_back t new data) = new.
Proof.
  induction data as [|x data IH]; intros new Hlen Hnew.
  - destruct new; [reflexivity|discriminate].
  - simpl in *. destruct (of_tourn t x) eqn:E.
    + destruct new as [|y new]; [discriminate|].
      inversion Hnew as [|? ? Hy Hnew']; subst.
      simpl. rewrite Hy. f_equal. apply IH; auto.
    + simpl. rewrite E. apply IH; auto.
Qed.

Lemma write_back_other t t' data : forall new,
  t' <> t -> Forall (fun x => of_tourn t x = true) new ->
  filter (of_tourn t') (write_back t new data) = filter (of_tourn t') data.
Proof.
  induction data as [|x data IH]; intros new Hne Hnew; [reflexivity|].
  simpl. destruct (of_tourn t x) eqn:E.
  - rewrite (of_tourn_neq t t' x Hne E).
    destruct new as [|y new]; simpl.
    + rewrite (of_tourn_neq t t' x Hne E). apply IH; auto.
    + inversion Hnew as [|? ? Hy Hnew']; subst.
      rewrite (of_tourn_neq t t' y Hne Hy). apply IH; auto.
  - simpl. destruct (of_tourn t' x); [f_equal|]; apply IH; auto.
Qed.

Lemma write_back_length t data : forall new,
  List.length (write_back t new data) = List.length data.
Proof.
  induction data as [|x data IH]; intros new; [reflexivity|].
  simpl. destruct (of_tourn t x); [destruct new|]; simpl; now rewrite IH.
Qed.

Lemma keeps_tournaments_filter F t td :
  keeps_tournaments F ->
  Forall (fun x => of_tourn t x = true) td ->
  List.length (F td) = List.length td
  /\ Forall (fun x => of_tourn t x = true) (F td).
Proof.
  intros HF Htd. specialize (HF td). split.
  - rewrite <- (length_map Tournament_Start), HF. apply length_map.
  - assert (H : Forall (fun s => String.eqb s t = true)
                       (map Tournament_Start (F td))).
    { rewrite HF. apply Forall_map. exact Htd. }
    apply Forall_map in H. exact H.
Qed.

Lemma filter_of_tourn t data :
  Forall (fun x => of_tourn t x = true) (filter (of_tourn t) data).
Proof.
  apply Forall_forall. intros x Hx. now apply filter_In in Hx.
Qed.

(** Each tournament is reconstructed from its own rows, once. *)
Lemma fold_tournaments F t ts : forall data,
  keeps_tournaments F -> NoDup ts ->
  filter (of_tourn t)
         (fold_left
            (fun data tourn =>
               write_back tourn (F (filter (of_tourn tourn) data)) data)
            ts data)
  = if inb t ts then F (filter (of_tourn t) data) else filter (of_tourn t) data.
Proof.
  induction ts as [|t0 ts IH]; intros data HF Hnd; [reflexivity|].
  inversion Hnd as [|? ? Hnotin Hnd']; subst.
  destruct (keeps_tournaments_filter F t0 _ HF (filter_of_tourn t0 data))
    as [Hlen Hkey].
  cbn [fold_left inb existsb]. rewrite IH by auto.
  destruct (String.eqb_spec t t0) as [->|Hne]; cbn [orb].
  - assert (Hno : inb t0 ts = false).
    { destruct (inb t0 ts) eqn:E; auto. exfalso. apply Hnotin.
      unfold inb in E. apply existsb_exists in E as [y [Hy E]].
      apply String.eqb_eq in E. now subst. }
    rewrite Hno. now apply write_back_same.
  - rewrite write_back_other by auto. reflexivity.
Qed.

(** ** Single elimination: one stage *)

Lemma inb_In x l : inb x l = true <-> In x l.
Proof.
  unfold inb. rewrite existsb_exists. split.
  - intros [y [Hy E]]. apply String.eqb_eq in E. now subst.
  - intros H. exists x. split; auto. apply String.eqb_refl.
Qed.

Lemma inb_ext x l l' : (In x l <-> In x l') -> inb x l = inb x l'.
Proof.
  intros H. destruct (inb x l) eqn:E, (inb x l') eqn:E'; auto.
  - apply inb_In, H, inb_In in E. congruence.
  - apply inb_In, H, inb_In in E'. congruence.
Qed.

Lemma In_set_difference x a b :
  In x (set_difference a b) <-> In x a /\ ~ In x b.
Proof.
  unfold set_difference. rewrite filter_In, negb_true_iff.
  rewrite <- (inb_In x b), not_true_iff_false. tauto.
Qed.

(** The winner of a row still to resolve is among the winners of such rows,
    hence not among the losers of the stage: the test for a third-place
    playoff never holds. *)
Lemma winner_not_current_stage_loser td x :
  In x td -> round_is_zero (Round x) = true ->
  inb (Winner x) (current_stage_losers td) = false.
Proof.
  intros Hx Hr. apply not_true_iff_false. rewrite inb_In.
  unfold current_stage_losers. rewrite In_set_difference.
  intros [_ H]. apply H, in_map. unfold unresolved. now apply filter_In.
Qed.

Lemma update_row_resolve si stage td x :
  In x td ->
  update_row si stage (round_name_of si stage) (current_stage_losers td) x
  = resolve (round_name_of si stage) (list_index stage si + 1)
            (current_stage_losers td) x.
Proof.
  intros Hx. unfold update_row, resolve.
  destruct (round_is_zero (Round x)) eqn:Hr; cbn [negb andb]; [|reflexivity].
  pose proof (winner_not_current_stage_loser td x Hx Hr) as Hw.
  destruct (inb (Loser x) (current_stage_losers td)); cbn [Winner set_round];
    rewrite Hw, andb_false_r; reflexivity.
Qed.

Lemma stage_pass_resolve si td stage :
  stage_pass si td stage
  = map (resolve (round_name_of si stage) (list_index stage si + 1)
                 (current_stage_losers td)) td.
Proof.
  unfold stage_pass. apply map_ext_in. intros x Hx.
  now apply update_row_resolve.
Qed.

Lemma resolve_tournament name n losers x :
  Tournament_Start (resolve name n losers x) = Tournament_Start x.
Proof.
  unfold resolve. now destruct (_ && _).
Qed.

Lemma fold_stages_keep si stages : forall td,
  map Tournament_Start (fold_left (stage_pass si) stages td)
  = map Tournament_Start td.
Proof.
  induction stages as [|s stages IH]; intros td; [reflexivity|].
  simpl. rewrite IH, stage_pass_resolve, map_map.
  apply map_ext. intros x. apply resolve_tournament.
Qed.

Lemma reconstruct_tourn_keeps : keeps_tournaments reconstruct_tourn.
Proof.
  intros td. unfold reconstruct_tourn. apply fold_stages_keep.
Qed.

Lemma reconstruct_brackets_tourn {PS : PySet} data t :
  In t (map Tournament_Start data) ->
  filter (of_tourn t) (reconstruct_brackets data)
  = reconstruct_tourn (filter (of_tourn t) data).
Proof.
  intros Hin. unfold reconstruct_brackets.
  rewrite fold_tournaments
    by (auto using reconstruct_tourn_keeps, set_list_NoDup).
  assert (H : inb t (set_list (map Tournament_Start data)) = true)
    by (now apply inb_In, set_list_In).
  now rewrite H.
Qed.

(** ** Single elimination: the order of the rows does not matter *)

Lemma In_unresolved_perm (f : row -> string) td td' x :
  Permutation td td' ->
  In x (map f (unresolved td)) -> In x (map f (unresolved td')).
Proof.
  intros Hp H. apply in_map_iff in H as [y [<- Hy]].
  apply in_map. unfold unresolved in *.
  apply filter_In in Hy as [Hy Hr]. apply filter_In. split; auto.
  eapply Permutation_in; eauto.
Qed.

Lemma current_stage_losers_perm td td' x :
  Permutation td td' ->
  inb x (current_stage_losers td) = inb x (current_stage_losers td').
Proof.
  intros Hp. apply inb_ext. unfold current_stage_losers.
  rewrite !In_set_difference.
  pose proof (Permutation_sym Hp) as Hp'.
  split; intros [H1 H2]; split;
    eauto using In_unresolved_perm.
Qed.

Lemma stage_pass_perm si stage td td' :
  Permutation td td' ->
  Permutation (stage_pass si td stage) (stage_pass si td' stage).
Proof.
  intros Hp. rewrite !stage_pass_resolve.
  rewrite (map_ext (resolve _ _ (current_stage_losers td))
                   (resolve (round_name_of si stage) (list_index stage si + 1)
                            (current_stage_losers td'))).
  - now apply Permutation_map.
  - intros x. unfold resolve.
    now rewrite (current_stage_losers_perm td td' _ Hp).
Qed.

Lemma fold_stages_perm si stages : forall td td',
  Permutation td td' ->
  Permutation (fold_left (stage_pass si) stages td)
              (fold_left (stage_pass si) stages td').
Proof.
  induction stages as [|s stages IH]; intros td td' Hp; simpl; auto.
  apply IH. now apply stage_pass_perm.
Qed.

Lemma reconstruct_tourn_perm td td' :
  Permutation td td' ->
  Permutation (reconstruct_tourn td) (reconstruct_tourn td').
Proof.
  intros Hp. unfold reconstruct_tourn.
  rewrite <- (Permutation_length Hp). now apply fold_stages_perm.
Qed.

(** ** Single elimination: a stage on rows listed round by round *)

Lemma unresolved_split done rest :
  Forall is_resolved done -> Forall is_unresolved rest ->
  unresolved (done ++ rest) = rest.
Proof.
  intros Hd Hr. unfold unresolved. rewrite filter_app.
  replace (filter _ done) with (@nil row).
  - simpl. apply forallb_filter_id, forallb_forall.
    rewrite Forall_forall in Hr. exact Hr.
  - symmetry. induction Hd as [|x l Hx _ IH]; simpl; auto.
    unfold is_resolved in Hx. now rewrite Hx.
Qed.

Lemma map_fixed {A} (f : A -> A) l : (forall x, In x l -> f x = x) -> map f l = l.
Proof.
  induction l as [|x l IH]; simpl; intros H; auto.
  rewrite H, IH; auto.
Qed.

(** The rows whose loser won no match still to resolve get the round of the
    stage; the other rows are left as they are. *)
Lemma stage_pass_split si stage done now later :
  Forall is_resolved done -> Forall is_unresolved (now ++ later) ->
  (forall x, In x now -> ~ In (Loser x) (map Winner (now ++ later))) ->
  (forall x, In x later -> In (Loser x) (map Winner (now ++ later))) ->
  stage_pass si (done ++ now ++ later) stage
  = done
    ++ map (fun x => set_round x (Rname (round_name_of si stage))
                               (list_index stage si + 1)) now
    ++ later.
Proof.
  intros Hd Hu Hnow Hlater.
  rewrite stage_pass_resolve. unfold current_stage_losers.
  rewrite (unresolved_split done (now ++ later) Hd Hu).
  apply Forall_app in Hu as [Hu1 Hu2].
  rewrite !map_app with (f := resolve _ _ _). f_equal; [|f_equal].
  - apply map_fixed. intros x Hx.
    rewrite Forall_forall in Hd. unfold resolve. now rewrite (Hd x Hx).
  - apply map_ext_in. intros x Hx. unfold resolve.
    rewrite Forall_forall in Hu1. rewrite (Hu1 x Hx). cbn [andb].
    replace (inb (Loser x) _) with true; [reflexivity|].
    symmetry. apply inb_In, In_set_difference. split; [|now apply Hnow].
    apply in_map, in_or_app. now left.
  - apply map_fixed. intros x Hx.
    unfold resolve.
    replace (inb (Loser x) _) with false; [now rewrite andb_false_r|].
    symmetry. apply not_true_iff_false. rewrite inb_In, In_set_difference.
    intros [_ H]. now apply H, Hlater.
Qed.

Lemma bracket_of_seven_in_order w1 l1 w2 l2 w3 l3 w4 l4 q1 q2 q3 q4 s1 s2 fin :
  NoDup [w1; l1; w2; l2; w3; l3; w4; l4] ->
  beats q1 w1 l1 -> beats q2 w2 l2 -> beats q3 w3 l3 -> beats q4 w4 l4 ->
  beats s1 w1 w2 -> beats s2 w3 w4 -> beats fin w1 w3 ->
  reconstruct_tourn [q1; q2; q3; q4; s1; s2; fin]
  = [set_round q1 (Rname "Quarter-final") 1;
     set_round q2 (Rname "Quarter-final") 1;
     set_round q3 (Rname "Quarter-final") 1;
     set_round q4 (Rname "Quarter-final") 1;
     set_round s1 (Rname "Semi-final") 2;
     set_round s2 (Rname "Semi-final") 2;
     set_round fin (Rname "Final") 3].
Proof.
  intros Hnd. split_NoDup.
  intros Q1 Q2 Q3 Q4 S1 S2 F.
  assert (Hu : forall x w l, beats x w l -> is_unresolved x)
    by (intros x w l [_ [_ H]]; unfold is_unresolved; now rewrite H).
  pose proof (Hu _ _ _ Q1) as U1. pose proof (Hu _ _ _ Q2) as U2.
  pose proof (Hu _ _ _ Q3) as U3. pose proof (Hu _ _ _ Q4) as U4.
  pose proof (Hu _ _ _ S1) as U5. pose proof (Hu _ _ _ S2) as U6.
  pose proof (Hu _ _ _ F) as U7.
  destruct Q1 as [A1 [B1 _]], Q2 as [A2 [B2 _]], Q3 as [A3 [B3 _]],
    Q4 as [A4 [B4 _]], S1 as [A5 [B5 _]], S2 as [A6 [B6 _]], F as [A7 [B7 _]].
  unfold reconstruct_tourn.
  change (range_down _) with [3; 2; 1].
  cbn [fold_left].
  change [q1; q2; q3; q4; s1; s2; fin]
    with ([] ++ [q1; q2; q3; q4] ++ [s1; s2; fin]).
  rewrite stage_pass_split; cycle 1.
  { constructor. }
  { repeat constructor; assumption. }
  { intros x Hx. each_row Hx; simpl;
      rewrite ?A1, ?A2, ?A3, ?A4, ?A5, ?A6, ?A7, ?B1, ?B2, ?B3, ?B4;
      intuition congruence. }
  { intros x Hx. each_row Hx; simpl;
      rewrite ?A1, ?A2, ?A3, ?A4, ?A5, ?A6, ?A7, ?B5, ?B6, ?B7;
      auto 10. }
  cbn [map app].
  match goal with
  | |- context [stage_pass _ [?a; ?b; ?c; ?d; s1; s2; fin] 2] =>
      change [a; b; c; d; s1; s2; fin] with ([a; b; c; d] ++ [s1; s2] ++ [fin])
  end.
  rewrite stage_pass_split; cycle 1.
  { repeat constructor. }
  { repeat constructor; assumption. }
  { intros x Hx. each_row Hx; simpl;
      rewrite ?A5, ?A6, ?A7, ?B5, ?B6; intuition congruence. }
  { intros x Hx. each_row Hx; simpl;
      rewrite ?A5, ?A6, ?A7, ?B7; auto 10. }
  cbn [map app].
  match goal with
  | |- context [stage_pass _ [?a; ?b; ?c; ?d; ?e; ?f; fin] 1] =>
      change [a; b; c; d; e; f; fin]
        with ([a; b; c; d; e; f] ++ [fin] ++ [])
  end.
  rewrite stage_pass_split; cycle 1.
  { repeat constructor. }
  { repeat constructor; assumption. }
  { intros x Hx. each_row Hx; simpl;
      rewrite ?A7, ?B7; intuition congruence. }
  { intros x Hx. inversion Hx. }
  reflexivity.
Qed.

(** C3: of the seven records of a single-elimination bracket,
    [reconstruct_brackets] gives the round number 1 to exactly four, the
    name "Semi-final" to exactly two and the name "Final" to exactly one. *)
Theorem seven_match_bracket {PS : PySet} (data : list row) (tourn : string) :
  bracket_of_seven (filter (of_tourn tourn) data) ->
  let rows := filter (of_tourn tourn) (reconstruct_brackets data) in
  count (has_round_number 1) rows = 4%nat
  /\ count (has_round "Semi-final") rows = 2%nat
  /\ count (has_round "Final") rows = 1%nat.
Proof.
  intros (w1 & l1 & w2 & l2 & w3 & l3 & w4 & l4 & q1 & q2 & q3 & q4 & s1 & s2
          & fin & Hnd & Hp & Q1 & Q2 & Q3 & Q4 & S1 & S2 & F) rows.
  assert (Hin : In tourn (map Tournament_Start data)).
  { assert (Hq : In q1 (filter (of_tourn tourn) data)).
    { eapply Permutation_in; [apply Permutation_sym; exact Hp|]. now left. }
    apply filter_In in Hq as [Hq Hk]. apply String.eqb_eq in Hk.
    rewrite <- Hk. now apply in_map. }
  unfold rows. rewrite (reconstruct_brackets_tourn data tourn Hin).
  rewrite !(count_perm _ _ _ (reconstruct_tourn_perm _ _ Hp)).
  rewrite (bracket_of_seven_in_order w1 l1 w2 l2 w3 l3 w4 l4); auto.
Qed.

Lemma seven_match_bracket_witness :
  count (has_round_number 1)
        (filter (of_tourn "Cup 2020-02-03") (reconstruct_brackets eight_players))
  = 4%nat
  /\ count (has_round "Semi-final")
           (filter (of_tourn "Cup 2020-02-03")
                   (reconstruct_brackets eight_players)) = 2%nat
  /\ count (has_round "Final")
           (filter (of_tourn "Cup 2020-02-03")
                   (reconstruct_brackets eight_players)) = 1%nat.
Proof.
  apply (seven_match_bracket eight_players "Cup 2020-02-03").
  exists "A", "B", "C", "D", "E", "F", "G", "H".
  exists (fresh_row "Cup 2020-02-03" 34 "A" "B" 1 2),
         (fresh_row "Cup 2020-02-03" 34 "C" "D" 3 4),
         (fresh_row "Cup 2020-02-03" 34 "E" "F" 5 6),
         (fresh_row "Cup 2020-02-03" 34 "G" "H" 7 8),
         (fresh_row "Cup 2020-02-03" 34 "A" "C" 1 3),
         (fresh_row "Cup 2020-02-03" 34 "E" "G" 5 7),
         (fresh_row "Cup 2020-02-03" 34 "A" "E" 1 5).
  split; [|split].
  - repeat constructor; simpl; intuition discriminate.
  - apply (Permutation_cons_append
             [fresh_row "Cup 2020-02-03" 34 "A" "B" 1 2;
              fresh_row "Cup 2020-02-03" 34 "C" "D" 3 4;
              fresh_row "Cup 2020-02-03" 34 "E" "F" 5 6;
              fresh_row "Cup 2020-02-03" 34 "G" "H" 7 8;
              fresh_row "Cup 2020-02-03" 34 "A" "C" 1 3;
              fresh_row "Cup 2020-02-03" 34 "E" "G" 5 7]
             (fresh_row "Cup 2020-02-03" 34 "A" "E" 1 5)).
  - unfold beats. repeat split.
Defined.

(** ** The third-place playoff *)

(** C4 does not hold on the code: the playoff, which B wins against D, gets
    the name "Semi-final" and the round number 1 of the semifinals; the
    semifinal that B lost gets the name and the number of the final. *)
Theorem third_place_playoff_is_named_semi_final :
  map (fun x => (Winner x, Loser x, Round x, Round_number x))
      (reconstruct_brackets with_playoff)
  = [("A", "B", Rname "Final", 2);
     ("C", "D", Rname "Semi-final", 1);
     ("A", "C", Rname "Final", 2);
     ("B", "D", Rname "Semi-final", 1)].
Proof.
  vm_compute. reflexivity.
Qed.

Lemma tournament_dict_stage stage name :
  tournament_dict (KInt stage) = Some name ->
  name = "Final" \/ name = "Semi-final" \/ name = "Quarter-final".
Proof.
  destruct stage as [|[[p|p|]|[p|p|]|]|p]; simpl; intros [= <-]; auto.
Qed.

Lemma round_name_not_third_place si stage :
  String.eqb (round_name_of si stage) third_place = false.
Proof.
  unfold round_name_of.
  destruct (tournament_dict (KInt stage)) as [name|] eqn:E.
  - apply tournament_dict_stage in E as [ -> | [ -> | -> ] ]; reflexivity.
  - reflexivity.
Qed.

Lemma write_back_Forall (P : row -> Prop) t data : forall new,
  Forall P new -> Forall P data -> Forall P (write_back t new data).
Proof.
  induction data as [|x data IH]; intros new Hn Hd; [constructor|].
  inversion Hd as [|? ? Hx Hd']; subst. simpl.
  destruct (of_tourn t x).
  - destruct new as [|y new].
    + constructor; auto.
    + inversion Hn; subst. constructor; auto.
  - constructor; auto.
Qed.

Lemma reconstruct_tourn_no_third_place td :
  Forall (fun x => has_round third_place x = false) td ->
  Forall (fun x => has_round third_place x = false) (reconstruct_tourn td).
Proof.
  unfold reconstruct_tourn.
  generalize (range_down (round_log2 (Z.of_nat (List.length td) + 1))) at 1.
  generalize (range_down (round_log2 (Z.of_nat (List.length td) + 1))).
  intros stages si. revert td.
  induction stages as [|s stages IH]; intros td Htd; simpl; auto.
  apply IH. rewrite stage_pass_resolve. apply Forall_map.
  revert Htd. apply Forall_impl. intros x Hx. unfold resolve.
  destruct (_ && _); auto.
  unfold has_round. simpl. apply round_name_not_third_place.
Qed.

(** The branch that names a third-place playoff is never taken: no row
    gets this name from [reconstruct_brackets]. *)
Lemma third_place_playoff_is_never_named {PS : PySet} data :
  Forall (fun x => has_round third_place x = false) data ->
  Forall (fun x => has_round third_place x = false) (reconstruct_brackets data).
Proof.
  unfold reconstruct_brackets.
  generalize (set_list (map Tournament_Start data)). intros ts. revert data.
  induction ts as [|t ts IH]; intros data Hd; simpl; auto.
  apply IH, write_back_Forall; auto.
  apply reconstruct_tourn_no_third_place.
  apply Forall_forall. intros x Hx. apply filter_In in Hx as [Hx _].
  rewrite Forall_forall in Hd. auto.
Qed.

(** ** Round robin: the loop that names the rounds *)

Lemma update_at_length {A} (f : A -> A) l : forall i,
  List.length (update_at i f l) = List.length l.
Proof.
  induction l as [|x l IH]; intros [|i]; simpl; auto.
Qed.

Lemma update_at_Forall {A} (P : A -> Prop) (f : A -> A) l : forall i,
  (forall x, P (f x)) -> Forall P l -> Forall P (update_at i f l).
Proof.
  induction l as [|x l IH]; intros [|i] Hf Hl; simpl; auto;
    inversion Hl; subst; constructor; auto.
Qed.

Lemma update_at_map {A B} (g : A -> B) (f : A -> A) l : forall i,
  (forall x, g (f x) = g x) -> map g (update_at i f l) = map g l.
Proof.
  induction l as [|x l IH]; intros [|i] Hf; simpl; auto; f_equal; auto.
Qed.

(** Renaming a row "Group Stage" takes it out of the rows named "Final". *)
Lemma count_update_at (p : row -> bool) (f : row -> row) l : forall i,
  (forall x, p (f x) = false) ->
  (count p (update_at i f l)
   + (if existsb p (firstn 1 (skipn i l)) then 1 else 0))%nat
  = count p l.
Proof.
  induction l as [|x l IH]; intros [|i] Hf; simpl; auto.
  - rewrite Hf, orb_false_r. destruct (p x); lia.
  - specialize (IH i Hf). destruct (p x); simpl in *; lia.
Qed.

Lemma holds_at_app p i l x :
  (i < List.length l)%nat -> holds_at p i (l ++ [x]) = holds_at p i l.
Proof.
  unfold holds_at. revert i. induction l as [|y l IH]; intros [|i] Hi;
    simpl in *; try lia; auto.
  apply IH. lia.
Qed.

Lemma holds_at_last p l x : holds_at p (List.length l) (l ++ [x]) = p x.
Proof.
  unfold holds_at. induction l as [|y l IH]; simpl; auto.
  now rewrite orb_false_r.
Qed.

Lemma holds_at_update p f l : forall i j,
  (forall x, p (f x) = false) ->
  holds_at p j (update_at i f l)
  = if Nat.eqb i j then false else holds_at p j l.
Proof.
  unfold holds_at.
  induction l as [|x l IH]; intros i j Hf.
  - destruct i, j; simpl; auto; destruct (Nat.eqb _ _); reflexivity.
  - destruct i, j; simpl; auto.
    + now rewrite Hf.
    + now apply IH.
Qed.

Lemma is_final_regroup y : is_final (regroup y) = false.
Proof. reflexivity. Qed.

Lemma named_round_regroup y : named_round (regroup y).
Proof. left. split; reflexivity. Qed.

Lemma reupdate_length earlier rows :
  List.length (reupdate earlier rows) = List.length rows.
Proof.
  destruct earlier; simpl; auto. apply update_at_length.
Qed.

Lemma reupdate_tournaments earlier rows :
  map Tournament_Start (reupdate earlier rows) = map Tournament_Start rows.
Proof.
  destruct earlier; simpl; auto. now apply update_at_map.
Qed.

Lemma reupdate_named earlier rows :
  Forall named_round rows -> Forall named_round (reupdate earlier rows).
Proof.
  destruct earlier; simpl; auto. apply update_at_Forall.
  apply named_round_regroup.
Qed.

(** Renaming a row that is not named "Final" changes nothing to the rows
    that are. *)
Lemma reupdate_not_final j rows :
  holds_at is_final j rows = false ->
  count is_final (reupdate (Some j) rows) = count is_final rows
  /\ forall i, holds_at is_final i (reupdate (Some j) rows)
               = holds_at is_final i rows.
Proof.
  intros Hj. simpl. split.
  - pose proof (count_update_at is_final regroup rows j is_final_regroup) as H.
    fold (holds_at is_final j rows) in H. rewrite Hj in H.
    change (fun y => set_round y group_stage 1) with regroup. lia.
  - intros i. change (fun y => set_round y group_stage 1) with regroup.
    rewrite (holds_at_update is_final regroup rows j i is_final_regroup).
    destruct (Nat.eqb_spec j i) as [->|]; auto.
Qed.

Section RoundRobinLoop.
Variables group_stage_losers finalists : list string.

Local Abbreviation inv := (rr_inv group_stage_losers finalists).
Local Abbreviation final_branch :=
  (in_final_branch group_stage_losers finalists).

(** A row that is not named "Final" joins the rows visited. *)
Lemma rr_inv_append visited rows fc sc fref sref sref' x y :
  inv visited (mkRR rows fc sc fref sref) ->
  final_branch x = false ->
  Tournament_Start y = Tournament_Start x ->
  named_round y -> is_final y = false ->
  (forall j, sref' = Some j -> sref = Some j \/ j = List.length rows) ->
  inv (visited ++ [x]) (mkRR (rows ++ [y]) fc sc fref sref').
Proof.
  unfold rr_inv. cbn [rr_rows final_counter semi_final_counter
                           final_lineup_repeated semi_final_lineup_repeated].
  intros (Ht & Hn & Hc & H0 & H1 & Hs) Hx Hy Hny Hfy Hsref.
  rewrite !count_app, !map_app, !length_app. cbn [count map List.length].
  rewrite Hx, Hfy, !Nat.add_0_r.
  repeat split; auto.
  - now rewrite Ht, Hy.
  - apply Forall_app. split; auto.
  - now apply H1.
  - destruct (H1 H) as [_ (i & Hi & Hlt & Hh)].
    exists i. repeat split; auto; [lia|]. now rewrite holds_at_app.
  - destruct (Hsref j H) as [Hj| ->]; [destruct (Hs j Hj); lia|lia].
  - destruct (Hsref j H) as [Hj| ->].
    + destruct (Hs j Hj). now rewrite holds_at_app.
    + now rewrite holds_at_last.
Qed.

(** The earlier semifinal is renamed "Group Stage". *)
Lemma rr_inv_reupdate_semi visited rows fc sc fref sref :
  inv visited (mkRR rows fc sc fref sref) ->
  inv visited (mkRR (reupdate sref rows) fc sc fref sref).
Proof.
  destruct sref as [j|]; [|auto].
  unfold rr_inv. cbn [rr_rows final_counter semi_final_counter
                           final_lineup_repeated semi_final_lineup_repeated].
  intros (Ht & Hn & Hc & H0 & H1 & Hs).
  destruct (Hs j eq_refl) as [Hj Hh].
  destruct (reupdate_not_final j rows Hh) as [Hcount Hhold].
  rewrite reupdate_tournaments, reupdate_length, Hcount.
  repeat split; auto using reupdate_named.
  - now apply H1.
  - destruct (H1 H) as [_ (i & Hi & Hlt & Hi')].
    exists i. repeat split; auto. now rewrite Hhold.
  - destruct (Hs j0 H); auto.
  - rewrite Hhold. destruct (Hs j0 H); auto.
Qed.

(** The first row of the two finalists. *)
Lemma rr_inv_first_final visited rows sc fref sref x :
  inv visited (mkRR rows 1 sc fref sref) ->
  final_branch x = true ->
  inv (visited ++ [x])
      (mkRR (rows ++ [set_round x (Rname final_name) 3]) (1 - 1) sc
            (Some (List.length rows)) sref).
Proof.
  unfold rr_inv. cbn [rr_rows final_counter semi_final_counter
                           final_lineup_repeated semi_final_lineup_repeated].
  intros (Ht & Hn & Hc & H0 & H1 & Hs) Hx.
  assert (Hz : count final_branch visited = O).
  { destruct (count final_branch visited) eqn:E; auto.
    destruct H1 as [H1 _]; [discriminate|discriminate]. }
  rewrite !count_app, !map_app, !length_app. cbn [count map List.length].
  rewrite Hx, Hz in *.
  change (is_final (set_round x (Rname final_name) 3)) with true.
  rewrite Hc. cbn [finals_left Nat.add].
  repeat split; auto.
  - now rewrite Ht.
  - apply Forall_app. split; auto. constructor; [|constructor].
    right. right. split; reflexivity.
  - discriminate.
  - exists (List.length rows). repeat split; [lia|]. apply holds_at_last.
  - destruct (Hs j H). lia.
  - destruct (Hs j H). now rewrite holds_at_app.
Qed.

(** A later row of the two finalists: the first one is renamed. *)
Lemma rr_inv_later_final visited rows fc sc fref sref x :
  inv visited (mkRR rows fc sc fref sref) ->
  fc <> 1 ->
  final_branch x = true ->
  inv (visited ++ [x])
      (mkRR (reupdate fref rows ++ [set_round x (Rname final_name) 3]) fc sc
            fref sref).
Proof.
  unfold rr_inv. cbn [rr_rows final_counter semi_final_counter
                           final_lineup_repeated semi_final_lineup_repeated].
  intros (Ht & Hn & Hc & H0 & H1 & Hs) Hfc Hx.
  destruct (count final_branch visited) as [|n] eqn:E; [now elim Hfc; apply H0|].
  destruct H1 as [Hfc0 (i & Hi & Hlt & Hh)]; [discriminate|]. subst fref.
  rewrite !count_app, !map_app, !length_app, reupdate_length,
    reupdate_tournaments.
  cbn [count map List.length]. rewrite Hx, E.
  replace (S n + 1)%nat with (S (S n)) by lia.
  change (is_final (set_round x (Rname final_name) 3)) with true.
  pose proof (count_update_at is_final regroup rows i is_final_regroup) as Hcnt.
  fold (holds_at is_final i rows) in Hcnt. rewrite Hh, Hc in Hcnt.
  change (reupdate (Some i) rows) with (update_at i regroup rows).
  repeat split; auto.
  - now rewrite Ht.
  - apply Forall_app. split.
    + apply update_at_Forall; auto using named_round_regroup.
    + constructor; [|constructor]. right. right. split; reflexivity.
  - destruct n as [|n]; simpl in *; lia.
  - lia.
  - exists i. repeat split; auto; [lia|].
    rewrite holds_at_app by (now rewrite update_at_length).
    rewrite (holds_at_update is_final regroup rows i i is_final_regroup).
    now rewrite Nat.eqb_refl.
  - destruct (Hs j H). lia.
  - destruct (Hs j H) as [Hj Hh'].
    rewrite holds_at_app by (now rewrite update_at_length).
    rewrite (holds_at_update is_final regroup rows i j is_final_regroup).
    now destruct (Nat.eqb i j).
Qed.

Lemma classify_row_inv visited st x :
  inv visited st ->
  inv (visited ++ [x]) (classify_row group_stage_losers finalists st x).
Proof.
  intros Hinv. destruct st as [rows fc sc fref sref].
  unfold classify_row.
  cbn [rr_rows final_counter semi_final_counter
       final_lineup_repeated semi_final_lineup_repeated].
  assert (Hgroup : forall b,
             final_branch x = false ->
             (forall j, b = Some j -> sref = Some j \/ j = List.length rows) ->
             inv (visited ++ [x])
                 (mkRR (rows ++ [set_round x group_stage 1]) fc sc fref b)).
  { intros b Hb Hj. eapply rr_inv_append; eauto.
    - left. split; reflexivity. }
  assert (Hsemi : forall rows' sc' b,
             inv visited (mkRR rows' fc sc fref sref) ->
             List.length rows' = List.length rows ->
             final_branch x = false ->
             (forall j, b = Some j -> sref = Some j \/ j = List.length rows) ->
             inv (visited ++ [x])
                 (mkRR (rows' ++ [set_round x (Rname (tournament_dict_at (KInt 2))) 2])
                       fc sc' fref b)).
  { intros rows' sc' b Hi Hl Hb Hj.
    assert (Hi' : inv visited (mkRR rows' fc sc' fref sref)) by exact Hi.
    eapply rr_inv_append; eauto.
    - right. left. split; reflexivity.
    - now rewrite Hl. }
  unfold in_final_branch in *.
  destruct (inb (Player_1 x) group_stage_losers
            || inb (Player_2 x) group_stage_losers) eqn:Eg; cbn [negb andb] in *.
  { apply Hgroup; auto. }
  destruct (inb (Player_1 x) finalists && inb (Player_2 x) finalists) eqn:Ef.
  { destruct (Z.eqb_spec fc 1) as [->|Hfc].
    - apply (rr_inv_first_final visited rows sc fref sref x); auto.
      unfold in_final_branch. now rewrite Eg, Ef.
    - apply rr_inv_later_final; auto.
      unfold in_final_branch. now rewrite Eg, Ef. }
  destruct ((inb (Player_1 x) finalists || inb (Player_2 x) finalists)
            && round_is_zero (Round x)).
  - destruct (sc =? 2); [|destruct (sc =? 1)].
    + apply Hsemi; auto. intros j [= <-]. auto.
    + apply Hsemi; auto.
    + apply Hsemi; auto.
      * now apply rr_inv_reupdate_semi.
      * apply reupdate_length.
  - apply Hgroup; auto.
Qed.

Lemma classify_rows_inv rest : forall visited st,
  inv visited st ->
  inv (visited ++ rest)
      (fold_left (classify_row group_stage_losers finalists) rest st).
Proof.
  induction rest as [|x rest IH]; intros visited st Hinv; simpl.
  - now rewrite app_nil_r.
  - replace (visited ++ x :: rest) with ((visited ++ [x]) ++ rest)
      by (now rewrite <- app_assoc).
    apply IH. now apply classify_row_inv.
Qed.

End RoundRobinLoop.

(** ** Round robin: matches played, finalists and players of the groups *)

Lemma dict_get_setitem_same {V} (d : dict V) k v :
  dict_get (setitem d k v) k = Some v.
Proof.
  induction d as [|[k' v'] d IH]; simpl.
  - now rewrite String.eqb_refl.
  - destruct (String.eqb_spec k k') as [->|Hk]; simpl.
    + now rewrite String.eqb_refl.
    + destruct (String.eqb_spec k k'); [tauto|auto].
Qed.

Lemma dict_get_dict_comp {V} ks (f : string -> V) p :
  dict_get (dict_comp ks f) p = if inb p ks then Some (f p) else None.
Proof.
  induction ks as [|k ks IH]; simpl; auto.
  destruct (String.eqb_spec p k) as [->|Hk]; simpl; auto.
Qed.

Lemma In_dict_get {V} (d : dict V) k v :
  NoDup (keys d) -> In (k, v) d -> dict_get d k = Some v.
Proof.
  induction d as [|[k' v'] d IH]; simpl; intros Hnd Hin; [tauto|].
  inversion Hnd as [|? ? Hnotin Hnd']; subst.
  destruct Hin as [[= -> ->]|Hin].
  - now rewrite String.eqb_refl.
  - destruct (String.eqb_spec k k') as [->|Hk]; auto.
    exfalso. apply Hnotin. unfold keys. apply in_map_iff. now exists (k', v).
Qed.

Lemma dict_get_In {V} (d : dict V) k v : dict_get d k = Some v -> In (k, v) d.
Proof.
  induction d as [|[k' v'] d IH]; simpl; [discriminate|].
  destruct (String.eqb_spec k k') as [->|Hk]; auto.
  intros [= ->]. now left.
Qed.

Lemma count_match_get mc k p :
  dict_get (count_match mc k) p = option_map (bump k p) (dict_get mc p).
Proof.
  unfold count_match, bump.
  destruct (dict_get mc k) as [v|] eqn:E.
  - destruct (String.eqb_spec k p) as [->|Hk].
    + now rewrite dict_get_setitem_same, E.
    + rewrite dict_get_setitem_other by auto.
      now destruct (dict_get mc p).
  - destruct (String.eqb_spec k p) as [->|Hk].
    + now rewrite E.
    + now destruct (dict_get mc p).
Qed.

Lemma count_match_keys mc k : keys (count_match mc k) = keys mc.
Proof.
  unfold count_match. destruct (dict_get mc k) as [v|] eqn:E; auto.
  apply keys_setitem, dict_get_In_keys. eauto.
Qed.

Lemma count_matches_spec td p : forall mc,
  let mc' :=
    fold_left
      (fun mc x => count_match (count_match mc (Player_1 x)) (Player_2 x))
      td mc in
  keys mc' = keys mc
  /\ dict_get mc' p
     = option_map (fun v => v + matches_played td p) (dict_get mc p).
Proof.
  induction td as [|x td IH]; intros mc; simpl.
  - split; auto. unfold matches_played. simpl.
    destruct (dict_get mc p); simpl; auto. f_equal. lia.
  - destruct (IH (count_match (count_match mc (Player_1 x)) (Player_2 x)))
      as [Hk Hg].
    split.
    + now rewrite Hk, !count_match_keys.
    + rewrite Hg, !count_match_get. unfold matches_played, bump. simpl.
      destruct (dict_get mc p); simpl; auto. f_equal.
      destruct (String.eqb (Player_1 x) p), (String.eqb (Player_2 x) p); lia.
Qed.

Section MatchCounter.
Context {PS : PySet}.

Lemma match_counter_keys td :
  keys (match_counter_of td) = set_list (players_of td).
Proof.
  unfold match_counter_of.
  destruct (count_matches_spec td ""
              (dict_comp (set_list (players_of td)) (fun _ => 0))) as [Hk _].
  unfold players_of in *. rewrite Hk. apply keys_dict_comp.
Qed.

Lemma match_counter_get td p :
  In p (players_of td) ->
  dict_get (match_counter_of td) p = Some (matches_played td p).
Proof.
  intros Hp. unfold match_counter_of.
  destruct (count_matches_spec td p
              (dict_comp (set_list (players_of td)) (fun _ => 0))) as [_ Hg].
  unfold players_of in *. rewrite Hg, dict_get_dict_comp.
  assert (H : inb p (set_list (map Player_1 td ++ map Player_2 td)) = true)
    by (now apply inb_In, set_list_In).
  now rewrite H.
Qed.

(** The dict of [match_counter] holds, for each player, the matches played. *)
Lemma match_counter_items td k v :
  In (k, v) (match_counter_of td) <->
  In k (players_of td) /\ v = matches_played td k.
Proof.
  assert (Hnd : NoDup (keys (match_counter_of td)))
    by (rewrite match_counter_keys; apply set_list_NoDup).
  split.
  - intros Hin.
    assert (Hk : In k (players_of td)).
    { apply set_list_In. rewrite <- match_counter_keys.
      unfold keys. apply in_map_iff. now exists (k, v). }
    split; auto. apply In_dict_get in Hin; auto.
    rewrite match_counter_get in Hin by auto. congruence.
  - intros [Hk ->]. apply dict_get_In. now apply match_counter_get.
Qed.

End MatchCounter.

Lemma py_max_Z_spec l m :
  py_max Z.ltb l = Ok m -> In m l /\ forall v, In v l -> v <= m.
Proof.
  destruct l as [|x l]; simpl; [discriminate|]. intros [= <-].
  revert x. induction l as [|y l IH]; intros x; simpl.
  - split; auto. intros v [<-|[]]. lia.
  - destruct (IH (if x <? y then y else x)) as [Hin Hle].
    split.
    + destruct Hin as [Hin|Hin]; auto.
      rewrite <- Hin. destruct (x <? y); auto.
    + intros v [<-|[<-|Hv]].
      * specialize (Hle _ (or_introl eq_refl)).
        destruct (Z.ltb_spec x y); lia.
      * specialize (Hle _ (or_introl eq_refl)).
        destruct (Z.ltb_spec x y); lia.
      * apply Hle. now right.
Qed.

Lemma py_min_Z_spec l m :
  py_min Z.ltb l = Ok m -> In m l /\ forall v, In v l -> m <= v.
Proof.
  destruct l as [|x l]; simpl; [discriminate|]. intros [= <-].
  revert x. induction l as [|y l IH]; intros x; simpl.
  - split; auto. intros v [<-|[]]. lia.
  - destruct (IH (if y <? x then y else x)) as [Hin Hle].
    split.
    + destruct Hin as [Hin|Hin]; auto.
      rewrite <- Hin. destruct (y <? x); auto.
    + intros v [<-|[<-|Hv]].
      * specialize (Hle _ (or_introl eq_refl)).
        destruct (Z.ltb_spec y x); lia.
      * specialize (Hle _ (or_introl eq_refl)).
        destruct (Z.ltb_spec y x); lia.
      * apply Hle. now right.
Qed.

Lemma count_ext_in {A} (p q : A -> bool) l :
  (forall x, In x l -> p x = q x) -> count p l = count q l.
Proof.
  induction l as [|x l IH]; intros H; simpl; auto.
  rewrite (H x (or_introl eq_refl)), IH; auto.
  intros y Hy. apply H. now right.
Qed.

Lemma matches_played_players td p :
  0 < matches_played td p -> In p (players_of td).
Proof.
  unfold matches_played, players_of. intros H. apply in_or_app.
  induction td as [|x td IH]; simpl in *; [lia|].
  destruct (String.eqb_spec (Player_1 x) p); [now left; left|].
  destruct (String.eqb_spec (Player_2 x) p); [now right; left|].
  destruct (IH H); [left|right]; now right.
Qed.

(** ** Round robin: one tournament *)

Lemma In_keys_filter {V} (q : string * V -> bool) (d : dict V) p :
  In p (keys (filter q d)) <-> exists v, In (p, v) d /\ q (p, v) = true.
Proof.
  unfold keys. rewrite in_map_iff. split.
  - intros [[k v] [<- Hin]]. apply filter_In in Hin. simpl. eauto.
  - intros [v Hv]. exists (p, v). split; auto. now apply filter_In.
Qed.

Lemma In_values {V} (d : dict V) k v : In (k, v) d -> In v (values d).
Proof.
  intros H. unfold values. apply in_map_iff. now exists (k, v).
Qed.

Lemma values_In {V} (d : dict V) v : In v (values d) -> exists k, In (k, v) d.
Proof.
  unfold values. intros H. apply in_map_iff in H as [[k v'] [<- H]]. eauto.
Qed.

Lemma rr_inv_start gsl fin : rr_inv gsl fin [] (mkRR [] 1 2 None None).
Proof.
  unfold rr_inv. simpl. repeat split; auto; try discriminate; tauto.
Qed.

Lemma finals_left_one n : (1 <= n <= 2)%nat -> finals_left n = 1%nat.
Proof.
  intros H. destruct n as [|[|[|n]]]; simpl; lia.
Qed.

Lemma reconstruct_tourn_rr_spec {PS : PySet} td :
  round_robin_instance td ->
  exists rows, reconstruct_tourn_rr td = Ok rows
               /\ map Tournament_Start rows = map Tournament_Start td
               /\ Forall named_round rows
               /\ count is_final rows = 1%nat.
Proof.
  intros (f1 & f2 & p0 & Hne & [Hp0 Hp0'] & Hf2 & Hothers & Hmeet).
  set (M := matches_played td f1) in *.
  assert (Hin0 : In p0 (players_of td))
    by (apply matches_played_players; lia).
  assert (Hin1 : In f1 (players_of td))
    by (apply matches_played_players; fold M; lia).
  assert (Hin2 : In f2 (players_of td))
    by (apply matches_played_players; lia).
  assert (Hle : forall p, In p (players_of td) -> matches_played td p <= M).
  { intros p Hp. destruct (String.eqb_spec p f1) as [->|H1]; [unfold M; lia|].
    destruct (String.eqb_spec p f2) as [->|H2]; [lia|].
    specialize (Hothers p Hp H1 H2). lia. }
  unfold reconstruct_tourn_rr.
  set (mc := match_counter_of td).
  assert (Hitems : forall k v, In (k, v) mc <->
                               In k (players_of td) /\ v = matches_played td k)
    by (intros; apply match_counter_items).
  (* the smallest number of matches above two *)
  destruct (py_min_Ok Z.ltb (filter (fun v => v >? 2) (values mc)))
    as [mn Hmn].
  { intros H.
    assert (Hv : In (matches_played td p0) (filter (fun v => v >? 2) (values mc))).
    { apply filter_In. split; [|apply Z.gtb_lt; lia].
      apply (In_values mc p0), Hitems. auto. }
    rewrite H in Hv. inversion Hv. }
  rewrite Hmn. cbn [bind].
  apply py_min_Z_spec in Hmn as [_ Hmn].
  assert (Hmn' : mn < M).
  { assert (mn <= matches_played td p0); [|lia].
    apply Hmn, filter_In. split; [|apply Z.gtb_lt; lia].
    apply (In_values mc p0), Hitems. auto. }
  (* the largest number of matches *)
  destruct (py_max_Ok Z.ltb (values mc)) as [mx Hmx].
  { intros H. assert (Hv : In M (values mc))
      by (apply (In_values mc f1), Hitems; auto).
    rewrite H in Hv. inversion Hv. }
  rewrite Hmx. cbn [bind].
  apply py_max_Z_spec in Hmx as [Hmx1 Hmx2].
  assert (HM : mx = M).
  { apply Z.le_antisymm.
    - apply values_In in Hmx1 as [k Hk]. apply Hitems in Hk as [Hk ->]. auto.
    - apply Hmx2, (In_values mc f1), Hitems. auto. }
  subst mx.
  set (gsl := keys (filter (fun kv => snd kv <=? mn) mc)).
  set (fin := keys (filter (fun kv => snd kv =? M) mc)).
  (* finalists and players of the groups *)
  assert (Hfin : forall p, In p (players_of td) ->
                           inb p fin = is_one_of f1 f2 p).
  { intros p Hp. unfold is_one_of.
    destruct (inb p fin) eqn:E.
    - apply inb_In, In_keys_filter in E as [v [Hv Hq]]. simpl in Hq.
      apply Hitems in Hv as [_ ->]. apply Z.eqb_eq in Hq.
      destruct (String.eqb_spec p f1); auto.
      destruct (String.eqb_spec p f2); auto.
      specialize (Hothers p Hp n n0). lia.
    - symmetry. apply not_true_iff_false. intros H.
      apply not_true_iff_false in E. apply E, inb_In, In_keys_filter.
      exists M. split; [|simpl; apply Z.eqb_refl].
      apply Hitems. split; auto.
      apply orb_true_iff in H as [H|H]; apply String.eqb_eq in H; subst;
        auto. }
  assert (Hgsl : forall p, is_one_of f1 f2 p = true -> inb p gsl = false).
  { intros p Hp. apply not_true_iff_false. intros H.
    apply inb_In, In_keys_filter in H as [v [Hv Hq]]. simpl in Hq.
    apply Hitems in Hv as [_ ->]. apply Z.leb_le in Hq.
    apply orb_true_iff in Hp as [Hp|Hp]; apply String.eqb_eq in Hp; subst;
      unfold M in *; lia. }
  assert (Hbranch : count (in_final_branch gsl fin) td
                    = count (between_finalists f1 f2) td).
  { apply count_ext_in. intros x Hx.
    unfold in_final_branch, between_finalists.
    assert (H1 : In (Player_1 x) (players_of td))
      by (apply in_or_app; left; now apply in_map).
    assert (H2 : In (Player_2 x) (players_of td))
      by (apply in_or_app; right; now apply in_map).
    rewrite (Hfin _ H1), (Hfin _ H2).
    destruct (is_one_of f1 f2 (Player_1 x)) eqn:E1; [|now rewrite andb_false_r].
    destruct (is_one_of f1 f2 (Player_2 x)) eqn:E2; [|now rewrite andb_false_r].
    now rewrite (Hgsl _ E1), (Hgsl _ E2). }
  pose proof (classify_rows_inv gsl fin td [] _ (rr_inv_start gsl fin)) as Hinv.
  destruct Hinv as (Ht & Hn & Hc & _). cbn [app] in *.
  eexists. split; [reflexivity|]. repeat split; auto.
  rewrite Hc, Hbranch. now apply finals_left_one.
Qed.

(** ** Round robin: all the tournaments *)

Lemma for_each_tournaments (F : list row -> result (list row)) ts :
  (forall td td', F td = Ok td' ->
                  map Tournament_Start td' = map Tournament_Start td) ->
  NoDup ts ->
  forall data,
    (forall t, In t ts -> exists td', F (filter (of_tourn t) data) = Ok td') ->
    exists data',
      for_each
        (fun data tourn =>
           td' <- F (filter (of_tourn tourn) data) ;;
           Ok (write_back tourn td' data))
        ts data = Ok data'
      /\ (forall t, In t ts ->
                    F (filter (of_tourn t) data) = Ok (filter (of_tourn t) data'))
      /\ (forall t, ~ In t ts ->
                    filter (of_tourn t) data' = filter (of_tourn t) data).
Proof.
  intros HF. induction ts as [|t0 ts IH]; intros Hnd data Hok.
  - exists data. simpl. repeat split; auto. intros t [].
  - inversion Hnd as [|? ? Hnotin Hnd']; subst.
    destruct (Hok t0 (or_introl eq_refl)) as [td0 H0].
    pose proof (HF _ _ H0) as Hkeys.
    assert (Hlen : List.length td0 = List.length (filter (of_tourn t0) data)).
    { rewrite <- (length_map Tournament_Start), Hkeys. apply length_map. }
    assert (Hkey : Forall (fun x => of_tourn t0 x = true) td0).
    { assert (H : Forall (fun s => String.eqb s t0 = true)
                         (map Tournament_Start td0)).
      { rewrite Hkeys. apply Forall_map. apply filter_of_tourn. }
      apply Forall_map in H. exact H. }
    set (data1 := write_back t0 td0 data).
    assert (Hother : forall t, t <> t0 ->
                filter (of_tourn t) data1 = filter (of_tourn t) data).
    { intros t Ht. unfold data1. now apply write_back_other. }
    assert (Hsame : filter (of_tourn t0) data1 = td0).
    { unfold data1. now apply write_back_same. }
    destruct (IH Hnd' data1) as [data' [H1 [H2 H3]]].
    { intros t Ht. rewrite Hother by (intros ->; auto).
      apply Hok. now right. }
    exists data'. cbn [for_each]. rewrite H0. cbn [bind]. fold data1.
    rewrite H1. split; auto. split.
    + intros t [<-|Ht].
      * rewrite H3 by auto. now rewrite Hsame.
      * rewrite <- (Hother t) by (intros ->; auto). now apply H2.
    + intros t Ht. rewrite H3 by (intros H; apply Ht; now right).
      apply Hother. intros ->. apply Ht. now left.
Qed.

Lemma reconstruct_tourn_rr_keeps {PS : PySet} td td' :
  reconstruct_tourn_rr td = Ok td' ->
  map Tournament_Start td' = map Tournament_Start td.
Proof.
  unfold reconstruct_tourn_rr.
  destruct (py_min _ _) as [mn|]; cbn [bind]; [|discriminate].
  destruct (py_max _ _) as [mx|]; cbn [bind]; [|discriminate].
  intros [= <-].
  set (gsl := keys (filter (fun kv => snd kv <=? mn) (match_counter_of td))).
  set (fin := keys (filter (fun kv => snd kv =? mx) (match_counter_of td))).
  pose proof (classify_rows_inv gsl fin td [] _ (rr_inv_start gsl fin)) as Hinv.
  destruct Hinv as (Ht & _). exact Ht.
Qed.

(** C5: when the data is made of round-robin tournament-instances,
    [reconstruct_brackets_rr] returns, and in every instance every record
    has one of the names "Group Stage", "Semi-final" and "Final" with the
    round number 1, 2 or 3 that goes with it, and exactly one record is
    named "Final". *)
Theorem round_robin_rounds {PS : PySet} (rr_data : list row) :
  (forall tourn, In tourn (map Tournament_Start rr_data) ->
                 round_robin_instance (filter (of_tourn tourn) rr_data)) ->
  exists rr_data',
    reconstruct_brackets_rr rr_data = Ok rr_data'
    /\ forall tourn, In tourn (map Tournament_Start rr_data) ->
         let rows := filter (of_tourn tourn) rr_data' in
         List.length rows = List.length (filter (of_tourn tourn) rr_data)
         /\ Forall (fun x => exists name,
                       Round x = Rname name /\ name <> ""
                       /\ In (Round_number x) [1; 2; 3]) rows
         /\ count (has_round "Final") rows = 1%nat.
Proof.
  intros Hrr. unfold reconstruct_brackets_rr.
  destruct (for_each_tournaments reconstruct_tourn_rr
              (set_list (map Tournament_Start rr_data))
              reconstruct_tourn_rr_keeps (set_list_NoDup _) rr_data)
    as [data' [H1 [H2 _]]].
  { intros t Ht. apply (proj1 (set_list_In _ _)) in Ht.
    destruct (reconstruct_tourn_rr_spec _ (Hrr t Ht)) as [rows [H _]]. eauto. }
  exists data'. split; [exact H1|].
  intros t Ht. cbv zeta.
  destruct (reconstruct_tourn_rr_spec _ (Hrr t Ht)) as [rows (Hr & Hk & Hn & Hc)].
  rewrite H2 in Hr by (now apply set_list_In).
  injection Hr as <-. repeat split.
  - rewrite <- (length_map Tournament_Start), Hk. apply length_map.
  - revert Hn. apply Forall_impl.
    intros x [[-> ->]|[[-> ->]|[-> ->]]]; eexists;
      (split; [reflexivity|split; [discriminate|simpl; auto]]).
  - exact Hc.
Qed.

Lemma group_and_final_instance :
  round_robin_instance (filter (of_tourn "Masters 2020-11-02") group_and_final).
Proof.
  exists "A", "B", "C". split; [discriminate|].
  split; [vm_compute; split; reflexivity|].
  split; [reflexivity|].
  split; [|vm_compute; split; repeat constructor].
  intros p Hp HA HB. simpl in Hp.
  repeat (destruct Hp as [<-|Hp]; [try reflexivity; congruence|]).
  contradiction.
Defined.

Lemma round_robin_rounds_witness :
  exists rr_data',
    reconstruct_brackets_rr group_and_final = Ok rr_data'
    /\ forall tourn, In tourn (map Tournament_Start group_and_final) ->
         let rows := filter (of_tourn tourn) rr_data' in
         List.length rows
         = List.length (filter (of_tourn tourn) group_and_final)
         /\ Forall (fun x => exists name,
                       Round x = Rname name /\ name <> ""
                       /\ In (Round_number x) [1; 2; 3]) rows
         /\ count (has_round "Final") rows = 1%nat.
Proof.
  apply (round_robin_rounds group_and_final).
  intros tourn Ht.
  assert (E : tourn = "Masters 2020-11-02").
  { simpl in Ht. repeat (destruct Ht as [<-|Ht]; [reflexivity|]).
    contradiction. }
  rewrite E. exact group_and_final_instance.
Defined.

(** The finalists met twice: the row met later is the final, the row met
    first is back in the group stage. *)
Example later_row_of_finalists_is_the_final :
  rmap (map (fun x => (Player_1 x, Player_2 x, Round x, Round_number x)))
       (reconstruct_brackets_rr group_and_final)
  = Ok [("A", "B", Rname "Group Stage", 1);
        ("C", "D", Rname "Group Stage", 1);
        ("A", "C", Rname "Group Stage", 1);
        ("B", "D", Rname "Group Stage", 1);
        ("A", "D", Rname "Group Stage", 1);
        ("B", "C", Rname "Group Stage", 1);
        ("B", "A", Rname "Final", 3)].
Proof. vm_compute. reflexivity. Qed.

(** ** The comparison with the official ranks *)

Lemma In_setitem_other {V} (d : dict V) k p v w :
  p <> k -> In (p, v) (setitem d k w) -> In (p, v) d.
Proof.
  intros Hp. induction d as [|[k' v'] d IH]; simpl.
  - intros [[= -> _]|[]]. congruence.
  - destruct (String.eqb_spec k k') as [->|Hk]; simpl.
    + intros [[= -> _]|H]; [congruence|auto].
    + intros [H|H]; auto.
Qed.

Lemma for_each_invariant {A S} (P : S -> Prop) (body : S -> A -> result S) l :
  (forall st x st', In x l -> P st -> body st x = Ok st' -> P st') ->
  forall st st', P st -> for_each body l st = Ok st' -> P st'.
Proof.
  induction l as [|x l IH]; intros Hb st st' Hst; simpl.
  - now intros [= <-].
  - destruct (body st x) as [st1|] eqn:E; simpl; [|discriminate].
    apply IH; [intros; eapply Hb; eauto; now right|].
    eapply Hb; eauto. now left.
Qed.

Lemma append_rank_no_rank p st player rank st' :
  (player = p -> rank = 0) ->
  no_rank p (fst st) /\ no_rank p (snd st) ->
  append_rank st player rank = Ok st' ->
  no_rank p (fst st') /\ no_rank p (snd st').
Proof.
  intros Hp [H1 H2]. destruct st as [rd rda]. unfold append_rank.
  destruct (getitem rd player) as [v|]; cbn [bind]; [|discriminate].
  destruct (Nat.eqb (List.length v) 1 && negb (rank =? 0)) eqn:E.
  - destruct (getitem rda player) as [va|]; cbn [bind]; [|discriminate].
    intros [= <-]. apply andb_true_iff in E as [_ E].
    apply negb_true_iff, Z.eqb_neq in E.
    assert (Hne : p <> player) by (intros <-; auto).
    cbn [fst snd] in *.
    split; intros w Hw; apply In_setitem_other in Hw; auto.
  - intros [= <-]. auto.
Qed.

Section Unranked.
Context {PS : PySet}.
Variable start_date_of_key : string -> result Z.

(** C7: a participant whose recorded rank is 0 in the records of a
    tournament-instance gets no row for it: in both dicts of the comparator
    the list held for that participant has no rank appended, and only lists
    of two elements become rows, whatever the score. *)
Theorem unranked_participant_has_no_row (data all_data : list row)
        (stopping_threshold : Qc) (tourn p : string)
        (ranks : dict (list Qc) * dict (list Qc)) :
  (forall x, In x data -> Tournament_Start x = tourn ->
             (Player_1 x = p -> Rank_1 x = 0)
             /\ (Player_2 x = p -> Rank_2 x = 0)) ->
  tourn_ranks_data start_date_of_key data all_data stopping_threshold tourn
  = Ok ranks ->
  ~ In p (keys (with_two (fst ranks)))
  /\ ~ In p (keys (with_two (snd ranks))).
Proof.
  intros Hzero. unfold tourn_ranks_data.
  destruct (start_date_of_key tourn) as [start_date|]; cbn [bind];
    [|discriminate].
  destruct (calc_wbw _ _) as [scores|]; cbn [bind]; [|discriminate].
  intros Hloop.
  assert (Hno : no_rank p (fst ranks) /\ no_rank p (snd ranks)).
  { revert Hloop.
    apply (for_each_invariant
             (fun st => no_rank p (fst st) /\ no_rank p (snd st))).
    - intros st x st' Hx Hst.
      apply filter_In in Hx as [Hx Hk]. apply String.eqb_eq in Hk.
      destruct (Hzero x Hx Hk) as [Hr1 Hr2].
      destruct (append_rank st (Player_1 x) (Rank_1 x)) as [st1|] eqn:E1;
        cbn [bind]; [|discriminate].
      intros E2.
      eapply append_rank_no_rank; [exact Hr2| |exact E2].
      eapply append_rank_no_rank; [exact Hr1|exact Hst|exact E1].
    - cbn [fst snd]. split; intros v Hv;
        apply in_map_iff in Hv as [kv [[= _ <-] _]]; reflexivity. }
  destruct Hno as [H1 H2].
  split; intros Hin; apply In_keys_filter in Hin as [v [Hv Hq]];
    cbn [snd] in Hq; apply Nat.eqb_eq in Hq;
    [apply H1 in Hv | apply H2 in Hv]; lia.
Qed.

End Unranked.

Lemma unranked_participant_has_no_row_witness :
  In "B" (keys (fst with_unranked_ranks))
  /\ keys (with_two (fst with_unranked_ranks)) = ["A"; "C"]
  /\ ~ In "B" (keys (with_two (fst with_unranked_ranks)))
  /\ ~ In "B" (keys (with_two (snd with_unranked_ranks))).
Proof.
  split; [vm_compute; auto|]. split; [vm_compute; reflexivity|].
  apply (unranked_participant_has_no_row (fun _ => Ok 10) with_unranked
           with_unranked default_threshold "Open 2020-01-10" "B").
  - intros x Hx _. simpl in Hx.
    destruct Hx as [<-|[<-|[]]]; split; intros H;
      try reflexivity; discriminate H.
  - vm_compute. reflexivity.
Defined.

Example rank_of_a_later_record_is_taken :
  rmap (fun ranks => map (fun kv => (fst kv, map this (snd kv)))
                         (with_two (fst ranks)))
       (tourn_ranks_data (fun _ => Ok 10) ranked_later ranked_later
                         default_threshold "Open 2020-01-10")
  = Ok [("A", [(57 # 800)%Q; 4%Q]); ("C", [(57 # 800)%Q; 7%Q]);
        ("B", [(1 # 20)%Q; 9%Q])].
Proof. vm_compute. reflexivity. Qed.

(** * Further properties *)

(** ** Rankings are sorted *)

Section Descending.
Context {V : Type} (ltb : V -> V -> bool).
Hypothesis ltb_asym : forall a b, ltb a b = true -> ltb b a = false.
Hypothesis ltb_trans :
  forall a b c, ltb a b = false -> ltb b c = false -> ltb a c = false.

Lemma insert_desc_descending x l :
  descending ltb l -> descending ltb (insert_desc ltb x l).
Proof.
  unfold descending. induction 1 as [|y l Hs IH Hy]; simpl.
  - repeat constructor.
  - destruct (ltb (snd x) (snd y)) eqn:E.
    + constructor; auto.
      apply (Permutation_Forall (Permutation_sym (insert_desc_perm ltb x l))).
      constructor; auto.
    + constructor; [constructor; auto|].
      constructor; auto.
      revert Hy. apply Forall_impl. intros z Hz. eapply ltb_trans; eauto.
Qed.

Lemma sorted_desc_descending l : descending ltb (sorted_desc ltb l).
Proof.
  induction l as [|x l IH]; simpl; [constructor|].
  now apply insert_desc_descending.
Qed.

End Descending.

Lemma Qc_ltb_lt a b : Qc_ltb a b = true <-> (a < b)%Qc.
Proof.
  unfold Qc_ltb. rewrite Qclt_alt.
  destruct (a ?= b)%Qc; split; congruence.
Qed.

Lemma Qc_ltb_ge a b : Qc_ltb a b = false <-> (b <= a)%Qc.
Proof.
  rewrite <- not_true_iff_false, Qc_ltb_lt. split.
  - apply Qcnot_lt_le.
  - intros H H'. exact (Qcle_not_lt _ _ H H').
Qed.

Lemma descending_Z l : descending Z.ltb (sorted_desc Z.ltb l).
Proof.
  apply sorted_desc_descending.
  - intros a b. rewrite Z.ltb_lt, Z.ltb_ge. lia.
  - intros a b c. rewrite !Z.ltb_ge. lia.
Qed.

Lemma descending_Qc l : descending Qc_ltb (sorted_desc Qc_ltb l).
Proof.
  apply sorted_desc_descending.
  - intros a b. rewrite Qc_ltb_lt, Qc_ltb_ge. apply Qclt_le_weak.
  - intros a b c. rewrite !Qc_ltb_ge. intros H1 H2. eapply Qcle_trans; eauto.
Qed.

Lemma keys_perm {V} (l l' : dict V) :
  Permutation l l' -> Permutation (keys l) (keys l').
Proof. apply Permutation_map. Qed.

Lemma wdl_update_keys d x d' : wdl_update d x = Ok d' -> keys d' = keys d.
Proof.
  destruct (wdl_update_cases d x) as [[-> _]|[d1 [-> [Hk _]]]];
    [discriminate|]. now intros [= <-].
Qed.

Lemma wdl_loop_keys data : forall d d',
  for_each wdl_update data d = Ok d' -> keys d' = keys d.
Proof.
  induction data as [|x data IH]; intros d d'; simpl.
  - now intros [= <-].
  - destruct (wdl_update d x) as [d1|] eqn:E; simpl; [|discriminate].
    intros H. rewrite (IH _ _ H). now apply (wdl_update_keys d x).
Qed.

Lemma wbw_loop_keys flag n bb t fuel : forall w w',
  keys w = keys bb ->
  wbw_loop flag fuel n bb t w = Ok w' -> keys w' = keys bb.
Proof.
  induction fuel as [|fuel IH]; intros w w' Hk; simpl.
  - now intros [= <-].
  - destruct (wbw_pass flag n bb t w) as [[w1 b]|] eqn:E; simpl;
      [|discriminate].
    pose proof (wbw_pass_keys flag n bb t w w1 b E) as Hk1.
    destruct b; [now intros [= <-]|]. now apply IH.
Qed.

Lemma count_match_fold_keys data : forall mc,
  keys (fold_left (fun mc x => count_match mc (Winner x)) data mc) = keys mc.
Proof.
  induction data as [|x data IH]; intros mc; simpl; auto.
  now rewrite IH, count_match_keys.
Qed.

(** X1: each of the three rankings, when it is returned, lists every player of
    the data once, and no player comes before a player of a greater score. *)
Theorem rankings_list_every_player_best_first {PS : PySet} (data : list row)
        (stopping_threshold : Qc) :
  ranking_of Z.ltb data (calc_ww data)
  /\ returns (ranking_of Qc_ltb data) (calc_wdl data)
  /\ returns (ranking_of Qc_ltb data) (calc_wbw data stopping_threshold).
Proof.
  split; [|split].
  - split; [|apply descending_Z]. unfold calc_ww.
    rewrite (keys_perm _ _ (sorted_desc_perm Z.ltb _)).
    now rewrite count_match_fold_keys, keys_dict_comp.
  - unfold calc_wdl.
    destruct (for_each wdl_update data _) as [d|] eqn:E; simpl; auto.
    split; [|apply descending_Qc].
    rewrite (keys_perm _ _ (sorted_desc_perm Qc_ltb _)).
    now rewrite (wdl_loop_keys _ _ _ E), keys_dict_comp.
  - unfold calc_wbw, calc_wbw_with.
    destruct (wbw_init data) as [w|] eqn:Ew; cbn [bind returns]; auto.
    destruct (wbw_loop _ _ _ _ _ _) as [w'|] eqn:El; cbn [bind returns]; auto.
    split; [|apply descending_Qc].
    rewrite (keys_perm _ _ (sorted_desc_perm Qc_ltb _)).
    apply wbw_loop_keys in El.
    + rewrite El. unfold beaten_by_dict_of. now rewrite keys_dict_comp.
    + unfold wbw_init in Ew. apply dict_comp_r_keys in Ew.
      unfold beaten_by_dict_of. now rewrite keys_dict_comp.
Qed.

(** ** The scores of WinnersWin and WinnersDontLose, player by player *)

Lemma dict_ext {V} (d : dict V) : forall d',
  keys d = keys d' -> NoDup (keys d) ->
  (forall k, In k (keys d) -> dict_get d k = dict_get d' k) ->
  d = d'.
Proof.
  induction d as [|[k v] d IH]; intros [|[k' v'] d'] Hk Hnd Hget;
    try discriminate; [reflexivity|].
  simpl in Hk. injection Hk as <- Hk.
  inversion Hnd as [|? ? Hnotin Hnd']; subst.
  pose proof (Hget k (or_introl eq_refl)) as Hv. simpl in Hv.
  rewrite String.eqb_refl in Hv. injection Hv as <-.
  f_equal. apply IH; auto.
  intros k0 Hk0. specialize (Hget k0 (or_intror Hk0)). simpl in Hget.
  destruct (String.eqb_spec k0 k) as [E|_]; [subst; tauto|exact Hget].
Qed.

Lemma count_wins_get data p : forall mc,
  dict_get (fold_left (fun mc x => count_match mc (Winner x)) data mc) p
  = option_map (fun v => v + wins data p) (dict_get mc p).
Proof.
  induction data as [|x data IH]; intros mc; simpl.
  - unfold wins. simpl. destruct (dict_get mc p); simpl; auto.
    f_equal. lia.
  - rewrite IH, count_match_get. unfold wins, bump. simpl.
    destruct (dict_get mc p); simpl; auto. f_equal.
    destruct (String.eqb (Winner x) p); lia.
Qed.

(** X2: the ranking of WinnersWin is the list of the players, each with the
    number of records won, sorted; records whose winner is no player of the
    data count for nobody. *)
Theorem calc_ww_counts_wins {PS : PySet} (data : list row) :
  calc_ww data
  = sorted_desc Z.ltb (dict_comp (get_unique_players data) (wins data)).
Proof.
  unfold calc_ww. f_equal. apply dict_ext.
  - now rewrite count_match_fold_keys, !keys_dict_comp.
  - rewrite count_match_fold_keys, keys_dict_comp. apply set_list_NoDup.
  - intros k Hk. rewrite count_match_fold_keys, keys_dict_comp in Hk.
    rewrite count_wins_get, !dict_get_dict_comp.
    apply inb_In in Hk. now rewrite Hk.
Qed.

Lemma wdl_update_get d x d' p :
  wdl_update d x = Ok d' ->
  dict_get d' p = option_map (fun v => (v + wdl_gain x p)%Qc) (dict_get d p).
Proof.
  unfold wdl_update, getitem, wdl_gain.
  set (r := Z2Qc (Round_number x)).
  assert (H1 : exists d1,
             except_KeyError_pass
               (bind match dict_get d (Winner x) with
                     | Some v => Ok v
                     | None => Raise KeyError
                     end
                     (fun v => Ok (setitem d (Winner x) (v + r)%Qc))) d = Ok d1
             /\ dict_get d1 p
                = option_map
                    (fun v => (v + (if String.eqb (Winner x) p then r else 0))%Qc)
                    (dict_get d p)).
  { destruct (dict_get d (Winner x)) as [v|] eqn:E; cbn.
    - eexists. split; [reflexivity|].
      destruct (String.eqb_spec (Winner x) p) as [<-|Hne].
      + now rewrite dict_get_setitem_same, E.
      + rewrite dict_get_setitem_other by auto.
        destruct (dict_get d p); simpl; auto. f_equal. ring.
    - eexists. split; [reflexivity|].
      destruct (String.eqb_spec (Winner x) p) as [<-|Hne].
      + now rewrite E.
      + destruct (dict_get d p); simpl; auto. f_equal. ring. }
  destruct H1 as [d1 [-> H1]]. cbn [bind].
  destruct (dict_get d1 (Loser x)) as [v|] eqn:E;
    cbn [bind except_KeyError_pass].
  - unfold true_div. destruct (Qc_eq_dec r 0); cbn; [discriminate|].
    intros [= <-].
    destruct (String.eqb_spec (Loser x) p) as [<-|Hne].
    + rewrite dict_get_setitem_same. rewrite E in H1.
      destruct (dict_get d (Loser x)); simpl in *; [|discriminate].
      injection H1 as ->. f_equal. ring.
    + rewrite dict_get_setitem_other by auto. rewrite H1.
      destruct (dict_get d p); simpl; auto. f_equal. ring.
  - intros [= <-]. rewrite H1.
    destruct (String.eqb_spec (Loser x) p) as [<-|Hne].
    + rewrite E in H1. destruct (dict_get d (Loser x)); [discriminate|auto].
    + destruct (dict_get d p); simpl; auto. f_equal. ring.
Qed.

Lemma wdl_loop_get data p : forall d d',
  for_each wdl_update data d = Ok d' ->
  dict_get d' p
  = option_map (fun v => fold_left (fun acc x => (acc + wdl_gain x p)%Qc) data v)
               (dict_get d p).
Proof.
  induction data as [|x data IH]; intros d d'; simpl.
  - intros [= <-]. now destruct (dict_get d p).
  - destruct (wdl_update d x) as [d1|] eqn:E; simpl; [|discriminate].
    intros H. rewrite (IH _ _ H), (wdl_update_get _ _ _ _ E).
    now destruct (dict_get d p).
Qed.

(** X3: when no record has the round number 0, WinnersDontLose returns the list
    of the players, sorted, where each player has the sum of the round
    numbers of the records won minus the sum of the inverses of the round
    numbers of the records lost. *)
Theorem calc_wdl_scores {PS : PySet} (data : list row) :
  Forall (fun x => Round_number x <> 0) data ->
  calc_wdl data
  = Ok (sorted_desc Qc_ltb
          (dict_comp (get_unique_players data) (wdl_score data))).
Proof.
  intros Hr. unfold calc_wdl.
  destruct (wdl_loop_Ok data
              (dict_comp (get_unique_players data) (fun _ => 0%Qc)) Hr)
    as [d Hd].
  rewrite Hd. cbn [bind]. do 2 f_equal.
  pose proof (wdl_loop_keys _ _ _ Hd) as Hk. rewrite keys_dict_comp in Hk.
  apply dict_ext.
  - now rewrite Hk, keys_dict_comp.
  - rewrite Hk. apply set_list_NoDup.
  - intros k Hin. rewrite Hk in Hin.
    rewrite (wdl_loop_get _ _ _ _ Hd), !dict_get_dict_comp.
    apply inb_In in Hin. now rewrite Hin.
Qed.

Lemma calc_wdl_scores_witness :
  calc_wdl [set_round (fresh_row "T" 1 "A" "B" 1 2) (Rname "Semi-final") 2;
            set_round (fresh_row "T" 1 "A" "C" 1 3) (Rname "Final") 3]
  = Ok (sorted_desc Qc_ltb
          (dict_comp
             (get_unique_players
                [set_round (fresh_row "T" 1 "A" "B" 1 2) (Rname "Semi-final") 2;
                 set_round (fresh_row "T" 1 "A" "C" 1 3) (Rname "Final") 3])
             (wdl_score
                [set_round (fresh_row "T" 1 "A" "B" 1 2) (Rname "Semi-final") 2;
                 set_round (fresh_row "T" 1 "A" "C" 1 3) (Rname "Final") 3]))).
Proof.
  apply (calc_wdl_scores
           [set_round (fresh_row "T" 1 "A" "B" 1 2) (Rname "Semi-final") 2;
            set_round (fresh_row "T" 1 "A" "C" 1 3) (Rname "Final") 3]).
  repeat constructor; discriminate.
Defined.

(** X4: WinnersDontLose cannot rank the rows as [read_data] returns them: their
    round number is 0, and the first of them makes it raise
    [ZeroDivisionError].  The brackets have to be reconstructed first. *)
Theorem calc_wdl_needs_reconstructed_rounds {PS : PySet}
        (lines : list clean_line) :
  lines <> [] -> calc_wdl (read_data lines) = Raise ZeroDivisionError.
Proof.
  intros Hl. apply calc_wdl_zero_round_raises.
  destruct lines as [|cl lines]; [tauto|]. simpl. left.
  split.
  - unfold read_data_line. now destruct (find_winner_loser cl).
  - unfold loser_is_participant.
    destruct (find_winner_loser_participants cl) as [[_ H]|[_ H]]; auto.
Qed.

Lemma calc_wdl_needs_reconstructed_rounds_witness :
  calc_wdl (read_data [retired_line]) = Raise ZeroDivisionError.
Proof.
  apply (calc_wdl_needs_reconstructed_rounds [retired_line]). discriminate.
Defined.

(** ** The scores of WinnersBeatWinners *)

Section WinnersBeatWinnersScores.
Context {PS : PySet}.

Lemma wbw_loop_invariant (P : dict Qc -> Prop) n bb t :
  (forall w w' b, P w -> wbw_pass true n bb t w = Ok (w', b) -> P w') ->
  forall fuel w d, P w -> wbw_loop true fuel n bb t w = Ok d -> P d.
Proof.
  intros Hstep. induction fuel as [|fuel IH]; intros w d Hw.
  - simpl. now intros [= <-].
  - cbn [wbw_loop].
    destruct (wbw_pass true n bb t w) as [[w1 b]|] eqn:E; cbn [bind fst snd];
      [|discriminate].
    destruct b.
    + intros [= <-]. eapply Hstep; eauto.
    + apply IH. eapply Hstep; eauto.
Qed.

Lemma wbw_scores_after_invariant (P : dict Qc -> Prop) n bb :
  (forall w w' b, P w -> wbw_pass true n bb default_threshold w = Ok (w', b) ->
                  P w') ->
  forall i w d, P w -> wbw_scores_after i n bb w = Ok d -> P d.
Proof.
  intros Hstep. induction i as [|i IH]; intros w d Hw.
  - simpl. now intros [= <-].
  - cbn [wbw_scores_after].
    destruct (wbw_pass true n bb default_threshold w) as [[w1 b]|] eqn:E;
      cbn [bind fst]; [|discriminate].
    apply IH. eapply Hstep; eauto.
Qed.

(** A turn of the loop gives a result of the loop: what holds after every
    turn holds for what the loop returns after at least one turn. *)
Lemma wbw_loop_after_a_pass (P : dict Qc -> Prop) n bb t :
  (forall w w' b, keys w = keys bb -> wbw_pass true n bb t w = Ok (w', b) ->
                  P w') ->
  forall fuel w d, keys w = keys bb ->
                   wbw_loop true (S fuel) n bb t w = Ok d -> P d.
Proof.
  intros Hstep. induction fuel as [|fuel IH]; intros w d Hk;
    cbn [wbw_loop];
    destruct (wbw_pass true n bb t w) as [[w1 b]|] eqn:E; cbn [bind fst snd];
    try discriminate.
  - destruct b; intros [= <-]; eapply Hstep; eauto.
  - destruct b.
    + intros [= <-]. eapply Hstep; eauto.
    + apply IH. eapply wbw_pass_keys; eauto.
Qed.

Lemma wbw_scores_after_a_pass (P : dict Qc -> Prop) n bb :
  (forall w w' b, keys w = keys bb ->
                  wbw_pass true n bb default_threshold w = Ok (w', b) -> P w') ->
  forall i w d, keys w = keys bb ->
                wbw_scores_after (S i) n bb w = Ok d -> P d.
Proof.
  intros Hstep. induction i as [|i IH]; intros w d Hk;
    cbn [wbw_scores_after];
    destruct (wbw_pass true n bb default_threshold w) as [[w1 b]|] eqn:E;
    cbn [bind fst]; try discriminate.
  - intros [= <-]. eapply Hstep; eauto.
  - apply IH. eapply wbw_pass_keys; eauto.
Qed.

(** *** A player who won no match *)

Lemma credit_shares_get_other share p victors : forall sh sh',
  ~ In p victors ->
  for_each (credit_share share) victors sh = Ok sh' ->
  dict_get sh' p = dict_get sh p.
Proof.
  induction victors as [|v victors IH]; intros sh sh' Hp; simpl.
  - now intros [= <-].
  - unfold credit_share at 1, getitem.
    destruct (dict_get sh v) as [x|]; cbn [bind]; [|discriminate].
    intros H. rewrite (IH _ _ (fun H' => Hp (or_intror H')) H).
    apply dict_get_setitem_other. intros ->. apply Hp. now left.
Qed.

Lemma distribute_false_get_other (w : dict Qc) p items : forall s st,
  (forall k vs, In (k, vs) items -> ~ In p vs) ->
  for_each (wbw_distribute false) items (w, s) = Ok st ->
  dict_get (snd st) p = dict_get s p.
Proof.
  induction items as [|[k vs] items IH]; intros s st Hp.
  - simpl. now intros [= <-].
  - cbn [for_each wbw_distribute].
    destruct (Nat.eqb (List.length vs) 0); cbn [negb bind].
    + apply IH. intros k' vs' H. apply (Hp k' vs'). now right.
    + destruct (getitem w k) as [score|]; cbn [bind]; [|discriminate].
      destruct (true_div _ _) as [share|]; cbn [bind]; [|discriminate].
      destruct (for_each (credit_share share) vs s) as [s1|] eqn:E;
        cbn [bind]; [|discriminate].
      intros H. rewrite (IH s1 st); auto.
      * eapply credit_shares_get_other; eauto. apply (Hp k vs). now left.
      * intros k' vs' H'. apply (Hp k' vs'). now right.
Qed.

Lemma dict_comp_items_get {V W} (f : V -> result W) p : forall d d',
  dict_comp_items d f = Ok d' ->
  forall v, dict_get d p = Some v ->
            exists w, f v = Ok w /\ dict_get d' p = Some w.
Proof.
  induction d as [|[k v0] d IH]; intros d'.
  - simpl. intros _ v H. discriminate.
  - rewrite dict_comp_items_cons.
    destruct (f v0) as [w0|] eqn:E0; cbn [bind]; [|discriminate].
    destruct (dict_comp_items d f) as [r|] eqn:Er; cbn [bind]; [|discriminate].
    intros [= <-] v. simpl.
    destruct (String.eqb p k).
    + intros [= <-]. eauto.
    + now apply IH.
Qed.

Lemma wbw_pass_without_a_win n bb t w w' b p :
  NoDup (keys bb) -> keys w = keys bb -> In p (keys bb) ->
  (forall k vs, In (k, vs) bb -> ~ In p vs) ->
  wbw_pass true n bb t w = Ok (w', b) ->
  dict_get w' p = Some (lower_bound n).
Proof.
  intros Hnd Hk Hin Hp.
  rewrite wbw_pass_self_increment by (auto; intros; rewrite Hk; auto).
  unfold wbw_pass.
  destruct (py_max Qc_ltb (values w)); cbn [bind]; [|discriminate].
  destruct (py_min Qc_ltb (values w)); cbn [bind]; [|discriminate].
  destruct (for_each _ bb _) as [st|] eqn:E; cbn [bind]; [|discriminate].
  destruct (dict_comp_items _ _) as [d|] eqn:Ed; cbn [bind]; [|discriminate].
  destruct (py_max Qc_ltb (values d)); cbn [bind]; [|discriminate].
  destruct (py_min Qc_ltb (values d)); cbn [bind]; [|discriminate].
  intros [= <- _].
  pose proof (distribute_false_get_other _ p _ _ _ Hp E) as Hget.
  rewrite dict_get_dict_comp in Hget.
  apply inb_In in Hin. rewrite Hin in Hget.
  destruct (dict_comp_items_get _ p _ _ Ed _ Hget) as [v [Hv ->]].
  unfold true_div in Hv. destruct (Qc_eq_dec (Z2Qc n) 0); cbn [bind] in Hv;
    [discriminate|].
  injection Hv as <-. f_equal. unfold lower_bound. ring.
Qed.

Lemma no_win_no_share data p :
  (forall x, In x data -> Winner x <> p) ->
  forall k vs, In (k, vs) (beaten_by_dict_of data) -> ~ In p vs.
Proof.
  intros Hp k vs Hin Hv. unfold beaten_by_dict_of, dict_comp in Hin.
  apply in_map_iff in Hin as [k' [[= -> <-] _]].
  unfold beaten_by in Hv. apply in_map_iff in Hv as [x [Hw Hx]].
  apply filter_In in Hx as [Hx _]. now apply (Hp x).
Qed.

Lemma players_of_some_row data p :
  In p (get_unique_players data) -> data <> [].
Proof.
  intros Hin ->. unfold get_unique_players in Hin. simpl in Hin.
  rewrite set_list_nil in Hin. inversion Hin.
Qed.

End WinnersBeatWinnersScores.

(** X5: the bound of 0.15/N is met: a player who won none of the records has,
    after every completed turn of the loop and in the ranking returned,
    exactly the score 0.15/N, where N is the number of players. *)
Theorem player_without_a_win_has_the_damping_share {PS : PySet}
        (data : list row) (stopping_threshold : Qc) (i : nat) (p : string) :
  Forall winner_is_participant data -> (1 <= i)%nat ->
  In p (get_unique_players data) ->
  (forall x, In x data -> Winner x <> p) ->
  let N := Z.of_nat (List.length (get_unique_players data)) in
  (exists d, calc_wbw_scores_after data i = Ok d
             /\ dict_get d p = Some (q_0_15 / Z2Qc N)%Qc)
  /\ (exists l, calc_wbw data stopping_threshold = Ok l
                /\ In (p, (q_0_15 / Z2Qc N)%Qc) l).
Proof.
  intros Hwf Hi Hin Hp N.
  pose proof (players_of_some_row data p Hin) as Hd.
  destruct (wbw_init_spec data Hd) as [w [Hw [Hk Hnn]]].
  assert (HN : 0 < N).
  { unfold N. pose proof (players_nonempty data Hd).
    destruct (get_unique_players data); [tauto|simpl; lia]. }
  assert (Hbb : beaten_by_dict_of data <> []).
  { unfold beaten_by_dict_of, dict_comp.
    pose proof (players_nonempty data Hd).
    destruct (get_unique_players data); [tauto|discriminate]. }
  assert (Hkb : keys (beaten_by_dict_of data) = get_unique_players data).
  { unfold beaten_by_dict_of. apply keys_dict_comp. }
  assert (Hnd : NoDup (keys (beaten_by_dict_of data))).
  { rewrite Hkb. apply set_list_NoDup. }
  assert (Hkk : keys w = keys (beaten_by_dict_of data)) by congruence.
  pose proof (victors_known_data data Hwf) as Hv.
  assert (Hstep : forall t w0 w' b,
             keys w0 = keys (beaten_by_dict_of data) ->
             wbw_pass true N (beaten_by_dict_of data) t w0 = Ok (w', b) ->
             dict_get w' p = Some (lower_bound N)).
  { intros t w0 w' b Hk0 Hpass.
    eapply wbw_pass_without_a_win; eauto.
    - now rewrite Hkb.
    - now apply no_win_no_share. }
  split.
  - destruct i as [|i]; [lia|].
    destruct (wbw_scores_after_spec N _ i w HN Hbb Hnd Hv Hkk Hnn)
      as [w' [H1 _]].
    exists w'. unfold calc_wbw_scores_after. rewrite Hw. cbn [bind].
    fold N. split; [exact H1|].
    exact (wbw_scores_after_a_pass
             (fun d => dict_get d p = Some (lower_bound N)) N _
             (Hstep default_threshold) i w w' Hkk H1).
  - destruct (wbw_loop_spec N _ stopping_threshold 999 w HN Hbb Hnd Hv Hkk Hnn)
      as [w' [H1 _]].
    unfold calc_wbw, calc_wbw_with. rewrite Hw. cbn [bind]. fold N.
    rewrite H1. cbn [bind]. eexists. split; [reflexivity|].
    eapply Permutation_in; [symmetry; apply sorted_desc_perm|].
    apply dict_get_In.
    exact (wbw_loop_after_a_pass
             (fun d => dict_get d p = Some (lower_bound N)) N _
             stopping_threshold (Hstep stopping_threshold) 999 w w' Hkk H1).
Qed.

Lemma player_without_a_win_has_the_damping_share_witness :
  (exists d, calc_wbw_scores_after a_beats_b 2 = Ok d
             /\ dict_get d "B" = Some (q_0_15 / Z2Qc 2)%Qc)
  /\ (exists l, calc_wbw a_beats_b default_threshold = Ok l
                /\ In ("B", (q_0_15 / Z2Qc 2)%Qc) l).
Proof.
  refine (player_without_a_win_has_the_damping_share
            a_beats_b default_threshold 2 "B" _ _ _ _).
  - repeat constructor.
  - lia.
  - vm_compute. auto.
  - intros x [<-|[]]. discriminate.
Defined.

(** *** The sum of the scores *)

Section WinnersBeatWinnersSum.
Context {PS : PySet}.

Lemma passed_on_notin k v (w : dict Qc) : forall bb,
  ~ In k (keys bb) -> passed_on ((k, v) :: w) bb = passed_on w bb.
Proof.
  induction bb as [|[k2 vs2] bb IH]; intros Hnotin; [reflexivity|].
  cbn [passed_on dict_get].
  destruct (String.eqb_spec k2 k) as [->|Hne].
  - exfalso. apply Hnotin. now left.
  - f_equal. apply IH. intros H. apply Hnotin. now right.
Qed.

Lemma sumQc_nonneg l : Forall (fun v => (0 <= v)%Qc) l -> (0 <= sumQc l)%Qc.
Proof.
  induction 1 as [|v l Hv _ IH]; simpl.
  - apply Qcle_refl.
  - change 0%Qc with (0 + 0)%Qc. now apply Qcplus_le_compat.
Qed.

Lemma sumQc_perm l l' : Permutation l l' -> sumQc l = sumQc l'.
Proof.
  induction 1; simpl; try congruence. ring.
Qed.

Lemma passed_on_le w : forall bb,
  keys w = keys bb -> NoDup (keys bb) -> nonneg w ->
  (passed_on w bb <= sumQc (values w))%Qc.
Proof.
  induction w as [|[k v] w IH]; intros [|[k' vs] bb] Hk Hnd Hnn;
    try discriminate Hk; [apply Qcle_refl|].
  simpl in Hk. injection Hk as <- Hk.
  inversion Hnd as [|? ? Hnotin Hnd']; subst.
  inversion Hnn as [|? ? Hv Hnn']; subst.
  cbn [passed_on dict_get]. rewrite String.eqb_refl.
  rewrite passed_on_notin by auto.
  cbn [values map snd sumQc fold_right].
  apply Qcplus_le_compat; [|now apply IH].
  destruct vs; [exact Hv|apply Qcle_refl].
Qed.

Lemma damped_sum_le x : (x <= 1)%Qc -> (q_0_85 * x + q_0_15 <= 1)%Qc.
Proof.
  intros Hx.
  assert (H1 : 1%Qc = (q_0_85 * 1 + q_0_15)%Qc)
    by (apply Qc_is_canon; reflexivity).
  apply Qcle_trans with (q_0_85 * 1 + q_0_15)%Qc;
    [|rewrite <- H1; apply Qcle_refl].
  apply Qcplus_le_compat; [|apply Qcle_refl].
  rewrite !(Qcmult_comm q_0_85). apply Qcmult_le_compat_r; auto.
  unfold Qcle. simpl. unfold Qle. simpl. lia.
Qed.

Lemma wbw_pass_sum_inv n bb t w w' b :
  0 < n -> bb <> [] -> NoDup (keys bb) -> victors_known bb ->
  n = Z.of_nat (List.length bb) ->
  sum_inv bb w -> wbw_pass true n bb t w = Ok (w', b) -> sum_inv bb w'.
Proof.
  intros Hn Hbb Hnd Hv Hlen [Hk [Hnn [Hle Hone]]] Hpass.
  destruct (wbw_pass_spec n bb t w Hn Hbb Hnd Hv Hk Hnn)
    as [w1 [b1 [E [Hk1 Hal]]]].
  rewrite E in Hpass. injection Hpass as <- <-.
  assert (Hn0 : n <> 0) by lia.
  unfold sum_inv. split; [exact Hk1|]. split; [|split].
  - eapply at_least_nonneg; eauto.
  - rewrite (wbw_pass_sum n bb t w w1 b1 Hnd Hk Hlen Hn0 E).
    apply damped_sum_le.
    eapply Qcle_trans; [apply passed_on_le; auto|exact Hle].
  - intros Hall.
    exact (wbw_pass_sum_one n bb t w w1 b1 Hnd Hk Hlen Hn0 Hall (Hone Hall) E).
Qed.

Lemma everybody_lost_victors data :
  everybody_lost data ->
  Forall (fun item => snd item <> []) (beaten_by_dict_of data).
Proof.
  intros Hlost. apply Forall_forall. intros [k vs] Hin. cbn [snd].
  unfold beaten_by_dict_of, dict_comp in Hin.
  apply in_map_iff in Hin as [k' [[= -> <-] Hk]].
  destruct (Hlost k Hk) as [x [Hx Hl]]. unfold beaten_by. intros H.
  assert (Hw : In (Winner x)
                  (map Winner (filter (fun y => String.eqb (Loser y) k) data))).
  { apply in_map, filter_In. split; auto. now apply String.eqb_eq. }
  rewrite H in Hw. inversion Hw.
Qed.

End WinnersBeatWinnersSum.

(** X6: the scores of WinnersBeatWinners never add up to more than 1: so it is
    at the start, after every turn of the loop and in the ranking returned.
    They add up to exactly 1 when every player lost at least one match. *)
Theorem wbw_scores_sum_at_most_one {PS : PySet} (data : list row)
        (stopping_threshold : Qc) (i : nat) :
  data <> [] -> Forall winner_is_participant data ->
  (exists d, calc_wbw_scores_after data i = Ok d
             /\ (sumQc (values d) <= 1)%Qc
             /\ (everybody_lost data -> sumQc (values d) = 1%Qc))
  /\ (exists l, calc_wbw data stopping_threshold = Ok l
                /\ (sumQc (values l) <= 1)%Qc
                /\ (everybody_lost data -> sumQc (values l) = 1%Qc)).
Proof.
  intros Hd Hwf.
  set (N := Z.of_nat (List.length (get_unique_players data))).
  destruct (wbw_init_spec data Hd) as [w [Hw [Hk Hnn]]].
  pose proof (players_nonempty data Hd) as Hne.
  assert (HN : 0 < N).
  { unfold N. destruct (get_unique_players data); [tauto|simpl; lia]. }
  assert (Hbb : beaten_by_dict_of data <> []).
  { unfold beaten_by_dict_of, dict_comp.
    destruct (get_unique_players data); [tauto|discriminate]. }
  assert (Hkb : keys (beaten_by_dict_of data) = get_unique_players data).
  { unfold beaten_by_dict_of. apply keys_dict_comp. }
  assert (Hnd : NoDup (keys (beaten_by_dict_of data))).
  { rewrite Hkb. apply set_list_NoDup. }
  assert (Hkk : keys w = keys (beaten_by_dict_of data)) by congruence.
  pose proof (victors_known_data data Hwf) as Hv.
  assert (Hlen : N = Z.of_nat (List.length (beaten_by_dict_of data))).
  { unfold N, beaten_by_dict_of, dict_comp. now rewrite length_map. }
  assert (Hsum : sumQc (values w) = 1%Qc).
  { unfold wbw_init in Hw. fold N in Hw.
    assert (Hn0 : N <> 0) by lia.
    rewrite (uniform_scores_sum N _ _ Hn0 Hw). fold N.
    assert (Hz : Z2Qc N <> 0%Qc) by (intros H; now apply Z2Qc_eq_0 in H).
    unfold Qcdiv. rewrite Qcmult_1_l. now apply Qcmult_inv_r. }
  assert (Hinv : sum_inv (beaten_by_dict_of data) w).
  { unfold sum_inv. split; [exact Hkk|]. split; [exact Hnn|]. split; auto.
    rewrite Hsum. apply Qcle_refl. }
  assert (Hstep : forall t w0 w' b,
             sum_inv (beaten_by_dict_of data) w0 ->
             wbw_pass true N (beaten_by_dict_of data) t w0 = Ok (w', b) ->
             sum_inv (beaten_by_dict_of data) w').
  { intros t w0 w' b. now apply wbw_pass_sum_inv. }
  split.
  - assert (Hex : exists d, wbw_scores_after i N (beaten_by_dict_of data) w
                            = Ok d).
    { destruct i as [|i]; [now exists w|].
      destruct (wbw_scores_after_spec N _ i w HN Hbb Hnd Hv Hkk Hnn)
        as [w' [H1 _]]. now exists w'. }
    destruct Hex as [d H1].
    exists d. unfold calc_wbw_scores_after. rewrite Hw. cbn [bind]. fold N.
    split; [exact H1|].
    destruct (wbw_scores_after_invariant _ N _ (Hstep default_threshold)
                i w d Hinv H1) as [_ [_ [Hle Hone]]].
    split; auto. intros Hl. now apply Hone, everybody_lost_victors.
  - destruct (wbw_loop_spec N _ stopping_threshold 999 w HN Hbb Hnd Hv Hkk Hnn)
      as [w' [H1 _]].
    unfold calc_wbw, calc_wbw_with. rewrite Hw. cbn [bind]. fold N.
    rewrite H1. cbn [bind]. eexists. split; [reflexivity|].
    destruct (wbw_loop_invariant _ N _ stopping_threshold
                (Hstep stopping_threshold) 1000 w w' Hinv H1)
      as [_ [_ [Hle Hone]]].
    assert (Hp : sumQc (values (sorted_desc Qc_ltb w')) = sumQc (values w')).
    { apply sumQc_perm. apply Permutation_map, sorted_desc_perm. }
    rewrite Hp. split; auto.
    intros Hl. now apply Hone, everybody_lost_victors.
Qed.

Lemma wbw_scores_sum_at_most_one_witness :
  (exists d, calc_wbw_scores_after a_beats_b 3 = Ok d
             /\ (sumQc (values d) <= 1)%Qc
             /\ (everybody_lost a_beats_b -> sumQc (values d) = 1%Qc))
  /\ (exists l, calc_wbw a_beats_b default_threshold = Ok l
                /\ (sumQc (values l) <= 1)%Qc
                /\ (everybody_lost a_beats_b -> sumQc (values l) = 1%Qc)).
Proof.
  refine (wbw_scores_sum_at_most_one a_beats_b default_threshold 3 _ _).
  - discriminate.
  - repeat constructor.
Defined.

(** *** A winner who is no player of the data *)

Section WinnersBeatWinnersKeyError.
Context {PS : PySet}.

Lemma credit_shares_KeyError share victors : forall sh e,
  for_each (credit_share share) victors sh = Raise e -> e = KeyError.
Proof.
  induction victors as [|v victors IH]; intros sh e; simpl; [discriminate|].
  unfold credit_share at 1, getitem.
  destruct (dict_get sh v); cbn [bind]; [apply IH|now intros [= <-]].
Qed.

Lemma credit_shares_Ok_known share victors : forall sh sh',
  for_each (credit_share share) victors sh = Ok sh' ->
  forall v, In v victors -> In v (keys sh).
Proof.
  induction victors as [|v0 victors IH]; intros sh sh'; simpl; [tauto|].
  unfold credit_share at 1, getitem.
  destruct (dict_get sh v0) as [x|] eqn:E; cbn [bind]; [|discriminate].
  intros H v [<-|Hv].
  - apply dict_get_In_keys. eauto.
  - specialize (IH _ _ H v Hv). now rewrite keys_setitem in IH
      by (apply dict_get_In_keys; eauto).
Qed.

Lemma distribute_unknown_victor_raises (w : dict Qc) items : forall s,
  (forall k, In k (keys items) -> In k (keys w)) ->
  (exists k vs v, In (k, vs) items /\ In v vs /\ ~ In v (keys s)) ->
  for_each (wbw_distribute false) items (w, s) = Raise KeyError.
Proof.
  induction items as [|[k vs] items IH]; intros s Hk [k0 [vs0 [v [Hin [Hv Hs]]]]].
  - inversion Hin.
  - cbn [for_each wbw_distribute].
    assert (Hk' : forall k, In k (keys items) -> In k (keys w))
      by (intros k' H'; apply Hk; now right).
    destruct (Nat.eqb (List.length vs) 0) eqn:El; cbn [negb bind].
    + apply IH; auto. exists k0, vs0, v. repeat split; auto.
      destruct Hin as [[= <- <-]|Hin]; auto.
      destruct vs; [inversion Hv|discriminate].
    + destruct (getitem_Ok w k (Hk k (or_introl eq_refl))) as [x [-> _]].
      cbn [bind]. rewrite true_div_Ok; cbn [bind].
      * destruct (for_each (credit_share _) vs s) as [s1|e] eqn:E; cbn [bind].
        -- apply IH; auto. exists k0, vs0, v.
           rewrite (credit_shares_keys _ _ _ _ E).
           destruct Hin as [[= <- <-]|Hin]; auto.
           exfalso. apply Hs. eapply credit_shares_Ok_known; eauto.
        -- f_equal. eapply credit_shares_KeyError; eauto.
      * intros H. apply Z2Qc_eq_0 in H. apply length_eqb_0 in El. lia.
Qed.

End WinnersBeatWinnersKeyError.

(** X7: unlike [calc_ww] and [calc_wdl], [calc_wbw] does not catch [KeyError]:
    a record lost by a player of the data whose winner is no player of the
    data makes it raise [KeyError]. *)
Theorem calc_wbw_unknown_winner_raises {PS : PySet} (data : list row)
        (stopping_threshold : Qc) (x : row) :
  In x data ->
  In (Loser x) (get_unique_players data) ->
  ~ In (Winner x) (get_unique_players data) ->
  calc_wbw data stopping_threshold = Raise KeyError.
Proof.
  intros Hx Hl Hw.
  assert (Hd : data <> []) by (intros ->; inversion Hx).
  destruct (wbw_init_spec data Hd) as [w [Ew [Hk Hnn]]].
  assert (Hkb : keys (beaten_by_dict_of data) = get_unique_players data).
  { unfold beaten_by_dict_of. apply keys_dict_comp. }
  assert (Hnd : NoDup (keys (beaten_by_dict_of data))).
  { rewrite Hkb. apply set_list_NoDup. }
  unfold calc_wbw, calc_wbw_with. rewrite Ew. cbn [bind].
  change 1000%nat with (S 999). cbn [wbw_loop].
  rewrite wbw_pass_self_increment
    by (auto; intros k Hin; rewrite Hk, <- Hkb; exact Hin).
  unfold wbw_pass.
  assert (Hv : values w <> []).
  { apply values_nil_keys. rewrite Hk. now apply players_nonempty. }
  destruct (py_max_Ok Qc_ltb _ Hv) as [m ->].
  destruct (py_min_Ok Qc_ltb _ Hv) as [m' ->]. cbn [bind].
  rewrite distribute_unknown_victor_raises; [reflexivity| |].
  - intros k Hin. now rewrite Hk, <- Hkb.
  - exists (Loser x), (beaten_by data (Loser x)), (Winner x).
    split; [|split].
    + unfold beaten_by_dict_of, dict_comp. apply in_map_iff.
      exists (Loser x). auto.
    + unfold beaten_by. apply in_map, filter_In. split; auto.
      apply String.eqb_refl.
    + now rewrite keys_dict_comp, Hkb.
Qed.

Lemma calc_wbw_unknown_winner_raises_witness :
  calc_wbw [row_won_by "C" "A" "B"] default_threshold = Raise KeyError.
Proof.
  apply (calc_wbw_unknown_winner_raises
           [row_won_by "C" "A" "B"] default_threshold (row_won_by "C" "A" "B")).
  - now left.
  - vm_compute. auto.
  - vm_compute. intros [H|[H|[]]]; discriminate.
Defined.

(** ** The turns of the loop of WinnersBeatWinners *)

Section WinnersBeatWinnersTurns.
Context {PS : PySet}.

Lemma wbw_pass_scores flag n bb t t' w :
  rmap fst (wbw_pass flag n bb t w) = rmap fst (wbw_pass flag n bb t' w).
Proof.
  unfold wbw_pass.
  destruct (py_max Qc_ltb (values w)); cbn [bind rmap]; [|reflexivity].
  destruct (py_min Qc_ltb (values w)); cbn [bind rmap]; [|reflexivity].
  destruct (for_each _ bb _); cbn [bind rmap]; [|reflexivity].
  destruct (dict_comp_items _ _) as [d|]; cbn [bind rmap]; [|reflexivity].
  destruct (py_max Qc_ltb (values d)); cbn [bind rmap]; [|reflexivity].
  destruct (py_min Qc_ltb (values d)); cbn [bind rmap]; reflexivity.
Qed.

Lemma wbw_loop_stops n bb t fuel : forall w d,
  wbw_loop true fuel n bb t w = Ok d ->
  exists i, (i <= fuel)%nat /\ (1 <= fuel -> 1 <= i)%nat
            /\ wbw_scores_after i n bb w = Ok d.
Proof.
  induction fuel as [|fuel IH]; intros w d.
  - cbn [wbw_loop]. intros [= <-]. exists O. split; [lia|]. split; [lia|].
    reflexivity.
  - cbn [wbw_loop].
    pose proof (wbw_pass_scores true n bb t default_threshold w) as Hp.
    destruct (wbw_pass true n bb t w) as [[w1 b]|]; cbn [bind fst snd];
      [|discriminate].
    destruct (wbw_pass true n bb default_threshold w) as [[w1' b']|] eqn:E;
      cbn [rmap fst] in Hp; [|discriminate].
    injection Hp as <-.
    destruct b.
    + intros [= <-]. exists 1%nat. split; [lia|]. split; [lia|].
      cbn [wbw_scores_after]. now rewrite E.
    + intros H. destruct (IH _ _ H) as [i [Hi [_ Hs]]].
      exists (S i). split; [lia|]. split; [lia|].
      cbn [wbw_scores_after]. now rewrite E.
Qed.

Lemma Qc_abs_nonneg a : (0 <= Qc_abs a)%Qc.
Proof.
  unfold Qc_abs. destruct (Qc_ltb a 0) eqn:E.
  - apply Qc_ltb_lt, Qclt_le_weak, Qcopp_le_compat in E.
    replace (- 0)%Qc with 0%Qc in E by ring. exact E.
  - now apply Qc_ltb_ge.
Qed.

Lemma never_below a t : (t <= 0)%Qc -> Qc_ltb (Qc_abs a) t = false.
Proof.
  intros Ht. apply Qc_ltb_ge. eapply Qcle_trans; [exact Ht|].
  apply Qc_abs_nonneg.
Qed.

Lemma wbw_pass_goes_on flag n bb t w w' b :
  (t <= 0)%Qc -> wbw_pass flag n bb t w = Ok (w', b) -> b = false.
Proof.
  intros Ht. unfold wbw_pass.
  destruct (py_max Qc_ltb (values w)); cbn [bind]; [|discriminate].
  destruct (py_min Qc_ltb (values w)); cbn [bind]; [|discriminate].
  destruct (for_each _ bb _); cbn [bind]; [|discriminate].
  destruct (dict_comp_items _ _) as [d|]; cbn [bind]; [|discriminate].
  destruct (py_max Qc_ltb (values d)); cbn [bind]; [|discriminate].
  destruct (py_min Qc_ltb (values d)); cbn [bind]; [|discriminate].
  intros [= _ <-]. now rewrite never_below.
Qed.

Lemma wbw_loop_goes_on n bb t fuel : forall w,
  (t <= 0)%Qc ->
  wbw_loop true fuel n bb t w = wbw_scores_after fuel n bb w.
Proof.
  induction fuel as [|fuel IH]; intros w Ht; [reflexivity|].
  cbn [wbw_loop wbw_scores_after].
  pose proof (wbw_pass_scores true n bb t default_threshold w) as Hp.
  destruct (wbw_pass true n bb t w) as [[w1 b]|e] eqn:E1;
    destruct (wbw_pass true n bb default_threshold w) as [[w1' b']|e'];
    cbn [rmap fst] in Hp; try discriminate; cbn [bind fst snd].
  - injection Hp as <-.
    rewrite (wbw_pass_goes_on _ _ _ _ _ _ _ Ht E1). now apply IH.
  - congruence.
Qed.

End WinnersBeatWinnersTurns.

(** X8: the ranking that [calc_wbw] returns is made of the scores after a
    number of turns of the loop between 1 and 1000, sorted.  With a
    stopping threshold of 0 or less the criterion never holds: the loop
    runs its 1000 turns. *)
Theorem calc_wbw_returns_the_scores_of_a_turn {PS : PySet} (data : list row)
        (stopping_threshold : Qc) :
  (forall ranking, calc_wbw data stopping_threshold = Ok ranking ->
     exists i d, (1 <= i <= 1000)%nat
                 /\ calc_wbw_scores_after data i = Ok d
                 /\ ranking = sorted_desc Qc_ltb d)
  /\ ((stopping_threshold <= 0)%Qc ->
      calc_wbw data stopping_threshold
      = rmap (sorted_desc Qc_ltb) (calc_wbw_scores_after data 1000)).
Proof.
  unfold calc_wbw, calc_wbw_with, calc_wbw_scores_after. split.
  - intros ranking.
    destruct (wbw_init data) as [w|]; cbn [bind]; [|discriminate].
    destruct (wbw_loop _ _ _ _ _ _) as [d|] eqn:E; cbn [bind]; [|discriminate].
    intros [= <-]. apply wbw_loop_stops in E as [i [Hi [Hi' Hs]]].
    exists i, d. split; [lia|]. split; [exact Hs|reflexivity].
  - intros Ht. destruct (wbw_init data) as [w|]; cbn [bind rmap];
      [|reflexivity].
    rewrite wbw_loop_goes_on by exact Ht.
    now destruct (wbw_scores_after _ _ _ _).
Qed.

(** ** Single elimination: what is written, and where *)

Lemma write_back_tournaments t data : forall new,
  Forall (fun x => of_tourn t x = true) new ->
  map Tournament_Start (write_back t new data) = map Tournament_Start data.
Proof.
  induction data as [|x data IH]; intros new Hnew; [reflexivity|].
  cbn [write_back]. destruct (of_tourn t x) eqn:E.
  - destruct new as [|y new]; cbn [map].
    + f_equal. now apply IH.
    + inversion Hnew as [|? ? Hy Hnew']; subst. f_equal; [|now apply IH].
      unfold of_tourn in *. apply String.eqb_eq in E, Hy. congruence.
  - cbn [map]. f_equal. now apply IH.
Qed.

Lemma reconstruct_brackets_keeps {PS : PySet} data :
  map Tournament_Start (reconstruct_brackets data) = map Tournament_Start data.
Proof.
  unfold reconstruct_brackets.
  generalize (set_list (map Tournament_Start data)). intros ts. revert data.
  induction ts as [|t ts IH]; intros data; [reflexivity|].
  cbn [fold_left]. rewrite IH. apply write_back_tournaments.
  apply (keeps_tournaments_filter reconstruct_tourn t).
  - apply reconstruct_tourn_keeps.
  - apply filter_of_tourn.
Qed.

Lemma of_tourn_same t x y :
  Tournament_Start x = Tournament_Start y -> of_tourn t x = of_tourn t y.
Proof.
  unfold of_tourn. now intros ->.
Qed.

(** Two lists with the same tournaments, place by place, are related row by
    row as soon as their tournaments are. *)
Lemma Forall2_by_tournament (R : row -> row -> Prop) l : forall l',
  map Tournament_Start l = map Tournament_Start l' ->
  (forall t, In t (map Tournament_Start l) ->
             Forall2 R (filter (of_tourn t) l) (filter (of_tourn t) l')) ->
  Forall2 R l l'.
Proof.
  induction l as [|x l IH]; intros [|y l'] Hmap Hall; try discriminate;
    [constructor|].
  cbn [map] in Hmap. injection Hmap as Hxy Hmap.
  constructor.
  - specialize (Hall (Tournament_Start x) (or_introl eq_refl)).
    cbn [filter] in Hall.
    rewrite <- (of_tourn_same _ x y Hxy) in Hall.
    assert (E : of_tourn (Tournament_Start x) x = true)
      by (unfold of_tourn; apply String.eqb_refl).
    rewrite E in Hall. now inversion Hall.
  - apply IH; auto. intros t Ht.
    specialize (Hall t (or_intror Ht)). cbn [filter] in Hall.
    rewrite <- (of_tourn_same t x y Hxy) in Hall.
    destruct (of_tourn t x); [now inversion Hall|exact Hall].
Qed.

Lemma Forall2_eq {A} (l l' : list A) : Forall2 eq l l' -> l = l'.
Proof.
  induction 1; congruence.
Qed.

Lemma Forall2_refl {A} (R : A -> A -> Prop) l :
  (forall x, R x x) -> Forall2 R l l.
Proof.
  intros H. induction l; constructor; auto.
Qed.

Lemma Forall2_map_r {A B} (R : A -> B -> Prop) (f : B -> B) l l' :
  (forall x y, R x y -> R x (f y)) -> Forall2 R l l' -> Forall2 R l (map f l').
Proof.
  intros H. induction 1; simpl; constructor; auto.
Qed.

Lemma Forall2_impl_in {A B} (R R' : A -> B -> Prop) l l' :
  (forall x y, In x l -> R x y -> R' x y) -> Forall2 R l l' -> Forall2 R' l l'.
Proof.
  intros H HF. induction HF; constructor.
  - apply H; auto. now left.
  - apply IHHF. intros a b Ha. apply H. now right.
Qed.

Lemma range_down_succ m :
  range_down (Z.of_nat (S m)) = Z.of_nat (S m) :: range_down (Z.of_nat m).
Proof.
  unfold range_down. rewrite !Nat2Z.id, seq_S, rev_app_distr. reflexivity.
Qed.

Lemma In_range_down s : forall m,
  In s (range_down (Z.of_nat m)) <-> 1 <= s <= Z.of_nat m.
Proof.
  induction m as [|m IH].
  - unfold range_down. simpl. lia.
  - rewrite range_down_succ. cbn [In]. rewrite IH. lia.
Qed.

Lemma list_index_range_down s : forall m,
  1 <= s <= Z.of_nat m -> list_index s (range_down (Z.of_nat m)) = Z.of_nat m - s.
Proof.
  induction m as [|m IH]; intros Hs; [lia|].
  rewrite range_down_succ. cbn [list_index].
  destruct (Z.eqb_spec s (Z.of_nat (S m))) as [->|Hne]; [lia|].
  rewrite IH by lia. lia.
Qed.

Lemma round_log2_nonneg n : 0 <= round_log2 n.
Proof.
  unfold round_log2. apply Z.div_pos; [|lia].
  pose proof (Z.log2_nonneg (n * n)). lia.
Qed.

Lemma round_name_label k stage :
  0 <= k -> 1 <= stage <= k ->
  round_name_of (range_down k) stage
  = round_label k (list_index stage (range_down k) + 1)
  /\ 1 <= list_index stage (range_down k) + 1 <= k.
Proof.
  intros Hk Hs. rewrite <- (Z2Nat.id k) in * by lia.
  rewrite list_index_range_down by lia.
  unfold round_name_of, round_label.
  rewrite list_index_range_down by lia.
  replace (Z.of_nat (Z.to_nat k) - (Z.of_nat (Z.to_nat k) - stage + 1) + 1)
    with stage by lia.
  split; [reflexivity|lia].
Qed.

Lemma resolve_labelled k stage losers x y :
  0 <= k -> 1 <= stage <= k ->
  labelled k x y ->
  labelled k x (resolve (round_name_of (range_down k) stage)
                        (list_index stage (range_down k) + 1) losers y).
Proof.
  intros Hk Hs Hxy. unfold resolve.
  destruct (round_is_zero (Round y) && inb (Loser y) losers) eqn:E; auto.
  apply andb_true_iff in E as [Ez _].
  destruct Hxy as [->|[_ [n [_ ->]]]]; [|discriminate].
  right. split; [now destruct (Round x)|].
  destruct (round_name_label k stage Hk Hs) as [-> Hn]. eauto.
Qed.

Lemma fold_stages_labelled k td stages : forall cur,
  0 <= k -> (forall s, In s stages -> 1 <= s <= k) ->
  Forall2 (labelled k) td cur ->
  Forall2 (labelled k) td (fold_left (stage_pass (range_down k)) stages cur).
Proof.
  induction stages as [|s stages IH]; intros cur Hk Hs Hcur; [exact Hcur|].
  cbn [fold_left]. apply IH; auto.
  - intros s' H'. apply Hs. now right.
  - rewrite stage_pass_resolve. apply Forall2_map_r; auto.
    intros x y. apply resolve_labelled; auto. apply Hs. now left.
Qed.

Lemma reconstruct_tourn_labelled td :
  Forall2 (labelled (stages_of td)) td (reconstruct_tourn td).
Proof.
  unfold reconstruct_tourn. fold (stages_of td).
  pose proof (round_log2_nonneg (Z.of_nat (List.length td) + 1)) as Hk.
  fold (stages_of td) in Hk.
  apply fold_stages_labelled; auto.
  - intros s Hs. rewrite <- (Z2Nat.id (stages_of td)) in Hs by lia.
    apply In_range_down in Hs. lia.
  - apply Forall2_refl. intros x. now left.
Qed.

(** X9: [reconstruct_brackets] returns the rows of the data in their order.  A
    row that had a round keeps it; a row that had none is returned as it
    was or with a round written into cells 13 and 14, the other cells
    untouched: a number [n] between 1 and the number [k] of stages of its
    tournament, and the name of that round, which is "Final" for [n = k],
    "Semi-final" and "Quarter-final" before it, and "Round n" otherwise. *)
Theorem reconstruct_brackets_writes_rounds {PS : PySet} (data : list row) :
  Forall2 (fun x y => labelled (stages_of (tournament_of data x)) x y)
          data (reconstruct_brackets data).
Proof.
  apply Forall2_by_tournament.
  - symmetry. apply reconstruct_brackets_keeps.
  - intros t Ht. rewrite reconstruct_brackets_tourn by auto.
    eapply Forall2_impl_in; [|apply reconstruct_tourn_labelled].
    intros x y Hx Hxy. apply filter_In in Hx as [_ Hx].
    unfold of_tourn in Hx. apply String.eqb_eq in Hx.
    unfold tournament_of. now rewrite Hx.
Qed.

(** ** Single elimination: the order of the set of tournaments *)

(** X11: Python gives no order to the tournaments of [set(...)]; whatever it is,
    [reconstruct_brackets] writes the same rounds. *)
Theorem reconstruct_brackets_set_order (PS1 PS2 : PySet) (data : list row) :
  @reconstruct_brackets PS1 data = @reconstruct_brackets PS2 data.
Proof.
  apply Forall2_eq, Forall2_by_tournament.
  - now rewrite !reconstruct_brackets_keeps.
  - intros t Ht. rewrite reconstruct_brackets_keeps in Ht.
    rewrite !reconstruct_brackets_tourn by auto.
    apply Forall2_refl. reflexivity.
Qed.

(** ** Single elimination: the order of the rows *)

Lemma row_eq_dec (x y : row) : {x = y} + {x <> y}.
Proof.
  repeat decide equality.
Defined.

Lemma count_occ_of_tourn t x l :
  of_tourn t x = true ->
  count_occ row_eq_dec (filter (of_tourn t) l) x = count_occ row_eq_dec l x.
Proof.
  intros Hx. induction l as [|y l IH]; [reflexivity|].
  cbn [filter]. destruct (of_tourn t y) eqn:E; cbn [count_occ].
  - now rewrite IH.
  - destruct (row_eq_dec y x) as [->|_]; [congruence|exact IH].
Qed.

Lemma perm_by_tournament l l' :
  (forall t, Permutation (filter (of_tourn t) l) (filter (of_tourn t) l')) ->
  Permutation l l'.
Proof.
  intros H. apply (Permutation_count_occ row_eq_dec). intros x.
  rewrite <- (count_occ_of_tourn (Tournament_Start x) x l),
    <- (count_occ_of_tourn (Tournament_Start x) x l')
    by (unfold of_tourn; apply String.eqb_refl).
  now apply (Permutation_count_occ row_eq_dec).
Qed.

Lemma filter_perm {A} (p : A -> bool) l l' :
  Permutation l l' -> Permutation (filter p l) (filter p l').
Proof.
  induction 1 as [|x l l' _ IH|x y l|l l' l'' _ IH1 _ IH2]; simpl.
  - constructor.
  - destruct (p x); auto.
  - destruct (p x), (p y); auto. constructor.
  - now rewrite IH1.
Qed.

Lemma filter_of_tourn_absent t l :
  ~ In t (map Tournament_Start l) -> filter (of_tourn t) l = [].
Proof.
  induction l as [|x l IH]; intros H; [reflexivity|].
  cbn [filter]. unfold of_tourn at 1.
  destruct (String.eqb_spec (Tournament_Start x) t) as [E|_].
  - exfalso. apply H. now left.
  - apply IH. intros H'. apply H. now right.
Qed.

Lemma reconstruct_brackets_filter {PS : PySet} data t :
  filter (of_tourn t) (reconstruct_brackets data)
  = if inb t (map Tournament_Start data)
    then reconstruct_tourn (filter (of_tourn t) data)
    else [].
Proof.
  destruct (inb t (map Tournament_Start data)) eqn:E.
  - apply reconstruct_brackets_tourn. now apply inb_In.
  - apply filter_of_tourn_absent. rewrite reconstruct_brackets_keeps.
    intros H. apply inb_In in H. congruence.
Qed.

(** X12: the rows of the data need not be in the order of play: when the rows
    are given in another order, and the tournaments of the set are visited
    in another one, [reconstruct_brackets] returns the same rows, each with
    the same round. *)
Theorem reconstruct_brackets_row_order (PS1 PS2 : PySet) (data data' : list row) :
  Permutation data data' ->
  Permutation (@reconstruct_brackets PS1 data) (@reconstruct_brackets PS2 data').
Proof.
  intros Hp. apply perm_by_tournament. intros t.
  rewrite !reconstruct_brackets_filter.
  assert (E : inb t (map Tournament_Start data)
              = inb t (map Tournament_Start data')).
  { apply inb_ext. split; apply Permutation_in; [|symmetry];
      now apply Permutation_map. }
  rewrite <- E. destruct (inb t (map Tournament_Start data)); auto.
  apply reconstruct_tourn_perm. now apply filter_perm.
Qed.

Lemma reconstruct_brackets_row_order_witness :
  Permutation (@reconstruct_brackets first_seen_set eight_players)
              (@reconstruct_brackets first_seen_set (rev eight_players)).
Proof.
  apply (reconstruct_brackets_row_order first_seen_set first_seen_set
           eight_players (rev eight_players)).
  apply Permutation_rev.
Defined.

(** ** Round robin: every tournament on its own *)

Lemma for_each_tournaments_cases (F : list row -> result (list row)) ts :
  (forall td td', F td = Ok td' ->
                  map Tournament_Start td' = map Tournament_Start td) ->
  NoDup ts ->
  forall data,
    match for_each
            (fun data tourn =>
               td' <- F (filter (of_tourn tourn) data) ;;
               Ok (write_back tourn td' data))
            ts data with
    | Ok data' =>
        map Tournament_Start data' = map Tournament_Start data
        /\ (forall t, In t ts ->
                      F (filter (of_tourn t) data)
                      = Ok (filter (of_tourn t) data'))
        /\ (forall t, ~ In t ts ->
                      filter (of_tourn t) data' = filter (of_tourn t) data)
    | Raise e => exists t, In t ts /\ F (filter (of_tourn t) data) = Raise e
    end.
Proof.
  intros HF. induction ts as [|t0 ts IH]; intros Hnd data.
  - simpl. repeat split; auto. intros t [].
  - inversion Hnd as [|? ? Hnotin Hnd']; subst. cbn [for_each].
    destruct (F (filter (of_tourn t0) data)) as [td0|e] eqn:H0; cbn [bind].
    2:{ exists t0. split; [now left|exact H0]. }
    pose proof (HF _ _ H0) as Hkeys.
    assert (Hlen : List.length td0 = List.length (filter (of_tourn t0) data)).
    { rewrite <- (length_map Tournament_Start), Hkeys. apply length_map. }
    assert (Hkey : Forall (fun x => of_tourn t0 x = true) td0).
    { assert (H : Forall (fun s => String.eqb s t0 = true)
                         (map Tournament_Start td0)).
      { rewrite Hkeys. apply Forall_map. apply filter_of_tourn. }
      apply Forall_map in H. exact H. }
    set (data1 := write_back t0 td0 data).
    assert (Hother : forall t, t <> t0 ->
                filter (of_tourn t) data1 = filter (of_tourn t) data).
    { intros t Ht. unfold data1. now apply write_back_other. }
    assert (Hsame : filter (of_tourn t0) data1 = td0).
    { unfold data1. now apply write_back_same. }
    specialize (IH Hnd' data1).
    destruct (for_each _ ts data1) as [data'|e].
    + destruct IH as [H1 [H2 H3]]. split; [|split].
      * rewrite H1. unfold data1. now apply write_back_tournaments.
      * intros t [<-|Ht].
        -- rewrite H3 by auto. now rewrite Hsame.
        -- rewrite <- (Hother t) by (intros ->; auto). now apply H2.
      * intros t Ht. rewrite H3 by (intros H; apply Ht; now right).
        apply Hother. intros ->. apply Ht. now left.
    + destruct IH as [t [Ht He]]. exists t. split; [now right|].
      rewrite <- (Hother t) by (intros ->; auto). exact He.
Qed.

Section RoundRobinRows.
Variables group_stage_losers finalists : list string.

Lemma rr_labelled_again x y name n :
  rr_labelled x y -> set_round y name n = set_round x name n.
Proof.
  intros [ -> | [ -> | -> ] ]; reflexivity.
Qed.

Lemma Forall2_update_at {A B} (R : A -> B -> Prop) (f : B -> B) l l' : forall i,
  (forall x y, R x y -> R x (f y)) ->
  Forall2 R l l' -> Forall2 R l (update_at i f l').
Proof.
  intros i Hf H. revert i.
  induction H as [|x y l l' Hxy Hl IH]; intros [|i]; simpl; constructor; auto.
Qed.

Lemma reupdate_labelled earlier visited rows :
  Forall2 rr_labelled visited rows ->
  Forall2 rr_labelled visited (reupdate earlier rows).
Proof.
  intros H. destruct earlier as [i|]; [|exact H]. cbn [reupdate].
  apply Forall2_update_at; auto.
  intros x y Hxy. left. unfold group_stage.
  now rewrite (rr_labelled_again x y).
Qed.

Lemma classify_row_labelled visited st x :
  Forall2 rr_labelled visited (rr_rows st) ->
  Forall2 rr_labelled (visited ++ [x])
          (rr_rows (classify_row group_stage_losers finalists st x)).
Proof.
  intros H. unfold classify_row.
  assert (Hg : rr_labelled x (set_round x group_stage 1)) by now left.
  assert (Hs : rr_labelled x (set_round x (Rname (tournament_dict_at (KInt 2))) 2))
    by (right; now left).
  assert (Hf : rr_labelled x (set_round x (Rname (tournament_dict_at (KInt 1))) 3))
    by (right; now right).
  repeat match goal with
         | |- context [if ?b then _ else _] => destruct b
         end;
    cbn [rr_rows]; apply Forall2_app; auto using reupdate_labelled.
Qed.

Lemma classify_rows_labelled rest : forall visited st,
  Forall2 rr_labelled visited (rr_rows st) ->
  Forall2 rr_labelled (visited ++ rest)
          (rr_rows (fold_left (classify_row group_stage_losers finalists)
                              rest st)).
Proof.
  induction rest as [|x rest IH]; intros visited st H; simpl.
  - now rewrite app_nil_r.
  - replace (visited ++ x :: rest) with ((visited ++ [x]) ++ rest)
      by (rewrite <- app_assoc; reflexivity).
    apply IH. now apply classify_row_labelled.
Qed.

End RoundRobinRows.

Section RoundRobinTournament.
Context {PS : PySet}.

Lemma reconstruct_tourn_rr_labelled td rows :
  reconstruct_tourn_rr td = Ok rows -> Forall2 rr_labelled td rows.
Proof.
  unfold reconstruct_tourn_rr.
  destruct (py_min _ _) as [mn|]; cbn [bind]; [|discriminate].
  destruct (py_max _ _) as [mx|]; cbn [bind]; [|discriminate].
  intros [= <-].
  apply (classify_rows_labelled _ _ td [] (mkRR [] 1 2 None None)).
  constructor.
Qed.

Lemma reconstruct_tourn_rr_ValueError td e :
  reconstruct_tourn_rr td = Raise e -> e = ValueError.
Proof.
  unfold reconstruct_tourn_rr, py_min, py_max.
  destruct (filter _ _); cbn [bind]; [now intros [= <-]|].
  destruct (values _); cbn [bind]; [now intros [= <-]|discriminate].
Qed.

(** The tournament is reconstructed when somebody played more than two of
    its matches, and only then. *)
Lemma reconstruct_tourn_rr_returns td p :
  2 < matches_played td p -> exists rows, reconstruct_tourn_rr td = Ok rows.
Proof.
  intros Hp. unfold reconstruct_tourn_rr.
  assert (Hin : In p (players_of td)) by (apply matches_played_players; lia).
  assert (Hv : In (matches_played td p) (values (match_counter_of td))).
  { apply (In_values _ p), match_counter_items. auto. }
  destruct (py_min_Ok Z.ltb
              (filter (fun v => v >? 2) (values (match_counter_of td))))
    as [mn ->].
  { intros H.
    assert (H' : In (matches_played td p)
                    (filter (fun v => v >? 2) (values (match_counter_of td)))).
    { apply filter_In. split; [exact Hv|apply Z.gtb_lt; lia]. }
    rewrite H in H'. inversion H'. }
  destruct (py_max_Ok Z.ltb (values (match_counter_of td))) as [mx ->].
  { intros H. rewrite H in Hv. inversion Hv. }
  cbn [bind]. eauto.
Qed.

Lemma reconstruct_tourn_rr_raises td :
  at_most_two_matches_each td -> reconstruct_tourn_rr td = Raise ValueError.
Proof.
  intros Hall. unfold reconstruct_tourn_rr.
  assert (H : filter (fun v => v >? 2) (values (match_counter_of td)) = []).
  { destruct (filter _ _) as [|v l] eqn:E; [reflexivity|].
    assert (Hv : In v (filter (fun v => v >? 2) (values (match_counter_of td))))
      by (rewrite E; now left).
    apply filter_In in Hv as [Hv Hgt]. apply Z.gtb_lt in Hgt.
    apply values_In in Hv as [k Hk]. apply match_counter_items in Hk as [_ ->].
    specialize (Hall k). lia. }
  now rewrite H.
Qed.

Lemma some_player_or_nobody td :
  (exists p, 2 < matches_played td p) \/ at_most_two_matches_each td.
Proof.
  destruct (existsb (fun p => 2 <? matches_played td p) (players_of td)) eqn:E.
  - left. apply existsb_exists in E as [p [_ Hp]]. exists p.
    now apply Z.ltb_lt.
  - right. intros p.
    destruct (Z.leb_spec (matches_played td p) 2) as [|Hgt]; [assumption|].
    exfalso. apply not_true_iff_false in E. apply E, existsb_exists.
    exists p. split; [apply matches_played_players; lia|now apply Z.ltb_lt].
Qed.

End RoundRobinTournament.

(** X13: [reconstruct_brackets_rr] names every row it is given, also a row that
    had a round: whenever it returns, it returns the rows of the data in
    their order, each with "Group Stage" and 1, "Semi-final" and 2 or
    "Final" and 3 in cells 13 and 14, and the other cells untouched. *)
Theorem reconstruct_brackets_rr_writes_rounds {PS : PySet}
        (rr_data rr_data' : list row) :
  reconstruct_brackets_rr rr_data = Ok rr_data' ->
  Forall2 rr_labelled rr_data rr_data'.
Proof.
  unfold reconstruct_brackets_rr. intros H.
  pose proof (for_each_tournaments_cases reconstruct_tourn_rr
                (set_list (map Tournament_Start rr_data))
                reconstruct_tourn_rr_keeps (set_list_NoDup _) rr_data) as Hc.
  rewrite H in Hc. destruct Hc as [Hmap [Hin _]].
  apply Forall2_by_tournament; [now symmetry|].
  intros t Ht. apply reconstruct_tourn_rr_labelled, Hin.
  now apply set_list_In.
Qed.

Lemma reconstruct_brackets_rr_writes_rounds_witness :
  exists rr_data',
    @reconstruct_brackets_rr first_seen_set group_and_final = Ok rr_data'
    /\ Forall2 rr_labelled group_and_final rr_data'.
Proof.
  destruct (@reconstruct_brackets_rr first_seen_set group_and_final)
    as [rr_data'|e] eqn:E; [|vm_compute in E; discriminate].
  exists rr_data'. split; [reflexivity|].
  exact (@reconstruct_brackets_rr_writes_rounds first_seen_set
           group_and_final rr_data' E).
Defined.

(** X15: [reconstruct_brackets_rr] raises [ValueError], at [min] of no number,
    exactly when the data holds a tournament in which nobody played more
    than two matches: one match alone, say, or three players who meet once
    each.  It raises no other exception, and returns otherwise. *)
Theorem reconstruct_brackets_rr_raises_iff {PS : PySet} (rr_data : list row) :
  (reconstruct_brackets_rr rr_data = Raise ValueError
   <-> exists x, In x rr_data
                 /\ at_most_two_matches_each (tournament_of rr_data x))
  /\ (forall e, reconstruct_brackets_rr rr_data = Raise e -> e = ValueError).
Proof.
  assert (Hcases : forall data,
             match reconstruct_brackets_rr data with
             | Ok _ => forall x, In x data ->
                         exists rows,
                           reconstruct_tourn_rr (tournament_of data x) = Ok rows
             | Raise e =>
                 exists x, In x data
                   /\ reconstruct_tourn_rr (tournament_of data x) = Raise e
             end).
  { intros data. unfold reconstruct_brackets_rr.
    pose proof (for_each_tournaments_cases reconstruct_tourn_rr
                  (set_list (map Tournament_Start data))
                  reconstruct_tourn_rr_keeps (set_list_NoDup _) data) as Hc.
    destruct (for_each _ _ data) as [data'|e].
    - destruct Hc as [_ [Hin _]]. intros x Hx. eexists. apply Hin.
      apply set_list_In. now apply in_map.
    - destruct Hc as [t [Ht He]].
      apply (proj1 (set_list_In _ _)) in Ht.
      apply in_map_iff in Ht as [x [<- Hx]]. eauto. }
  assert (Hraise : forall data x,
             In x data -> at_most_two_matches_each (tournament_of data x) ->
             reconstruct_brackets_rr data = Raise ValueError).
  { intros data x Hx Hall. specialize (Hcases data).
    destruct (reconstruct_brackets_rr data) as [data'|e].
    - destruct (Hcases x Hx) as [rows Hrows].
      rewrite (reconstruct_tourn_rr_raises _ Hall) in Hrows. discriminate.
    - destruct Hcases as [y [_ Hy]].
      now rewrite (reconstruct_tourn_rr_ValueError _ _ Hy). }
  split; [split|].
  - intros H. specialize (Hcases rr_data). rewrite H in Hcases.
    destruct Hcases as [x [Hx He]]. exists x. split; auto.
    destruct (some_player_or_nobody (tournament_of rr_data x)) as [[p Hp]|Hn];
      auto.
    destruct (reconstruct_tourn_rr_returns _ p Hp) as [rows Hrows].
    congruence.
  - intros [x [Hx Hall]]. eapply Hraise; eauto.
  - intros e H. specialize (Hcases rr_data). rewrite H in Hcases.
    destruct Hcases as [x [_ He]].
    eapply reconstruct_tourn_rr_ValueError; eauto.
Qed.

(** ** Round robin: the order of the sets *)

Lemma py_min_Z_ext l l' :
  (forall v, In v l <-> In v l') -> py_min Z.ltb l = py_min Z.ltb l'.
Proof.
  intros H.
  destruct l as [|a l], l' as [|a' l'].
  - reflexivity.
  - exfalso. apply (H a'). now left.
  - exfalso. apply (H a). now left.
  - destruct (py_min_Ok Z.ltb (a :: l)) as [m Hm]; [discriminate|].
    destruct (py_min_Ok Z.ltb (a' :: l')) as [m' Hm']; [discriminate|].
    rewrite Hm, Hm'. f_equal.
    apply py_min_Z_spec in Hm as [H1 H2], Hm' as [H1' H2'].
    apply Z.le_antisymm; [apply H2, H, H1'|apply H2', H, H1].
Qed.

Lemma py_max_Z_ext l l' :
  (forall v, In v l <-> In v l') -> py_max Z.ltb l = py_max Z.ltb l'.
Proof.
  intros H.
  destruct l as [|a l], l' as [|a' l'].
  - reflexivity.
  - exfalso. apply (H a'). now left.
  - exfalso. apply (H a). now left.
  - destruct (py_max_Ok Z.ltb (a :: l)) as [m Hm]; [discriminate|].
    destruct (py_max_Ok Z.ltb (a' :: l')) as [m' Hm']; [discriminate|].
    rewrite Hm, Hm'. f_equal.
    apply py_max_Z_spec in Hm as [H1 H2], Hm' as [H1' H2'].
    apply Z.le_antisymm; [apply H2', H, H1|apply H2, H, H1'].
Qed.

Lemma classify_row_ext gsl fin gsl' fin' st x :
  (forall p, inb p gsl = inb p gsl') -> (forall p, inb p fin = inb p fin') ->
  classify_row gsl fin st x = classify_row gsl' fin' st x.
Proof.
  intros Hg Hf. unfold classify_row.
  now rewrite (Hg (Player_1 x)), (Hg (Player_2 x)),
    (Hf (Player_1 x)), (Hf (Player_2 x)).
Qed.

Lemma classify_rows_ext gsl fin gsl' fin' rows : forall st,
  (forall p, inb p gsl = inb p gsl') -> (forall p, inb p fin = inb p fin') ->
  fold_left (classify_row gsl fin) rows st
  = fold_left (classify_row gsl' fin') rows st.
Proof.
  induction rows as [|x rows IH]; intros st Hg Hf; [reflexivity|].
  cbn [fold_left]. rewrite (classify_row_ext gsl fin gsl' fin') by auto.
  now apply IH.
Qed.

Lemma keys_filter_ext {V} (q : string * V -> bool) (d d' : dict V) p :
  (forall k v, In (k, v) d <-> In (k, v) d') ->
  inb p (keys (filter q d)) = inb p (keys (filter q d')).
Proof.
  intros H. apply inb_ext. rewrite !In_keys_filter.
  split; intros [v [Hv Hq]]; exists v; split; auto; now apply H.
Qed.

Lemma values_ext {V} (d d' : dict V) v :
  (forall k v, In (k, v) d <-> In (k, v) d') ->
  In v (values d) <-> In v (values d').
Proof.
  intros H. split; intros Hv; apply values_In in Hv as [k Hk];
    apply (In_values _ k); now apply H.
Qed.

Lemma reconstruct_tourn_rr_set_order (PS1 PS2 : PySet) td :
  @reconstruct_tourn_rr PS1 td = @reconstruct_tourn_rr PS2 td.
Proof.
  unfold reconstruct_tourn_rr.
  set (mc := @match_counter_of PS1 td).
  set (mc' := @match_counter_of PS2 td).
  assert (H : forall k v, In (k, v) mc <-> In (k, v) mc').
  { intros k v. unfold mc, mc'. now rewrite !match_counter_items. }
  rewrite (py_min_Z_ext (filter (fun v => v >? 2) (values mc))
                        (filter (fun v => v >? 2) (values mc'))).
  2:{ intros v. rewrite !filter_In, (values_ext mc mc' v H). tauto. }
  rewrite (py_max_Z_ext (values mc) (values mc'))
    by (intros v; now apply values_ext).
  destruct (py_min _ _) as [mn|]; cbn [bind]; [|reflexivity].
  destruct (py_max _ _) as [mx|]; cbn [bind]; [|reflexivity].
  do 2 f_equal. apply classify_rows_ext; intros p; now apply keys_filter_ext.
Qed.

(** X16: Python orders neither the set of tournaments nor the set of players of
    a tournament; whatever the orders, [reconstruct_brackets_rr] gives the
    same result: the same rounds, or the same exception. *)
Theorem reconstruct_brackets_rr_set_order (PS1 PS2 : PySet) (rr_data : list row) :
  @reconstruct_brackets_rr PS1 rr_data = @reconstruct_brackets_rr PS2 rr_data.
Proof.
  unfold reconstruct_brackets_rr.
  pose proof (for_each_tournaments_cases (@reconstruct_tourn_rr PS1)
                (@set_list PS1 (map Tournament_Start rr_data))
                (@reconstruct_tourn_rr_keeps PS1) (set_list_NoDup _) rr_data)
    as H1.
  pose proof (for_each_tournaments_cases (@reconstruct_tourn_rr PS2)
                (@set_list PS2 (map Tournament_Start rr_data))
                (@reconstruct_tourn_rr_keeps PS2) (set_list_NoDup _) rr_data)
    as H2.
  assert (Hts : forall t, In t (@set_list PS1 (map Tournament_Start rr_data))
                          <-> In t (@set_list PS2 (map Tournament_Start rr_data))).
  { intros t. now rewrite !set_list_In. }
  destruct (for_each _ (@set_list PS1 _) rr_data) as [d1|e1];
    destruct (for_each _ (@set_list PS2 _) rr_data) as [d2|e2].
  - destruct H1 as [Hm1 [Hin1 _]], H2 as [Hm2 [Hin2 _]].
    f_equal. apply Forall2_eq, Forall2_by_tournament; [congruence|].
    intros t Ht. rewrite Hm1 in Ht.
    apply (proj2 (@set_list_In PS1 _ _)) in Ht.
    pose proof (Hin1 t Ht) as E1.
    pose proof (Hin2 t (proj1 (Hts t) Ht)) as E2.
    rewrite (reconstruct_tourn_rr_set_order PS1 PS2) in E1.
    rewrite E1 in E2. injection E2 as ->.
    apply Forall2_refl. reflexivity.
  - exfalso. destruct H1 as [_ [Hin1 _]], H2 as [t [Ht He]].
    specialize (Hin1 t (proj2 (Hts t) Ht)).
    rewrite (reconstruct_tourn_rr_set_order PS1 PS2) in Hin1. congruence.
  - exfalso. destruct H2 as [_ [Hin2 _]], H1 as [t [Ht He]].
    specialize (Hin2 t (proj1 (Hts t) Ht)).
    rewrite (reconstruct_tourn_rr_set_order PS1 PS2) in He. congruence.
  - destruct H1 as [t1 [_ He1]], H2 as [t2 [_ He2]].
    apply reconstruct_tourn_rr_ValueError in He1, He2. congruence.
Qed.

(** ** Single elimination: the first round *)

Lemma round_log2_pos n : 2 <= n -> 1 <= round_log2 n.
Proof.
  intros Hn. unfold round_log2.
  assert (H : 2 <= Z.log2 (n * n)).
  { change 2 with (Z.log2 4) at 1. apply Z.log2_le_mono. nia. }
  apply Z.div_le_lower_bound; lia.
Qed.

Lemma Forall2_map_l {A B} (R : A -> B -> Prop) (f : A -> A) l l' :
  Forall2 R (map f l) l' -> Forall2 (fun x y => R (f x) y) l l'.
Proof.
  revert l'. induction l as [|x l IH]; intros l' H; inversion H; subst;
    constructor; auto.
Qed.

Lemma resolve_later_round name n losers y1 y :
  2 <= n -> later_round y1 y -> later_round y1 (resolve name n losers y).
Proof.
  intros Hn H. unfold resolve.
  destruct (round_is_zero (Round y) && inb (Loser y) losers) eqn:E; auto.
  apply andb_true_iff in E as [Ez _].
  destruct H as [->|[_ [Hr _]]]; [|congruence].
  right. split; [now destruct (Round y1)|]. cbn. split; auto.
Qed.

Lemma fold_stages_later_round si stages : forall cur0 cur,
  (forall s, In s stages -> 2 <= list_index s si + 1) ->
  Forall2 later_round cur0 cur ->
  Forall2 later_round cur0 (fold_left (stage_pass si) stages cur).
Proof.
  induction stages as [|s stages IH]; intros cur0 cur Hs Hcur; [exact Hcur|].
  cbn [fold_left]. apply IH.
  - intros s' H'. apply Hs. now right.
  - rewrite stage_pass_resolve. apply Forall2_map_r; auto.
    intros x y. apply resolve_later_round. apply Hs. now left.
Qed.

Lemma reconstruct_tourn_first_round td :
  td <> [] ->
  Forall2 (fun x y =>
             Round x = Rzero ->
             (y = set_round x (Rname (round_label (stages_of td) 1)) 1
              <-> only_lost td x))
          td (reconstruct_tourn td).
Proof.
  intros Hne. unfold reconstruct_tourn. fold (stages_of td).
  assert (Hk : 1 <= stages_of td).
  { unfold stages_of. apply round_log2_pos.
    destruct td; [tauto|cbn [List.length]; lia]. }
  set (k := stages_of td) in *.
  assert (Ek : k = Z.of_nat (S (Z.to_nat (k - 1)))) by lia.
  assert (Hsi : range_down k = k :: range_down (k - 1)).
  { rewrite Ek at 1. rewrite range_down_succ, <- Ek.
    now rewrite Z2Nat.id by lia. }
  rewrite Hsi at 2. cbn [fold_left]. rewrite stage_pass_resolve.
  assert (Hname : round_name_of (range_down k) k = round_label k 1
                  /\ list_index k (range_down k) + 1 = 1).
  { destruct (round_name_label k k) as [Hn _]; [lia|lia|].
    assert (Hi : list_index k (range_down k) = 0).
    { rewrite Hsi. cbn [list_index]. now rewrite Z.eqb_refl. }
    rewrite Hn, Hi. auto. }
  destruct Hname as [-> ->].
  eapply Forall2_impl_in; [|apply Forall2_map_l, fold_stages_later_round;
                            [|apply Forall2_refl; intros; now left]].
  - intros x y Hx Hxy Hz. cbv beta in Hxy. unfold resolve in Hxy.
    rewrite Hz in Hxy. cbn [round_is_zero andb] in Hxy.
    unfold only_lost.
    destruct (inb (Loser x) (current_stage_losers td)) eqn:E.
    + apply inb_In, In_set_difference in E as [_ E].
      destruct Hxy as [->|[Hr _]]; [tauto|discriminate].
    + assert (Hl : In (Loser x) (map Winner (unresolved td))).
      { destruct (in_dec string_dec (Loser x) (map Winner (unresolved td)))
          as [H|H]; auto.
        exfalso. apply not_true_iff_false in E. apply E, inb_In.
        apply In_set_difference. split; auto.
        apply in_map. apply filter_In. split; auto. now rewrite Hz. }
      split; [|tauto]. intros ->.
      destruct Hxy as [Hxy|[_ [Hr Hn]]].
      * apply (f_equal Round) in Hxy. rewrite Hz in Hxy. discriminate.
      * cbn in Hn. lia.
  - intros s Hs.
    assert (Hs' : 1 <= s <= k - 1).
    { rewrite <- (Z2Nat.id (k - 1)) in Hs by lia. apply In_range_down in Hs.
      lia. }
    rewrite Ek, list_index_range_down by lia. lia.
Qed.

(** X10: "Round 1 losers would only ever have lost": a row without a round gets
    the round of number 1 of its tournament exactly when its loser won none
    of the rows of the tournament that have no round. *)
Theorem reconstruct_brackets_first_round {PS : PySet} (data : list row) :
  Forall2 (fun x y =>
             Round x = Rzero ->
             (y = set_round x
                    (Rname (round_label (stages_of (tournament_of data x)) 1)) 1
              <-> only_lost (tournament_of data x) x))
          data (reconstruct_brackets data).
Proof.
  apply Forall2_by_tournament.
  - symmetry. apply reconstruct_brackets_keeps.
  - intros t Ht. rewrite reconstruct_brackets_tourn by auto.
    eapply Forall2_impl_in; [|apply reconstruct_tourn_first_round].
    + intros x y Hx Hxy. apply filter_In in Hx as [_ Hx].
      unfold of_tourn in Hx. apply String.eqb_eq in Hx.
      unfold tournament_of. now rewrite Hx.
    + apply in_map_iff in Ht as [x [Hx Hin]]. intros H.
      assert (Hf : In x (filter (of_tourn t) data)).
      { apply filter_In. split; auto. unfold of_tourn. rewrite Hx.
        apply String.eqb_refl. }
      rewrite H in Hf. inversion Hf.
Qed.

(** ** Round robin: the matches of the groups *)

Section RoundRobinGroups.
Variables group_stage_losers finalists : list string.

Local Abbreviation in_groups :=
  (fun x : row => inb (Player_1 x) group_stage_losers
                  || inb (Player_2 x) group_stage_losers).

Lemma classify_row_groups visited st x :
  Forall2 (fun x y => in_groups x = true -> y = set_round x group_stage 1)
          visited (rr_rows st) ->
  Forall2 (fun x y => in_groups x = true -> y = set_round x group_stage 1)
          (visited ++ [x])
          (rr_rows (classify_row group_stage_losers finalists st x)).
Proof.
  intros H.
  assert (Hre : forall earlier,
             Forall2 (fun x y => in_groups x = true
                                 -> y = set_round x group_stage 1)
                     visited (reupdate earlier (rr_rows st))).
  { intros [i|]; [|exact H]. cbn [reupdate].
    apply Forall2_update_at; auto. intros a b Hab Ha. now rewrite (Hab Ha). }
  unfold classify_row.
  destruct (inb (Player_1 x) group_stage_losers
            || inb (Player_2 x) group_stage_losers) eqn:Eg.
  - cbn [rr_rows]. apply Forall2_app; auto.
  - repeat match goal with
           | |- context [if ?b then _ else _] => destruct b
           end;
      cbn [rr_rows]; apply Forall2_app; auto;
      constructor; auto; intros Hx; congruence.
Qed.

Lemma classify_rows_groups rest : forall visited st,
  Forall2 (fun x y => in_groups x = true -> y = set_round x group_stage 1)
          visited (rr_rows st) ->
  Forall2 (fun x y => in_groups x = true -> y = set_round x group_stage 1)
          (visited ++ rest)
          (rr_rows (fold_left (classify_row group_stage_losers finalists)
                              rest st)).
Proof.
  induction rest as [|x rest IH]; intros visited st H; simpl.
  - now rewrite app_nil_r.
  - replace (visited ++ x :: rest) with ((visited ++ [x]) ++ rest)
      by (rewrite <- app_assoc; reflexivity).
    apply IH. now apply classify_row_groups.
Qed.

End RoundRobinGroups.

Lemma reconstruct_tourn_rr_groups {PS : PySet} td rows :
  reconstruct_tourn_rr td = Ok rows ->
  Forall2 (fun x y =>
             fewest_matches td (Player_1 x) \/ fewest_matches td (Player_2 x) ->
             y = set_round x (Rname "Group Stage") 1)
          td rows.
Proof.
  unfold reconstruct_tourn_rr.
  destruct (py_min _ _) as [mn|] eqn:Emn; cbn [bind]; [|discriminate].
  destruct (py_max _ _) as [mx|]; cbn [bind]; [|discriminate].
  intros [= <-].
  apply py_min_Z_spec in Emn as [Hmn _].
  apply filter_In in Hmn as [Hmn Hgt]. apply Z.gtb_lt in Hgt.
  apply values_In in Hmn as [q0 Hq0].
  apply match_counter_items in Hq0 as [_ ->].
  eapply Forall2_impl_in;
    [|apply (classify_rows_groups _ _ td [] (mkRR [] 1 2 None None));
      constructor].
  intros x y Hx Hxy Hfew. apply Hxy. clear Hxy.
  assert (Hin : forall p, In p (players_of td) -> fewest_matches td p ->
             inb p (keys (filter (fun kv => snd kv <=? matches_played td q0)
                                 (match_counter_of td))) = true).
  { intros p Hp Hf. apply inb_In, In_keys_filter.
    exists (matches_played td p). split.
    - apply match_counter_items. auto.
    - cbn [snd]. apply Z.leb_le. apply Hf. lia. }
  apply orb_true_iff.
  destruct Hfew as [Hf|Hf]; [left|right]; apply Hin; auto;
    apply in_or_app; [left|right]; now apply in_map.
Qed.

(** X14: a match of a player who played no more matches of the tournament than
    anyone with more than two, alternates included, is a match of the
    groups: whenever [reconstruct_brackets_rr] returns, its row has "Group
    Stage" and 1, whoever the other player is. *)
Theorem reconstruct_brackets_rr_group_matches {PS : PySet}
        (rr_data rr_data' : list row) :
  reconstruct_brackets_rr rr_data = Ok rr_data' ->
  Forall2 (fun x y =>
             fewest_matches (tournament_of rr_data x) (Player_1 x)
             \/ fewest_matches (tournament_of rr_data x) (Player_2 x) ->
             y = set_round x (Rname "Group Stage") 1)
          rr_data rr_data'.
Proof.
  unfold reconstruct_brackets_rr. intros H.
  pose proof (for_each_tournaments_cases reconstruct_tourn_rr
                (set_list (map Tournament_Start rr_data))
                reconstruct_tourn_rr_keeps (set_list_NoDup _) rr_data) as Hc.
  rewrite H in Hc. destruct Hc as [Hmap [Hin _]].
  apply Forall2_by_tournament; [now symmetry|].
  intros t Ht.
  eapply Forall2_impl_in;
    [|apply reconstruct_tourn_rr_groups, Hin; now apply set_list_In].
  intros x y Hx Hxy. apply filter_In in Hx as [_ Hx].
  unfold of_tourn in Hx. apply String.eqb_eq in Hx.
  unfold tournament_of. now rewrite Hx.
Qed.

Lemma reconstruct_brackets_rr_group_matches_witness :
  exists rr_data',
    @reconstruct_brackets_rr first_seen_set group_and_final = Ok rr_data'
    /\ Forall2 (fun x y =>
                  fewest_matches (tournament_of group_and_final x) (Player_1 x)
                  \/ fewest_matches (tournament_of group_and_final x)
                                    (Player_2 x) ->
                  y = set_round x (Rname "Group Stage") 1)
               group_and_final rr_data'.
Proof.
  destruct (@reconstruct_brackets_rr first_seen_set group_and_final)
    as [rr_data'|e] eqn:E; [|vm_compute in E; discriminate].
  exists rr_data'. split; [reflexivity|].
  exact (@reconstruct_brackets_rr_group_matches first_seen_set
           group_and_final rr_data' E).
Defined.

(** ** The winner of a match *)




(** ** The start dates *)

(** X18: a start date that [handle_dodgy_dates] returns is none of the three
    last days of a year, and the function leaves it as it is: a date of 29,
    30 or 31 December has become the first of January that follows, any
    other date is kept. *)
Theorem handle_dodgy_dates_moves_the_last_days (start start' : date) :
  handle_dodgy_dates start = Ok start' ->
  is_dodgy start' = false
  /\ handle_dodgy_dates start' = Ok start'
  /\ start' = (if is_dodgy start then mkDate (year start + 1) 1 1 else start).
Proof.
  unfold handle_dodgy_dates, is_dodgy, january. cbn [existsb].
  destruct start as [y m d]. cbn [year month day].
  destruct (Z.eqb_spec m 12) as [->|Hm]; cbn [andb].
  - destruct (Z.eqb_spec d 29) as [->|H29]; cbn [orb andb].
    { destruct ((1 <=? y + 1) && (y + 1 <=? 9999)); [|discriminate].
      intros [= <-]. auto. }
    destruct (Z.eqb_spec d 30) as [->|H30]; cbn [orb andb].
    { destruct ((1 <=? y + 1) && (y + 1 <=? 9999)); [|discriminate].
      intros [= <-]. auto. }
    destruct (Z.eqb_spec d 31) as [->|H31]; cbn [orb andb].
    { destruct ((1 <=? y + 1) && (y + 1 <=? 9999)); [|discriminate].
      intros [= <-]. auto. }
    intros [= <-]. cbn [year month day].
    assert (E : (29 <=? d) && (d <=? 31) = false).
    { destruct (Z.leb_spec 29 d), (Z.leb_spec d 31); auto. lia. }
    rewrite E. destruct (Z.eqb_spec d 29), (Z.eqb_spec d 30),
      (Z.eqb_spec d 31); try lia. auto.
  - intros [= <-]. cbn [year month day].
    destruct (Z.eqb_spec m 12); [tauto|]. auto.
Qed.

Lemma handle_dodgy_dates_moves_the_last_days_witness :
  is_dodgy (mkDate 2014 1 1) = false
  /\ handle_dodgy_dates (mkDate 2014 1 1) = Ok (mkDate 2014 1 1)
  /\ mkDate 2014 1 1
     = (if is_dodgy (mkDate 2013 12 30) then mkDate (2013 + 1) 1 1
        else mkDate 2013 12 30).
Proof.
  apply (handle_dodgy_dates_moves_the_last_days
           (mkDate 2013 12 30) (mkDate 2014 1 1)).
  reflexivity.
Defined.

(** ** Round robin and other tournaments *)

Section RoundRobinSplit.
Variable year_of : Z -> Z.

Lemma rr_dict_from_cases tournaments years : forall i rr_dict,
  match rr_dict_from i tournaments years rr_dict with
  | Some _ => tournaments = []
              \/ (i + List.length tournaments <= List.length years)%nat
  | None => (List.length years < i + List.length tournaments)%nat
  end.
Proof.
  induction tournaments as [|j tournaments IH]; intros i rr_dict;
    cbn [rr_dict_from List.length].
  - now left.
  - destruct (nth_error years i) as [v|] eqn:E.
    + specialize (IH (S i) (setitem rr_dict j v)).
      assert (Hi : (i < List.length years)%nat)
        by (apply nth_error_Some; congruence).
      destruct (rr_dict_from _ _ _ _); [|lia].
      right. destruct IH as [->|IH]; cbn [List.length]; lia.
    + apply nth_error_None in E. lia.
Qed.

Lemma In_combine_seq {A} (l : list A) i x : forall s,
  In (i, x) (combine (seq s (List.length l)) l)
  <-> (s <= i)%nat /\ nth_error l (i - s) = Some x.
Proof.
  induction l as [|y l IH]; intros s; cbn [List.length seq combine In].
  - split; [tauto|]. intros [_ H]. now destruct (i - s)%nat.
  - rewrite IH. split.
    + intros [[= <- <-]|[Hs H]].
      * split; [lia|]. now rewrite Nat.sub_diag.
      * split; [lia|]. replace (i - s)%nat with (S (i - S s)) by lia.
        exact H.
    + intros [Hs H]. destruct (Nat.eq_dec i s) as [->|Hne].
      * left. rewrite Nat.sub_diag in H. now injection H as ->.
      * right. split; [lia|].
        replace (i - s)%nat with (S (i - S s)) in H by lia. exact H.
Qed.

Lemma In_enumerate0 {A} (l : list A) i x :
  In (i, x) (enumerate0 l) <-> nth_error l i = Some x.
Proof.
  unfold enumerate0. rewrite In_combine_seq, Nat.sub_0_r.
  split; [tauto|]. split; [lia|assumption].
Qed.

Lemma flat_map_ext_on {A B} (f g : A -> list B) l :
  (forall a, In a l -> f a = g a) -> flat_map f l = flat_map g l.
Proof.
  induction l as [|a l IH]; intros H; [reflexivity|]. cbn [flat_map].
  rewrite (H a (or_introl eq_refl)), IH; auto.
  intros b Hb. apply H. now right.
Qed.

Lemma rows_at_snoc l x keep :
  rows_at (l ++ [x]) keep
  = rows_at l keep ++ (if keep (List.length l) then [x] else []).
Proof.
  unfold rows_at. rewrite length_app, Nat.add_1_r, seq_S, filter_app,
    flat_map_app. cbn [Nat.add filter].
  f_equal.
  - apply flat_map_ext_on. intros i Hi. apply filter_In in Hi as [Hi _].
    apply in_seq in Hi. now rewrite nth_error_app1 by lia.
  - destruct (keep (List.length l)); [|reflexivity]. cbn [flat_map].
    rewrite nth_error_app2, Nat.sub_diag by lia. reflexivity.
Qed.

Lemma rows_at_filter (p : row -> bool) keep data :
  (forall i x, nth_error data i = Some x -> keep i = p x) ->
  rows_at data keep = filter p data.
Proof.
  induction data as [|x l IH] using rev_ind; intros H; [reflexivity|].
  rewrite rows_at_snoc, filter_app. cbn [filter]. f_equal.
  - apply IH. intros i y Hy. apply H. rewrite nth_error_app1; auto.
    apply nth_error_Some. congruence.
  - rewrite (H (List.length l) x)
      by (rewrite nth_error_app2, Nat.sub_diag by lia; reflexivity).
    now destruct (p x).
Qed.

Lemma rr_indices_spec rr_dict data i x :
  nth_error data i = Some x ->
  existsb (Nat.eqb i)
          (flat_map (fun kv =>
                       map fst (filter (fun iv => rr_match year_of (fst kv)
                                                           (snd kv) (snd iv))
                                       (enumerate0 data)))
                    rr_dict)
  = is_round_robin year_of rr_dict x.
Proof.
  intros Hx. unfold is_round_robin.
  apply eq_true_iff_eq. rewrite !existsb_exists. split.
  - intros [j [Hj E]]. apply Nat.eqb_eq in E. subst j.
    apply in_flat_map in Hj as [kv [Hkv Hi]].
    apply in_map_iff in Hi as [[i' y] [Ei Hy]]. cbn [fst] in Ei. subst i'.
    apply filter_In in Hy as [Hy Hm]. cbn [snd] in Hm.
    apply In_enumerate0 in Hy. exists kv. split; auto. congruence.
  - intros [kv [Hkv Hm]]. exists i. split; [|apply Nat.eqb_refl].
    apply in_flat_map. exists kv. split; auto.
    apply in_map_iff. exists (i, x). split; auto.
    apply filter_In. split; auto. now apply In_enumerate0.
Qed.

Lemma filter_round_robin_cases tournaments years data :
  match filter_round_robin year_of tournaments years data with
  | Some (rr_dict, normal_data, rr_data) =>
      (List.length tournaments <= List.length years)%nat
      /\ normal_data
         = filter (fun x => negb (is_round_robin year_of rr_dict x)) data
      /\ rr_data = filter (is_round_robin year_of rr_dict) data
  | None => (List.length years < List.length tournaments)%nat
  end.
Proof.
  unfold filter_round_robin, find_exceptions.
  pose proof (rr_dict_from_cases tournaments years 0 []) as H.
  destruct (rr_dict_from 0 tournaments years []) as [rr_dict|]; [|lia].
  split; [destruct H as [->|H]; cbn [List.length]; lia|].
  split; apply rows_at_filter; intros i x Hx;
    now rewrite (rr_indices_spec rr_dict data i x Hx).
Qed.

Lemma filter_split {A} (p : A -> bool) l :
  Permutation (filter (fun x => negb (p x)) l ++ filter p l) l.
Proof.
  induction l as [|x l IH]; [constructor|]. cbn [filter].
  destruct (p x); cbn [negb app].
  - rewrite <- Permutation_middle. now constructor.
  - now constructor.
Qed.

End RoundRobinSplit.

(** X19: [filter_round_robin] fails, at [years[i]], exactly when [years] is
    shorter than [tournaments].  Otherwise it splits the data in two, the
    order kept: a row goes to the round-robin data when its tournament
    occurs in a name of [rr_dict] and its year is one of the years kept
    with that name, and to the normal data when there is no such name,
    even if several names fit. *)
Theorem filter_round_robin_splits (year_of : Z -> Z) (tournaments : list string)
        (years : list (list Z)) (data : list row) :
  match filter_round_robin year_of tournaments years data with
  | Some (rr_dict, normal_data, rr_data) =>
      (List.length tournaments <= List.length years)%nat
      /\ normal_data
         = filter (fun x => negb (is_round_robin year_of rr_dict x)) data
      /\ rr_data = filter (is_round_robin year_of rr_dict) data
      /\ Permutation (normal_data ++ rr_data) data
  | None => (List.length years < List.length tournaments)%nat
  end.
Proof.
  pose proof (filter_round_robin_cases year_of tournaments years data) as H.
  destruct (filter_round_robin year_of tournaments years data)
    as [[[rr_dict normal_data] rr_data]|]; [|exact H].
  destruct H as [Hlen [-> ->]]. repeat split; auto. apply filter_split.
Qed.

(** ** All the brackets *)

Lemma labelled_unrounded k x y : labelled k x y -> unrounded y = unrounded x.
Proof.
  intros [->|[_ [n [_ ->]]]]; reflexivity.
Qed.

Lemma rr_labelled_unrounded x y : rr_labelled x y -> unrounded y = unrounded x.
Proof.
  intros [ -> | [ -> | -> ] ]; reflexivity.
Qed.

Lemma Forall2_map_eq {A B} (f : A -> B) l l' :
  Forall2 (fun x y => f y = f x) l l' -> map f l' = map f l.
Proof.
  induction 1; simpl; congruence.
Qed.

Lemma reconstruct_brackets_unrounded {PS : PySet} data :
  map unrounded (reconstruct_brackets data) = map unrounded data.
Proof.
  apply Forall2_map_eq, Forall2_by_tournament.
  - symmetry. apply reconstruct_brackets_keeps.
  - intros t Ht. rewrite reconstruct_brackets_tourn by auto.
    eapply Forall2_impl_in; [|apply reconstruct_tourn_labelled].
    intros x y _. apply labelled_unrounded.
Qed.

Lemma reconstruct_brackets_rr_unrounded {PS : PySet} rr_data rr_data' :
  reconstruct_brackets_rr rr_data = Ok rr_data' ->
  map unrounded rr_data' = map unrounded rr_data.
Proof.
  unfold reconstruct_brackets_rr. intros H.
  pose proof (for_each_tournaments_cases reconstruct_tourn_rr
                (set_list (map Tournament_Start rr_data))
                reconstruct_tourn_rr_keeps (set_list_NoDup _) rr_data) as Hc.
  rewrite H in Hc. destruct Hc as [Hmap [Hin _]].
  apply Forall2_map_eq, Forall2_by_tournament; [now symmetry|].
  intros t Ht.
  eapply Forall2_impl_in;
    [|apply reconstruct_tourn_rr_labelled, Hin; now apply set_list_In].
  intros x y _. apply rr_labelled_unrounded.
Qed.


(** X21: from the data read to the data with its rounds: when
    [filter_round_robin] splits the data and [reconstruct_all_brackets]
    returns, no match is lost and none comes twice; the rows returned are
    those of the data, in another order and with cells 13 and 14
    rewritten. *)
Theorem split_and_reconstruct_keep_the_matches {PS : PySet}
        (year_of : Z -> Z) (tournaments : list string) (years : list (list Z))
        (data normal_data rr_data all_data : list row) (rr_dict : dict (list Z)) :
  filter_round_robin year_of tournaments years data
  = Some (rr_dict, normal_data, rr_data) ->
  reconstruct_all_brackets normal_data rr_data = Ok all_data ->
  Permutation (map unrounded all_data) (map unrounded data).
Proof.
  intros Hf Ha.
  pose proof (filter_round_robin_cases year_of tournaments years data) as H.
  rewrite Hf in H. destruct H as [_ [-> ->]].
  unfold reconstruct_all_brackets in Ha.
  destruct (reconstruct_brackets_rr _) as [rr_data'|e] eqn:E;
    cbn [bind] in Ha; [|discriminate].
  injection Ha as <-.
  rewrite map_app, reconstruct_brackets_unrounded,
    (reconstruct_brackets_rr_unrounded _ _ E), <- map_app.
  apply Permutation_map, filter_split.
Qed.

Lemma split_and_reconstruct_keep_the_matches_witness :
  exists all_data,
    @reconstruct_all_brackets first_seen_set with_playoff group_and_final
    = Ok all_data
    /\ Permutation (map unrounded all_data)
                   (map unrounded (with_playoff ++ group_and_final)).
Proof.
  destruct (@reconstruct_all_brackets first_seen_set with_playoff
              group_and_final) as [all_data|e] eqn:E;
    [|vm_compute in E; discriminate].
  exists all_data. split; [reflexivity|].
  apply (@split_and_reconstruct_keep_the_matches first_seen_set
           (fun _ => 2020) ["Masters 2020-11-02"] [[2020]]
           (with_playoff ++ group_and_final) with_playoff group_and_final
           all_data [("Masters 2020-11-02", [2020])]).
  - reflexivity.
  - exact E.
Defined.

(** ** The comparison with the official ranks *)

Section AlreadySorted.
Context {V : Type} (ltb : V -> V -> bool).

Lemma sorted_desc_sorted l : descending ltb l -> sorted_desc ltb l = l.
Proof.
  unfold descending. induction 1 as [|x l Hs IH Hx]; [reflexivity|].
  cbn [sorted_desc fold_right]. fold (sorted_desc ltb l). rewrite IH.
  destruct l as [|y l]; [reflexivity|]. cbn [insert_desc].
  inversion Hx as [|? ? Hy _]; subst. now rewrite Hy.
Qed.

End AlreadySorted.

Lemma list_ltb_one a b : list_ltb [a] [b] = Qc_ltb a b.
Proof.
  cbn [list_ltb]. destruct (Qc_ltb a b); [reflexivity|].
  now destruct (Qc_ltb b a).
Qed.

Lemma descending_singletons (scores : list (string * Qc)) :
  descending Qc_ltb scores ->
  descending list_ltb (map (fun kv => (fst kv, [snd kv])) scores).
Proof.
  unfold descending. induction 1 as [|x l Hs IH Hx]; cbn [map]; constructor;
    auto.
  apply Forall_map. revert Hx. apply Forall_impl. intros y Hy.
  cbn [snd]. now rewrite list_ltb_one.
Qed.

Lemma combine_map_r {A B C} (f : B -> C) (l : list A) : forall l',
  combine l (map f l') = map (fun ab => (fst ab, f (snd ab))) (combine l l').
Proof.
  induction l as [|a l IH]; intros [|b l']; cbn [combine map]; auto.
  now rewrite IH.
Qed.

Lemma map_snd_combine_seq {A} (l : list A) : forall s,
  map snd (combine (map Z.of_nat (seq s (List.length l))) l) = l.
Proof.
  induction l as [|a l IH]; intros s; cbn [List.length seq map combine snd];
    auto.
  now rewrite IH.
Qed.

Lemma first_entries_scores scores :
  map score_item (first_entries scores)
  = map (fun kv => (fst kv, [snd kv])) scores.
Proof.
  unfold first_entries, enumerate1. rewrite map_map.
  rewrite <- (map_snd_combine_seq scores 1) at 3. rewrite map_map.
  apply map_ext. now intros [i [p s]].
Qed.

Lemma first_entries_places scores :
  map place_item (first_entries scores)
  = map (fun rk => (snd rk, [Z2Qc (fst rk)])) (enumerate1 (keys scores)).
Proof.
  unfold first_entries, enumerate1, keys.
  rewrite length_map, combine_map_r, !map_map.
  apply map_ext. now intros [i [p s]].
Qed.

Lemma append_rank_other k v1 v2 d1 d2 player rank :
  String.eqb player k = false ->
  append_rank ((k, v1) :: d1, (k, v2) :: d2) player rank
  = rmap (fun st => ((k, v1) :: fst st, (k, v2) :: snd st))
         (append_rank (d1, d2) player rank).
Proof.
  intros E. unfold append_rank, getitem. cbn [dict_get]. rewrite E.
  destruct (dict_get d1 player) as [v|]; cbn [bind rmap]; [|reflexivity].
  destruct (Nat.eqb (List.length v) 1 && negb (rank =? 0));
    cbn [rmap fst snd]; [|reflexivity].
  cbn [setitem dict_get]. rewrite E.
  destruct (dict_get d2 player) as [va|]; cbn [bind rmap fst snd];
    reflexivity.
Qed.

Lemma append_rank_here k v1 v2 d1 d2 rank :
  append_rank ((k, v1) :: d1, (k, v2) :: d2) k rank
  = Ok (if Nat.eqb (List.length v1) 1 && negb (rank =? 0)
        then ((k, v1 ++ [Z2Qc rank]) :: d1, (k, v2 ++ [Z2Qc rank]) :: d2)
        else ((k, v1) :: d1, (k, v2) :: d2)).
Proof.
  unfold append_rank, getitem. cbn [dict_get]. rewrite String.eqb_refl.
  cbn [bind].
  destruct (Nat.eqb (List.length v1) 1 && negb (rank =? 0)); [|reflexivity].
  cbn [setitem dict_get]. rewrite String.eqb_refl. reflexivity.
Qed.

Lemma append_rank_entries es player rank :
  append_rank (map score_item es, map place_item es) player rank
  = if inb player (map e_player es)
    then Ok (map score_item (add_rank player rank es),
             map place_item (add_rank player rank es))
    else Raise KeyError.
Proof.
  induction es as [|e es IH]; [reflexivity|].
  cbn [map add_rank]. unfold inb. cbn [existsb]. fold (inb player (map e_player es)).
  unfold score_item at 1, place_item at 1.
  destruct (String.eqb_spec player (e_player e)) as [->|Hne]; cbn [orb].
  - rewrite append_rank_here. cbn [List.length Nat.eqb]. f_equal.
    destruct (Nat.eqb (List.length (e_rank e)) 0 && negb (rank =? 0));
      reflexivity.
  - rewrite append_rank_other by (now apply String.eqb_neq).
    rewrite IH. destruct (inb player (map e_player es)); reflexivity.
Qed.

Lemma add_rank_entry_of scores td player rank x es :
  In x td -> rank_in x player rank ->
  Forall (entry_of scores td) es ->
  Forall (entry_of scores td) (add_rank player rank es).
Proof.
  intros Hx Hr. induction 1 as [|e es He Hes IH]; cbn [add_rank];
    [constructor|].
  destruct (String.eqb_spec player (e_player e)) as [->|_].
  - constructor; auto.
    destruct (Nat.eqb (List.length (e_rank e)) 0 && negb (rank =? 0)) eqn:E;
      auto.
    apply andb_true_iff in E as [E1 E2]. apply Nat.eqb_eq in E1.
    apply negb_true_iff, Z.eqb_neq in E2.
    destruct He as [Hin _]. split; [exact Hin|]. right. cbn [e_rank e_player].
    destruct (e_rank e); [|discriminate]. exists rank, x. auto.
  - constructor; auto.
Qed.

Section Compared.
Context {PS : PySet}.
Variable start_date_of_key : string -> result Z.

(** The two dicts of a tournament are built from the same entries. *)
Lemma tourn_ranks_data_entries data all_data t tourn ranks :
  tourn_ranks_data start_date_of_key data all_data t tourn = Ok ranks ->
  exists start_date scores es,
    start_date_of_key tourn = Ok start_date
    /\ calc_wbw (window all_data start_date) t = Ok scores
    /\ ranks = (map score_item es, map place_item es)
    /\ Forall (entry_of scores (filter (of_tourn tourn) data)) es.
Proof.
  unfold tourn_ranks_data.
  destruct (start_date_of_key tourn) as [start_date|]; cbn [bind];
    [|discriminate].
  fold (window all_data start_date).
  destruct (calc_wbw (window all_data start_date) t) as [scores|] eqn:Es;
    cbn [bind]; [|discriminate].
  intros Hloop. exists start_date, scores.
  assert (Hd : descending Qc_ltb scores).
  { unfold calc_wbw, calc_wbw_with in Es.
    destruct (wbw_init _); cbn [bind] in Es; [|discriminate].
    destruct (wbw_loop _ _ _ _ _ _); cbn [bind] in Es; [|discriminate].
    injection Es as <-. apply descending_Qc. }
  rewrite (sorted_desc_sorted list_ltb _ (descending_singletons _ Hd)) in Hloop.
  assert (Hk : keys (map (fun kv : string * Qc => (fst kv, [snd kv])) scores)
               = keys scores)
    by (unfold keys; rewrite map_map; reflexivity).
  rewrite Hk, <- first_entries_scores, <- first_entries_places in Hloop.
  fold (of_tourn tourn) in Hloop.
  assert (H : exists es, ranks = (map score_item es, map place_item es)
                         /\ Forall (entry_of scores (filter (of_tourn tourn) data))
                                   es).
  { revert Hloop.
    apply (for_each_invariant
             (fun st => exists es,
                  st = (map score_item es, map place_item es)
                  /\ Forall (entry_of scores (filter (of_tourn tourn) data)) es)).
    - intros st x st' Hx [es [-> Hes]].
      rewrite append_rank_entries.
      destruct (inb (Player_1 x) (map e_player es)); cbn [bind];
        [|discriminate].
      rewrite append_rank_entries.
      destruct (inb (Player_2 x) _); [|discriminate].
      intros [= <-]. eexists. split; [reflexivity|].
      apply (add_rank_entry_of _ _ _ _ x); auto; [right; auto|].
      apply (add_rank_entry_of _ _ _ _ x); auto. left; auto.
    - exists (first_entries scores). split; [reflexivity|].
      unfold first_entries. apply Forall_map, Forall_forall.
      intros [i [p s]] Hin. split; [exact Hin|now left]. }
  destruct H as [es [H1 H2]]. exists es. auto.
Qed.

Lemma with_two_entries es :
  values (with_two (map score_item es))
  = map (fun e => e_score e :: e_rank e)
        (filter (fun e => Nat.eqb (List.length (e_rank e)) 1) es)
  /\ values (with_two (map place_item es))
     = map (fun e => Z2Qc (e_place e) :: e_rank e)
           (filter (fun e => Nat.eqb (List.length (e_rank e)) 1) es).
Proof.
  unfold with_two, values.
  induction es as [|e es [IH1 IH2]]; [split; reflexivity|].
  simpl. destruct (List.length (e_rank e)) as [|[|n]]; simpl;
    split; congruence.
Qed.

End Compared.

(** X22: every row of the array that [compare_wbw_wta] returns holds the three
    numbers of one and the same player at one tournament of the data: the
    score of that player in the WinnersBeatWinners ranking of the 52 weeks
    up to the tournament, an official rank of that player recorded in a row
    of the tournament, other than 0, and the place of that player in the
    ranking, counted from 1. *)
Theorem compare_wbw_wta_rows {PS : PySet}
        (start_date_of_key : string -> result Z) (data all_data : list row)
        (stopping_threshold : Qc) (rows : list (list Qc)) :
  compare_wbw_wta start_date_of_key data all_data stopping_threshold = Ok rows ->
  Forall (compared_row start_date_of_key data all_data stopping_threshold) rows.
Proof.
  unfold compare_wbw_wta.
  destruct (for_each _ _ _) as [[all_ranks all_ranks_alt]|] eqn:E;
    cbn [bind]; [|discriminate].
  intros [= <-].
  set (with_place := fun e : entry => (e_score e :: e_rank e,
                                        Z2Qc (e_place e) :: e_rank e)).
  assert (H : exists es,
             all_ranks = map (fun e => fst (with_place e)) es
             /\ all_ranks_alt = map (fun e => snd (with_place e)) es
             /\ Forall (fun e => compared_row start_date_of_key data all_data
                                   stopping_threshold
                                   (fst (with_place e)
                                      ++ [hd 0%Qc (snd (with_place e))])) es).
  { revert E.
    apply (for_each_invariant
             (fun acc => exists es,
                  fst acc = map (fun e => fst (with_place e)) es
                  /\ snd acc = map (fun e => snd (with_place e)) es
                  /\ Forall (fun e => compared_row start_date_of_key data
                                        all_data stopping_threshold
                                        (fst (with_place e)
                                           ++ [hd 0%Qc (snd (with_place e))]))
                            es)).
    - intros [a b] tourn [a' b'] _ [es [Ha [Hb Hes]]]. cbn [fst snd] in *.
      destruct (tourn_ranks_data _ _ _ _ _) as [rd|] eqn:Erd; cbn [bind];
        [|discriminate].
      intros [= <- <-].
      apply tourn_ranks_data_entries in Erd
        as (sd & scores & es' & Hsd & Hsc & -> & Hes').
      cbn [fst snd]. destruct (with_two_entries es') as [-> ->].
      exists (es ++ filter (fun e => Nat.eqb (List.length (e_rank e)) 1) es').
      rewrite !map_app, Ha, Hb. split; [reflexivity|]. split; [reflexivity|].
      apply Forall_app. split; [exact Hes|].
      apply Forall_forall. intros e He. apply filter_In in He as [He Hl].
      rewrite Forall_forall in Hes'. destruct (Hes' e He) as [Hin Hr].
      destruct Hr as [Hr|[w [x [Hr [Hw [Hx Hrank]]]]]];
        [rewrite Hr in Hl; discriminate|].
      apply filter_In in Hx as [Hx Ht]. apply String.eqb_eq in Ht.
      exists tourn, sd, scores, (e_place e), (e_player e), (e_score e), x, w.
      unfold with_place. cbn [fst snd hd]. rewrite Hr. cbn [app].
      repeat split; auto.
    - exists []. cbn. auto. }
  destruct H as [es [-> [-> Hes]]].
  rewrite map_map.
  assert (Hc : forall l : list entry,
             combine (map (fun e => fst (with_place e)) l)
                     (map (fun e => hd 0%Qc (snd (with_place e))) l)
             = map (fun e => (fst (with_place e), hd 0%Qc (snd (with_place e))))
                   l).
  { induction l as [|e l IH]; cbn [map combine]; congruence. }
  rewrite Hc, map_map. apply Forall_map. exact Hes.
Qed.

Lemma compare_wbw_wta_rows_witness :
  exists rows,
    @compare_wbw_wta first_seen_set (fun _ => Ok 10) ranked_later ranked_later
                     default_threshold = Ok rows
    /\ Forall (@compared_row first_seen_set (fun _ => Ok 10) ranked_later
                 ranked_later default_threshold) rows.
Proof.
  destruct (@compare_wbw_wta first_seen_set (fun _ => Ok 10) ranked_later
              ranked_later default_threshold) as [rows|e] eqn:E;
    [|vm_compute in E; discriminate].
  exists rows. split; [reflexivity|].
  exact (@compare_wbw_wta_rows first_seen_set (fun _ => Ok 10) ranked_later
           ranked_later default_threshold rows E).
Defined.

(** *** When the comparison returns *)




Section Returns.
Context {PS : PySet}.
Variable start_date_of_key : string -> result Z.



End Returns.



(** ** Filters *)

Section Filters.
Variable array_is : set_results -> pyval -> result bool.

Lemma filter_r_and (t1 t2 : row -> result bool) data : forall l,
  filter_r (fun x => a <- t1 x ;; if a then t2 x else Ok false) data = Ok l
  <-> exists l1, filter_r t1 data = Ok l1 /\ filter_r t2 l1 = Ok l.
Proof.
  induction data as [|x data IH]; intros l; cbn [filter_r].
  - split.
    + intros [= <-]. exists []. auto.
    + intros [l1 [[= <-] H]]. exact H.
  - destruct (filter_r t1 data) as [l1|e1];
      destruct (filter_r _ data) as [r|er];
      destruct (t1 x) as [[|]|e]; cbn [bind];
      try (split; [discriminate|intros [l1' [H _]]; discriminate]).
    + destruct (proj1 (IH r) eq_refl) as [l2 [[= <-] E2]].
      split.
      * destruct (t2 x) as [b|] eqn:Eb; cbn [bind]; [|discriminate].
        intros [= <-]. exists (x :: l1). split; auto.
        cbn [filter_r]. now rewrite Eb, E2.
      * intros [l1' [[= <-] H]]. cbn [filter_r] in H.
        destruct (t2 x) as [b|]; cbn [bind] in *; [|discriminate].
        now rewrite E2 in H.
    + destruct (proj1 (IH r) eq_refl) as [l2 [[= <-] E2]].
      split; [intros [= <-]; eauto|].
      intros [l1' [[= <-] H]]. congruence.
    + split.
      * destruct (t2 x); cbn [bind]; discriminate.
      * intros [l1' [[= <-] H]]. cbn [filter_r] in H.
        destruct (t2 x) as [b|]; cbn [bind] in *; [|discriminate].
        destruct (filter_r t2 l1) as [r|] eqn:Er; cbn [bind] in H;
          [|discriminate].
        assert (E : @Raise (list row) er = Ok r) by (apply IH; eauto).
        discriminate.
    + split; [discriminate|].
      intros [l1' [[= <-] H]].
      assert (E : @Raise (list row) er = Ok l) by (apply IH; eauto).
      discriminate.
    + split.
      * destruct (t2 x); cbn [bind]; [|discriminate]. intros [= <-].
        destruct (proj1 (IH r) eq_refl) as [l2 [H _]]. discriminate.
      * intros [l1' [H _]]. discriminate.
    + split; [|intros [l1' [H _]]; discriminate].
      intros [= <-]. destruct (proj1 (IH r) eq_refl) as [l2 [H _]].
      discriminate.
    + split; [|intros [l1' [H _]]; discriminate].
      destruct (t2 x); cbn [bind]; discriminate.
Qed.

End Filters.

(** X24: a condition that Python takes for false, such as the rank 0 of a player
    without a rank, the round 0 of a row without a round or the empty
    string, cannot be filtered on: [filter_condition] then returns [None],
    whatever the data, the columns and the two flags. *)
Theorem filter_condition_false_condition
        (array_is : set_results -> pyval -> result bool) (data : list row)
        (col1 : string) (condition1 : pyval) (col2 : option string)
        (condition2 : pyval) (logical_and logical_or : bool) :
  truthy condition1 = false ->
  filter_condition array_is data col1 condition1 col2 condition2
                   logical_and logical_or = Ok None.
Proof.
  intros H. unfold filter_condition. rewrite H.
  now rewrite !andb_false_r.
Qed.

Lemma filter_condition_false_condition_witness :
  filter_condition (fun _ _ => Raise ValueError) a_beats_b "Round" (PInt 0)
                   None PNone true false = Ok None.
Proof.
  apply (filter_condition_false_condition (fun _ _ => Raise ValueError)
           a_beats_b "Round" (PInt 0) None PNone true false).
  reflexivity.
Defined.

(** X25: filtering on two conditions with AND, the default, gives what two
    filters on one condition give one after the other: it returns a list
    exactly when these do, and then the same list.  The flag [logical_or]
    is not looked at. *)
Theorem filter_condition_and_is_two_filters
        (array_is : set_results -> pyval -> result bool) (data : list row)
        (col1 col2 : string) (condition1 condition2 : pyval)
        (logical_or : bool) (l : list row) :
  truthy condition1 = true -> truthy condition2 = true ->
  filter_condition array_is data col1 condition1 (Some col2) condition2
                   true logical_or = Ok (Some l)
  <-> exists l1,
        filter_condition array_is data col1 condition1 None PNone true false
        = Ok (Some l1)
        /\ filter_condition array_is l1 col2 condition2 None PNone true false
           = Ok (Some l).
Proof.
  intros H1 H2. unfold filter_condition. rewrite H1, H2.
  cbn [andb truthy].
  pose proof (filter_r_and (cell_is array_is (Some col1) condition1)
                (cell_is array_is (Some col2) condition2) data l) as H.
  split.
  - destruct (filter_r _ data) as [l'|] eqn:E; cbn [rmap]; [|discriminate].
    intros [= ->]. destruct (proj1 H eq_refl) as [l1 [E1 E2]].
    exists l1. now rewrite E1, E2.
  - intros [l1 [E1 E2]].
    destruct (filter_r (cell_is array_is (Some col1) condition1) data)
      as [l1'|]; cbn [rmap] in E1; [|discriminate].
    injection E1 as ->.
    destruct (filter_r (cell_is array_is (Some col2) condition2) l1)
      as [l'|] eqn:E; cbn [rmap] in E2; [|discriminate].
    injection E2 as ->.
    assert (E' : filter_r
                   (fun x => a <- cell_is array_is (Some col1) condition1 x ;;
                             if a then cell_is array_is (Some col2) condition2 x
                             else Ok false) data = Ok l)
      by (apply H; eauto).
    now rewrite E'.
Qed.

Lemma filter_condition_and_is_two_filters_witness :
  filter_condition (fun _ _ => Raise ValueError) eight_players
                   "Winner" (PStr "A") (Some "Loser") (PStr "B") true true
  = Ok (Some [fresh_row "Cup 2020-02-03" 34 "A" "B" 1 2;
              fresh_row "Open 2020-01-10" 10 "A" "B" 1 2])
  <-> exists l1,
        filter_condition (fun _ _ => Raise ValueError) eight_players
                         "Winner" (PStr "A") None PNone true false
        = Ok (Some l1)
        /\ filter_condition (fun _ _ => Raise ValueError) l1
                            "Loser" (PStr "B") None PNone true false
           = Ok (Some [fresh_row "Cup 2020-02-03" 34 "A" "B" 1 2;
                       fresh_row "Open 2020-01-10" 10 "A" "B" 1 2]).
Proof.
  apply (filter_condition_and_is_two_filters (fun _ _ => Raise ValueError)
           eight_players "Winner" "Loser" (PStr "A") (PStr "B") true
           [fresh_row "Cup 2020-02-03" 34 "A" "B" 1 2;
            fresh_row "Open 2020-01-10" 10 "A" "B" 1 2]);
    reflexivity.
Defined.
